(** * Rate-limited channel export: a shallow embedding of [modules/messages.js]

    The source file holds two JavaScript modules: the three public message
    operations ([getMessages], [getMessageDetail], [downloadMessageMedia])
    and the [DownloadChannel] class that pages through a channel, schedules
    the media downloads of every page and persists a resume cursor.

    The embedding follows the code function by function.  JavaScript's
    [async] functions are written in a state-and-exception monad [M] over a
    [World]; everything the environment decides (the clock, [Math.random],
    the answers of the Telegram client, file-system failures, the order in
    which the event loop resumes suspended download promises) is read from
    an oracle [Env], so that every statement proved below holds for every
    behaviour of the environment. *)

From Stdlib Require Import ZArith QArith Lqa List String Ascii Bool Lia.
From stdpp Require Import base gmap strings list pretty.
Import ListNotations.

Open Scope string_scope.
Open Scope list_scope.
Open Scope Z_scope.

(** ** JavaScript values and truthiness *)

Inductive JsVal : Type :=
| JUndefined
| JNull
| JBool (b : bool)
| JNum (n : Z)
| JStr (s : string).

(** [Boolean(v)]: what [if (v)], [!v], [||] and [&&] test. *)
Definition truthy (v : JsVal) : bool :=
  match v with
  | JUndefined | JNull => false
  | JBool b => b
  | JNum n => negb (n =? 0)
  | JStr s => negb (String.eqb s "")
  end.

(** [a || b] and [a && b] return one of their operands. *)
Definition js_or (a b : JsVal) : JsVal := if truthy a then a else b.
Definition js_and (a b : JsVal) : JsVal := if truthy a then b else a.

(** [v.toString()] on the values a channel id can take; [undefined] and
    [null] have no such method and the call throws a [TypeError]. *)
Definition js_toString (v : JsVal) : option string :=
  match v with
  | JUndefined | JNull => None
  | JBool b => Some (if b then "true" else "false")
  | JNum n => Some (pretty n)
  | JStr s => Some s
  end.

(** A JavaScript object used as a dictionary, by its own properties.
    [o?.[k]] is [undefined] when [o] is [null] or has no property [k]. *)
Definition js_get (o : option (gmap string JsVal)) (k : string) : JsVal :=
  match o with
  | None => JUndefined
  | Some props => default JUndefined (props !! k)
  end.

(** ** Strings *)

(** [s.includes(needle)] *)
Fixpoint includes (needle s : string) : bool :=
  String.prefix needle s ||
  match s with
  | EmptyString => false
  | String _ s' => includes needle s'
  end.

Definition isDigit (c : ascii) : bool :=
  let n := nat_of_ascii c in (48 <=? n)%nat && (n <=? 57)%nat.

Fixpoint takeDigits (s : string) : string :=
  match s with
  | EmptyString => EmptyString
  | String c s' => if isDigit c then String c (takeDigits s') else EmptyString
  end.

(** [s.match(/\d+/)?.[0]]: the first maximal run of decimal digits. *)
Fixpoint matchDigits (s : string) : option string :=
  match s with
  | EmptyString => None
  | String c s' => if isDigit c then Some (takeDigits s) else matchDigits s'
  end.

Fixpoint parseDigits (acc : Z) (s : string) : Z :=
  match s with
  | EmptyString => acc
  | String c s' =>
      if isDigit c then parseDigits (10 * acc + (Z.of_nat (nat_of_ascii c) - 48)) s'
      else acc
  end.

(** [parseInt(s)] on the strings the code passes to it: a non-empty run of
    decimal digits (the regular-expression match, or the literal "300"). *)
Definition parseInt (s : string) : Z := parseDigits 0 s.

Definition lowerAscii (c : ascii) : ascii :=
  let n := nat_of_ascii c in
  if (65 <=? n)%nat && (n <=? 90)%nat then ascii_of_nat (n + 32) else c.

(** [s.toLowerCase()] on ASCII letters. *)
Fixpoint toLowerCase (s : string) : string :=
  match s with
  | EmptyString => EmptyString
  | String c s' => String (lowerAscii c) (toLowerCase s')
  end.

(** [s.replace(".", "")]: a string pattern replaces the first occurrence. *)
Fixpoint removeFirstDot (s : string) : string :=
  match s with
  | EmptyString => EmptyString
  | String c s' => if Ascii.eqb c "."%char then s' else String c (removeFirstDot s')
  end.

(** ** Messages *)

Record WebPage : Type := { wp_id : Z; wp_url : string }.

Record Media : Type := {
  media_webpage : option WebPage;
  media_poll : option string
}.

Record Message : Type := {
  msg_id : Z;
  msg_message : string;
  msg_date : Z;
  msg_out : bool;
  msg_media : option Media;
  msg_fromUserId : option Z;
  msg_peerUserId : option Z
}.

(** A thrown [Error]: the code under study only ever reads [message]. *)
Record Error : Type := { err_name : string; err_message : string }.

Definition newError (msg : string) : Error :=
  {| err_name := "Error"; err_message := msg |}.

Definition typeError (msg : string) : Error :=
  {| err_name := "TypeError"; err_message := msg |}.

(** The Telegram client handle; its behaviour is the environment's. *)
Inductive Client : Type := TelegramClient.

(** The two ways the code calls [client.getMessages]. *)
Inductive Query : Type :=
| QHistory (limit offsetId : Z)
| QByIds (ids : list Z).

(** How an awaited promise of the environment ends. *)
Inductive Response (A : Type) : Type :=
| Resolved (a : A)
| Rejected (e : Error).
Arguments Resolved {A} a.
Arguments Rejected {A} e.

(** ** Collaborators outside the source file

    [../utils/helper] and Node's [path] module are not part of the file;
    they are pure functions of their arguments and are taken as
    parameters. *)
Record Helpers : Type := {
  getMediaType : Message -> string;
  getMediaPath : Message -> string -> string;
  circularStringify : string -> string;
  path_join : string -> string -> string;
  path_basename : string -> string;
  path_extname : string -> string;
  process_cwd : string
}.

(** Everything the environment decides, indexed by the number of
    interactions made so far. *)
Record Env : Type := {
  env_now : nat -> Z;
  env_random : nat -> Q;
  env_random_range : forall k, (0 <= env_random k)%Q /\ (env_random k < 1)%Q;
  env_getMessages : nat -> JsVal -> Query -> Response (list Message);
  env_downloadMedia : nat -> Message -> string -> Response unit;
  env_writeFile : nat -> string -> string -> Response unit;
  env_appendFile : nat -> string -> Response unit;
  env_saveSelection : nat -> Response unit;
  env_resume : nat -> nat
}.

(** ** Constants of the class *)

Definition MAX_PARALLEL_DOWNLOAD : nat := 12.
Definition MESSAGE_LIMIT : Z := 8192.
Definition RATE_LIMIT_DELAY : Z := 1000.
Definition DOWNLOAD_DELAY : Z := 500.
Definition MAX_RETRIES : nat := 3.
Definition BACKOFF_BASE : Z := 1000.

(** ** Observable effects *)

(** The lines the code logs, by their content. *)
Inductive LogLine : Type :=
| LRateLimitWait
| LWaiting (ms : Z) (r : Q)
| LAttemptFailed (attempt : nat) (msg : string)
| LBackingOff (ms : Z)
| LCounting
| LCounted (total media : Z)
| LTotals (total media : Z)
| LCountFailed (msg : string)
| LCompleted
| LProgress (downloaded skipped percentage processed totalMedia remaining
             batchDownloaded batchSkipped : Z)
| LQueuing (id : Z) (position : Z) (eligible : nat)
| LDownloaded (path : string) (total : Z)
| LSkipped (id : Z)
| LProcessing (n : nat)
| LErrorOccurred (e : Error)
| LRateLimited (seconds : Z)
| LMissingArguments
| LNoMedia
| LDownloadError (e : Error).

(** One entry of [all_message.json]. *)
Record LogRecord : Type := {
  rec_id : Z;
  rec_message : string;
  rec_date : Z;
  rec_out : bool;
  rec_hasMedia : bool;
  rec_sender : option Z;
  rec_mediaType : option string;
  rec_mediaPath : option string;
  rec_mediaName : option string
}.

(** What the program does to the outside world, in the order it does it.
    [ETimeout ms r] is [setTimeout(resolve, ms + r * 1000)] inside [wait];
    [EPromiseCreated] and [EPromiseSettled] mark the life of one download
    promise pushed on [downloadQueue]. *)
Inductive Event : Type :=
| ELog (l : LogLine)
| ETimeout (ms : Z) (r : Q)
| EGetMessages (channelId : JsVal) (q : Query) (res : Response (list Message))
| EDownloadMedia (message : Message) (outputFile : string)
| EDownloadMediaDone (outputFile : string) (res : Response unit)
| EWriteFile (file content : string)
| EAppendJSON (file : string) (data : list LogRecord)
| EUpdateLastSelection (messageOffsetId : Z)
| EPromiseCreated (id : nat)
| EPromiseSettled (id : nat) (result : bool).

(** The delay a timer event asks for, in milliseconds. *)
Definition timeoutDelay (ms : Z) (r : Q) : Q := (inject_Z ms + r * 1000)%Q.

(** ** The world *)

(** The fields of a [DownloadChannel] instance. *)
Record Instance : Type := {
  outputFolder : string;
  downloadableFiles : option (gmap string JsVal);
  requestCount : Z;
  lastRequestTime : Z;
  rateLimitHit : bool;
  totalDownloaded : Z;
  totalMessages : Z;
  totalMediaMessages : Z;
  skippedFiles : Z
}.

(** [new DownloadChannel()]; the [null] output folder is the empty string,
    every use of it follows the assignment in [downloadChannel]. *)
Definition constructor : Instance :=
  {| outputFolder := "";
     downloadableFiles := None;
     requestCount := 0;
     lastRequestTime := 0;
     rateLimitHit := false;
     totalDownloaded := 0;
     totalMessages := 0;
     totalMediaMessages := 0;
     skippedFiles := 0 |}.

(** Where a download promise of the current page is suspended. *)
Inductive TaskPc : Type :=
| TCooldown (now : Z)
| TGated
| TDelay
| TDownloading (outputFile : string)
| TReturned (result : bool)
| TSettled (result : bool).

Record Task : Type := { task_msg : Message; task_pc : TaskPc }.

Record World : Type := {
  this : Instance;
  files : gset string;
  exportLog : list (string * list LogRecord);
  messageOffsetId : option Z;
  promises : list Task;
  trace : list Event;
  ticks : nat
}.

Definition initialWorld (o : Instance) : World :=
  {| this := o; files := ∅; exportLog := []; messageOffsetId := None;
     promises := []; trace := []; ticks := 0 |}.

Definition with_this (f : Instance -> Instance) (w : World) : World :=
  {| this := f (this w); files := files w; exportLog := exportLog w;
     messageOffsetId := messageOffsetId w; promises := promises w;
     trace := trace w; ticks := ticks w |}.

Definition with_files (f : gset string -> gset string) (w : World) : World :=
  {| this := this w; files := f (files w); exportLog := exportLog w;
     messageOffsetId := messageOffsetId w; promises := promises w;
     trace := trace w; ticks := ticks w |}.

Definition with_exportLog (f : list (string * list LogRecord) -> list (string * list LogRecord))
    (w : World) : World :=
  {| this := this w; files := files w; exportLog := f (exportLog w);
     messageOffsetId := messageOffsetId w; promises := promises w;
     trace := trace w; ticks := ticks w |}.

Definition with_messageOffsetId (c : option Z) (w : World) : World :=
  {| this := this w; files := files w; exportLog := exportLog w;
     messageOffsetId := c; promises := promises w;
     trace := trace w; ticks := ticks w |}.

Definition with_promises (f : list Task -> list Task) (w : World) : World :=
  {| this := this w; files := files w; exportLog := exportLog w;
     messageOffsetId := messageOffsetId w; promises := f (promises w);
     trace := trace w; ticks := ticks w |}.

Definition with_trace (f : list Event -> list Event) (w : World) : World :=
  {| this := this w; files := files w; exportLog := exportLog w;
     messageOffsetId := messageOffsetId w; promises := promises w;
     trace := f (trace w); ticks := ticks w |}.

Definition with_ticks (f : nat -> nat) (w : World) : World :=
  {| this := this w; files := files w; exportLog := exportLog w;
     messageOffsetId := messageOffsetId w; promises := promises w;
     trace := trace w; ticks := f (ticks w) |}.

Definition set_outputFolder (v : string) (o : Instance) : Instance :=
  {| outputFolder := v; downloadableFiles := downloadableFiles o;
     requestCount := requestCount o; lastRequestTime := lastRequestTime o;
     rateLimitHit := rateLimitHit o; totalDownloaded := totalDownloaded o;
     totalMessages := totalMessages o; totalMediaMessages := totalMediaMessages o;
     skippedFiles := skippedFiles o |}.

Definition set_requestCount (v : Z) (o : Instance) : Instance :=
  {| outputFolder := outputFolder o; downloadableFiles := downloadableFiles o;
     requestCount := v; lastRequestTime := lastRequestTime o;
     rateLimitHit := rateLimitHit o; totalDownloaded := totalDownloaded o;
     totalMessages := totalMessages o; totalMediaMessages := totalMediaMessages o;
     skippedFiles := skippedFiles o |}.

Definition set_lastRequestTime (v : Z) (o : Instance) : Instance :=
  {| outputFolder := outputFolder o; downloadableFiles := downloadableFiles o;
     requestCount := requestCount o; lastRequestTime := v;
     rateLimitHit := rateLimitHit o; totalDownloaded := totalDownloaded o;
     totalMessages := totalMessages o; totalMediaMessages := totalMediaMessages o;
     skippedFiles := skippedFiles o |}.

Definition set_totalDownloaded (v : Z) (o : Instance) : Instance :=
  {| outputFolder := outputFolder o; downloadableFiles := downloadableFiles o;
     requestCount := requestCount o; lastRequestTime := lastRequestTime o;
     rateLimitHit := rateLimitHit o; totalDownloaded := v;
     totalMessages := totalMessages o; totalMediaMessages := totalMediaMessages o;
     skippedFiles := skippedFiles o |}.

Definition set_totals (total media : Z) (o : Instance) : Instance :=
  {| outputFolder := outputFolder o; downloadableFiles := downloadableFiles o;
     requestCount := requestCount o; lastRequestTime := lastRequestTime o;
     rateLimitHit := rateLimitHit o; totalDownloaded := totalDownloaded o;
     totalMessages := total; totalMediaMessages := media;
     skippedFiles := skippedFiles o |}.

Definition set_skippedFiles (v : Z) (o : Instance) : Instance :=
  {| outputFolder := outputFolder o; downloadableFiles := downloadableFiles o;
     requestCount := requestCount o; lastRequestTime := lastRequestTime o;
     rateLimitHit := rateLimitHit o; totalDownloaded := totalDownloaded o;
     totalMessages := totalMessages o; totalMediaMessages := totalMediaMessages o;
     skippedFiles := v |}.

Definition set_downloadableFiles (v : option (gmap string JsVal)) (o : Instance) : Instance :=
  {| outputFolder := outputFolder o; downloadableFiles := v;
     requestCount := requestCount o; lastRequestTime := lastRequestTime o;
     rateLimitHit := rateLimitHit o; totalDownloaded := totalDownloaded o;
     totalMessages := totalMessages o; totalMediaMessages := totalMediaMessages o;
     skippedFiles := skippedFiles o |}.

(** ** The monad of [async] code

    A computation runs from a world to an outcome and a world.  [Throw] is
    a JavaScript exception (a rejected promise once awaited); [OutOfFuel]
    marks a run cut off before the code returned, and carries the world
    reached so far. *)
Inductive Outcome (A : Type) : Type :=
| Ok (a : A)
| Throw (e : Error)
| OutOfFuel.
Arguments Ok {A} a.
Arguments Throw {A} e.
Arguments OutOfFuel {A}.

Definition M (A : Type) : Type := World -> Outcome A * World.

Definition ret {A} (a : A) : M A := fun w => (Ok a, w).

Definition bind {A B} (m : M A) (f : A -> M B) : M B :=
  fun w =>
    match m w with
    | (Ok a, w') => f a w'
    | (Throw e, w') => (Throw e, w')
    | (OutOfFuel, w') => (OutOfFuel, w')
    end.

Definition throw {A} (e : Error) : M A := fun w => (Throw e, w).

Definition outOfFuel {A} : M A := fun w => (OutOfFuel, w).

(** [try { m } catch (e) { h e }] *)
Definition try_catch {A} (m : M A) (h : Error -> M A) : M A :=
  fun w =>
    match m w with
    | (Throw e, w') => h e w'
    | r => r
    end.

Definition gets {A} (f : World -> A) : M A := fun w => (Ok (f w), w).

Definition modify (f : World -> World) : M unit := fun w => (Ok tt, f w).

Notation "'let*' x ':=' c1 'in' c2" := (bind c1 (fun x => c2))
  (at level 10, x name, c1 at level 100, c2 at level 200).
Notation "'let*' ( x , y ) ':=' c1 'in' c2" := (bind c1 (fun '(x, y) => c2))
  (at level 10, x name, y name, c1 at level 100, c2 at level 200).
Notation "c1 ';;;' c2" := (bind c1 (fun _ => c2))
  (at level 100, c2 at level 200, right associativity).

Definition emit (e : Event) : M unit := modify (with_trace (fun tr => tr ++ [e])).

Definition log (l : LogLine) : M unit := emit (ELog l).

Definition isSome {A} (o : option A) : bool :=
  match o with Some _ => true | None => false end.

Definition hasMedia (message : Message) : bool := isSome (msg_media message).

(** [messages[messages.length - 1].id] *)
Definition lastId (messages : list Message) : Z :=
  msg_id (List.last messages {| msg_id := 0; msg_message := ""; msg_date := 0;
                                msg_out := false; msg_media := None;
                                msg_fromUserId := None; msg_peerUserId := None |}).

(** [err.message.match(/\d+/)?.[0] || "300"], parsed, times 1000. *)
Definition floodWaitTime (msg : string) : Z :=
  parseInt (match matchDigits msg with
            | Some digits => digits
            | None => "300"
            end) * 1000.

(** The test of the flood branch:
    [err.message && err.message.includes("FLOOD_WAIT")]. *)
Definition isFloodWait (err : Error) : bool :=
  negb (String.eqb (err_message err) "") && includes "FLOOD_WAIT" (err_message err).

Section Model.

Variable H : Helpers.
Variable E : Env.

(** *** Primitives answered by the environment *)

Definition tick : M nat :=
  fun w => (Ok (ticks w), with_ticks S w).

Definition dateNow : M Z := let* k := tick in ret (env_now E k).

Definition mathRandom : M Q := let* k := tick in ret (env_random E k).

Definition setTimeout (ms : Z) (r : Q) : M unit := emit (ETimeout ms r).

Definition clientGetMessages (channelId : JsVal) (q : Query) : M (list Message) :=
  let* k := tick in
  let res := env_getMessages E k channelId q in
  emit (EGetMessages channelId q res) ;;;
  match res with
  | Resolved messages => ret messages
  | Rejected e => throw e
  end.

(** The part of [client.downloadMedia] that runs after the call was
    issued: the promise resolves, and the bytes are at [outputFile], or it
    rejects. *)
Definition awaitDownloadMedia (message : Message) (outputFile : string) : M unit :=
  let* k := tick in
  let res := env_downloadMedia E k message outputFile in
  emit (EDownloadMediaDone outputFile res) ;;;
  match res with
  | Resolved _ => modify (with_files (fun fs => {[outputFile]} ∪ fs))
  | Rejected e => throw e
  end.

Definition clientDownloadMedia (message : Message) (outputFile : string) : M unit :=
  emit (EDownloadMedia message outputFile) ;;;
  awaitDownloadMedia message outputFile.

Definition writeFileSync (file content : string) : M unit :=
  let* k := tick in
  match env_writeFile E k file content with
  | Resolved _ =>
      modify (with_files (fun fs => {[file]} ∪ fs)) ;;;
      emit (EWriteFile file content)
  | Rejected e => throw e
  end.

(** Modelled from the spec: [appendToJSONArrayFile] of [../utils/helper]
    is not in the source file; it appends the records to the cumulative
    JSON-array log at [file], and may fail as any file operation. *)
Definition appendToJSONArrayFile (file : string) (data : list LogRecord) : M unit :=
  let* k := tick in
  match env_appendFile E k file with
  | Resolved _ =>
      modify (with_exportLog (fun l => l ++ [(file, data)])) ;;;
      emit (EAppendJSON file data)
  | Rejected e => throw e
  end.

(** Modelled from the spec: [updateLastSelection] of
    [../utils/file-helper] is not in the source file; it saves the given
    fields of the durable selection record. *)
Definition updateLastSelection (offsetId : Z) : M unit :=
  let* k := tick in
  match env_saveSelection E k with
  | Resolved _ =>
      modify (with_messageOffsetId (Some offsetId)) ;;;
      emit (EUpdateLastSelection offsetId)
  | Rejected e => throw e
  end.

(** Modelled from the spec: [checkFileExist] of [../utils/helper] is not
    in the source file; it tests whether a file exists at the target path
    derived for the message. *)
Definition checkFileExist (message : Message) (folder : string) (w : World) : bool :=
  bool_decide (getMediaPath H message folder ∈ files w).

(** *** The public message operations *)

Definition getMessages (client : option Client) (channelId : JsVal)
    (limit offsetId : Z) : M (list Message) :=
  if negb (isSome client) || negb (truthy channelId) then
    throw (newError "Client and channelId are required")
  else
    try_catch
      (clientGetMessages channelId (QHistory limit offsetId))
      (fun error =>
         throw (newError ("Failed to get messages: " +:+ err_message error))).

Definition getMessageDetail (client : option Client) (channelId : JsVal)
    (messageIds : option (list Z)) : M (list Message) :=
  match client, truthy channelId, messageIds with
  | Some _, true, Some ids =>
      try_catch
        (clientGetMessages channelId (QByIds ids))
        (fun error =>
           throw (newError ("Failed to get message details: " +:+ err_message error)))
  | _, _, _ => throw (newError "Client, channelId, and messageIds are required")
  end.

(** The synchronous statements of [downloadMessageMedia] between the
    argument check and the call of [client.downloadMedia]: the sidecar
    files of a web page or a poll, and the redirected target path. *)
Definition writeSidecars (message : Message) (media : Media) (mediaPath : string)
    : M string :=
  let* mediaPath :=
    match media_webpage media with
    | Some webpage =>
        (if negb (String.eqb (wp_url webpage) "") then
           writeFileSync
             (path_join H mediaPath ("../" +:+ pretty (msg_id message) +:+ "_url.txt"))
             (wp_url webpage)
         else ret tt) ;;;
        ret (path_join H mediaPath ("../" +:+ pretty (wp_id webpage) +:+ "_image.jpeg"))
    | None => ret mediaPath
    end in
  match media_poll media with
  | Some poll =>
      writeFileSync
        (path_join H mediaPath ("../" +:+ pretty (msg_id message) +:+ "_poll.json"))
        (circularStringify H poll) ;;;
      ret mediaPath
  | None => ret mediaPath
  end.

Definition missingArguments (client : option Client) (message : option Message)
    (mediaPath : option string) : bool :=
  negb (isSome client) || negb (isSome message) ||
  match mediaPath with
  | Some p => String.eqb p ""
  | None => true
  end.

Definition downloadMessageMedia (client : option Client) (message : option Message)
    (mediaPath : option string) : M bool :=
  try_catch
    (match client, message, mediaPath with
     | Some _, Some msg, Some path =>
         if String.eqb path "" then log LMissingArguments ;;; ret false
         else
           match msg_media msg with
           | Some media =>
               let* outputFile := writeSidecars msg media path in
               clientDownloadMedia msg outputFile ;;;
               ret true
           | None => log LNoMedia ;;; ret false
           end
     | _, _, _ => log LMissingArguments ;;; ret false
     end)
    (fun err => log (LDownloadError err) ;;; ret false).

(** *** Rate limiting, waiting and retrying *)

(** [wait(ms)] *)
Definition wait (ms : Z) : M unit :=
  let* randomDelay := mathRandom in
  log (LWaiting ms randomDelay) ;;;
  setTimeout ms randomDelay.

(** The condition of the cooldown branch of [checkRateLimit]. *)
Definition tooManyRequests (o : Instance) (now : Z) : bool :=
  (10 <? requestCount o) && (now - lastRequestTime o <? 60000).

Definition recordRequest (now : Z) : M unit :=
  modify (with_this (set_lastRequestTime now)) ;;;
  modify (with_this (fun o => set_requestCount (requestCount o + 1) o)).

Definition checkRateLimit : M unit :=
  let* now := dateNow in
  let* o := gets this in
  (if tooManyRequests o now then
     log LRateLimitWait ;;;
     wait 60000 ;;;
     modify (with_this (set_requestCount 0))
   else ret tt) ;;;
  recordRequest now.

(** [BACKOFF_BASE * Math.pow(2, i)] *)
Definition backoffDelay (i : nat) : Z := BACKOFF_BASE * 2 ^ Z.of_nat i.

(** The loop of [retryWithBackoff]: [i] is the loop variable, [remaining]
    the number of iterations left ([retries - i]).  Leaving the loop
    returns [undefined]. *)
Fixpoint retryLoop {A} (fn : M A) (retries i remaining : nat) : M (option A) :=
  match remaining with
  | O => ret None
  | S remaining' =>
      try_catch
        (checkRateLimit ;;;
         let* result := fn in
         ret (Some result))
        (fun error =>
           log (LAttemptFailed (i + 1) (err_message error)) ;;;
           if (i =? retries - 1)%nat then throw error
           else
             let backoffDelay := backoffDelay i in
             log (LBackingOff backoffDelay) ;;;
             wait backoffDelay ;;;
             retryLoop fn retries (S i) remaining')
  end.

Definition retryWithBackoff {A} (fn : M A) (retries : nat) : M (option A) :=
  retryLoop fn retries 0 retries.

(** *** Methods of [DownloadChannel] *)

(** [path.extname(mediaPath).toLowerCase().replace(".", "")] *)
Definition extensionOf (mediaPath : string) : string :=
  removeFirstDot (toLowerCase (path_extname H mediaPath)).

(** The value of [allowed] in [canDownload]. *)
Definition allowedBy (files : option (gmap string JsVal)) (mediaType extension : string)
    : JsVal :=
  js_or (js_or (js_get files mediaType) (js_get files extension)) (js_get files "all").

Definition canDownload (w : World) (message : Message) : JsVal :=
  if negb (hasMedia message) then JBool false
  else
    let mediaType := getMediaType H message in
    let mediaPath := getMediaPath H message (outputFolder (this w)) in
    let fileExists := checkFileExist message (outputFolder (this w)) w in
    let extension := extensionOf mediaPath in
    let allowed := allowedBy (downloadableFiles (this w)) mediaType extension in
    js_and allowed (JBool (negb fileExists)).

(** [msg.fromId?.userId || msg.peerId?.userId] *)
Definition senderOf (msg : Message) : option Z :=
  match msg_fromUserId msg with
  | Some u => if u =? 0 then msg_peerUserId msg else Some u
  | None => msg_peerUserId msg
  end.

Definition toRecord (o : Instance) (msg : Message) : LogRecord :=
  {| rec_id := msg_id msg;
     rec_message := msg_message msg;
     rec_date := msg_date msg;
     rec_out := msg_out msg;
     rec_hasMedia := isSome (msg_media msg);
     rec_sender := senderOf msg;
     rec_mediaType := if hasMedia msg then Some (getMediaType H msg) else None;
     rec_mediaPath :=
       if hasMedia msg then Some (getMediaPath H msg (outputFolder o)) else None;
     rec_mediaName :=
       if hasMedia msg
       then Some (path_basename H (getMediaPath H msg (outputFolder o)))
       else None |}.

(** [recordMessages(messages)]; creating the output directory leaves the
    set of files as it is. *)
Definition recordMessages (messages : list Message) : M unit :=
  let* o := gets this in
  let filePath := path_join H (outputFolder o) "all_message.json" in
  appendToJSONArrayFile filePath (map (toRecord o) messages).

(** [Math.round((processed / totalMedia) * 100)] on non-negative counts. *)
Definition progressPercentage (processed totalMedia : Z) : Z :=
  if 0 <? totalMedia then (200 * processed + totalMedia) / (2 * totalMedia) else 0.

Definition showProgress (currentBatchDownloaded currentBatchSkipped : Z) : M unit :=
  let* o := gets this in
  let totalProcessed := totalDownloaded o + skippedFiles o in
  log (LProgress (totalDownloaded o) (skippedFiles o)
         (progressPercentage totalProcessed (totalMediaMessages o))
         totalProcessed (totalMediaMessages o)
         (Z.max 0 (totalMediaMessages o - totalProcessed))
         currentBatchDownloaded currentBatchSkipped).

Definition countMedia (messages : list Message) : Z :=
  Z.of_nat (length (List.filter hasMedia messages)).

(** The [while (true)] loop of [countTotalMessages]. *)
Fixpoint countLoop (fuel : nat) (client : option Client) (channelId : JsVal)
    (totalCount mediaCount offsetId : Z) : M (Z * Z) :=
  match fuel with
  | O => outOfFuel
  | S fuel' =>
      let* messages :=
        retryWithBackoff (getMessages client channelId 100 offsetId) MAX_RETRIES in
      match messages with
      | None => throw (typeError "Cannot read properties of undefined (reading 'length')")
      | Some [] => ret (totalCount, mediaCount)
      | Some messages =>
          let totalCount := totalCount + Z.of_nat (length messages) in
          let mediaCount := mediaCount + countMedia messages in
          log (LCounted totalCount mediaCount) ;;;
          wait 1000 ;;;
          countLoop fuel' client channelId totalCount mediaCount (lastId messages)
      end
  end.

Definition countTotalMessages (fuel : nat) (client : option Client) (channelId : JsVal)
    : M unit :=
  try_catch
    (log LCounting ;;;
     let* (totalCount, mediaCount) := countLoop fuel client channelId 0 0 0 in
     modify (with_this (set_totals totalCount mediaCount)) ;;;
     log (LTotals totalCount mediaCount))
    (fun err =>
       log (LCountFailed (err_message err)) ;;;
       modify (with_this (set_totals 0 0))).

(** *** Download promises

    [downloadQueue.push(this.retryWithBackoff(async () => ...))] starts a
    promise that runs concurrently with the loop.  JavaScript runs one
    continuation at a time: a promise advances from one [await] to the
    next without interruption, and only while the main function is itself
    suspended in [await Promise.all(downloadQueue)].  A promise is
    therefore a small state machine over the [await]s of its body
    ([TaskPc]), and the event loop resumes the unsettled promises of the
    queue in an order chosen by the environment.

    The body of a download promise cannot throw: [wait] and
    [checkRateLimit] do not, [downloadMessageMedia] catches everything,
    and the path helper is a function.  The [catch] of the enclosing
    [retryWithBackoff] is thus never entered, and the promise is its first
    attempt. *)

(** The local variables of one call of [downloadChannel]. *)
Record Locals : Type := {
  downloadQueue : list nat;
  currentBatchDownloaded : Z;
  currentBatchSkipped : Z
}.

Definition setPc (id : nat) (pc : TaskPc) : M unit :=
  modify (with_promises
            (alter (fun t => {| task_msg := task_msg t; task_pc := pc |}) id)).

(** [downloadMessageMedia] up to the call of [client.downloadMedia]:
    [inl result] when it returned before the call, [inr outputFile] when
    the call was issued and is awaited. *)
Definition downloadMessageMedia_begin (client : option Client)
    (message : option Message) (mediaPath : option string) : M (bool + string) :=
  try_catch
    (match client, message, mediaPath with
     | Some _, Some msg, Some path =>
         if String.eqb path "" then log LMissingArguments ;;; ret (inl false)
         else
           match msg_media msg with
           | Some media =>
               let* outputFile := writeSidecars msg media path in
               emit (EDownloadMedia msg outputFile) ;;;
               ret (inr outputFile)
           | None => log LNoMedia ;;; ret (inl false)
           end
     | _, _, _ => log LMissingArguments ;;; ret (inl false)
     end)
    (fun err => log (LDownloadError err) ;;; ret (inl false)).

(** [downloadMessageMedia] from the resumption of that [await] on. *)
Definition downloadMessageMedia_end (msg : Message) (outputFile : string) : M bool :=
  try_catch
    (awaitDownloadMedia msg outputFile ;;; ret true)
    (fun err => log (LDownloadError err) ;;; ret false).

(** Creating the promise runs its body up to the first [await] that
    suspends: the test of [checkRateLimit], and either the start of the
    cooldown timer or the recording of the request. *)
Definition startDownload (msg : Message) : M nat :=
  let* id := gets (fun w => length (promises w)) in
  emit (EPromiseCreated id) ;;;
  let* now := dateNow in
  let* o := gets this in
  (if tooManyRequests o now then
     log LRateLimitWait ;;;
     wait 60000 ;;;
     modify (with_promises
               (fun ps => ps ++ [{| task_msg := msg; task_pc := TCooldown now |}]))
   else
     recordRequest now ;;;
     modify (with_promises
               (fun ps => ps ++ [{| task_msg := msg; task_pc := TGated |}]))) ;;;
  ret id.

(** Resuming promise [id] runs it to its next [await], or to its end. *)
Definition resumeDownload (client : option Client) (id : nat) (loc : Locals)
    : M Locals :=
  let* t := gets (fun w => promises w !! id) in
  match t with
  | None => ret loc
  | Some task =>
      let msg := task_msg task in
      match task_pc task with
      | TCooldown now =>
          modify (with_this (set_requestCount 0)) ;;;
          recordRequest now ;;;
          setPc id TGated ;;;
          ret loc
      | TGated =>
          wait DOWNLOAD_DELAY ;;;
          setPc id TDelay ;;;
          ret loc
      | TDelay =>
          let* o := gets this in
          let* r := downloadMessageMedia_begin client (Some msg)
                      (Some (getMediaPath H msg (outputFolder o))) in
          match r with
          | inl result => setPc id (TReturned result)
          | inr outputFile => setPc id (TDownloading outputFile)
          end ;;;
          ret loc
      | TDownloading outputFile =>
          let* result := downloadMessageMedia_end msg outputFile in
          setPc id (TReturned result) ;;;
          ret loc
      | TReturned result =>
          modify (with_this (fun o => set_totalDownloaded (totalDownloaded o + 1) o)) ;;;
          let* o := gets this in
          log (LDownloaded (getMediaPath H msg (outputFolder o)) (totalDownloaded o)) ;;;
          emit (EPromiseSettled id result) ;;;
          setPc id (TSettled result) ;;;
          ret {| downloadQueue := downloadQueue loc;
                 currentBatchDownloaded := currentBatchDownloaded loc + 1;
                 currentBatchSkipped := currentBatchSkipped loc |}
      | TSettled _ => ret loc
      end
  end.

Definition isSettled (t : Task) : bool :=
  match task_pc t with
  | TSettled _ => true
  | _ => false
  end.

Definition isPending (w : World) (id : nat) : bool :=
  match promises w !! id with
  | Some t => negb (isSettled t)
  | None => false
  end.

(** The event loop while the main function awaits the queue: as long as
    a promise of the queue is unsettled, the environment picks one of
    them and it is resumed. *)
Fixpoint eventLoop (fuel : nat) (client : option Client) (queue : list nat)
    (loc : Locals) : M Locals :=
  match fuel with
  | O => outOfFuel
  | S fuel' =>
      let* pending := gets (fun w => List.filter (isPending w) queue) in
      match pending with
      | [] => ret loc
      | id0 :: _ =>
          let* k := tick in
          let id := nth (env_resume E k mod length pending) pending id0 in
          let* loc := resumeDownload client id loc in
          eventLoop fuel' client queue loc
      end
  end.

(** [await Promise.all(downloadQueue)]: a promise settles after at most
    five resumptions, so the fuel given here is never used up. *)
Definition promiseAll (client : option Client) (loc : Locals) : M Locals :=
  eventLoop (5 * length (downloadQueue loc) + 1) client (downloadQueue loc) loc.

(** The first statement of the body of [for (const msg of details)]: an
    eligible message gets a download promise, pushed on the queue; another
    message with media is counted as skipped. *)
Definition queueOrSkip (client : option Client) (details : list Message) (msg : Message)
    (loc : Locals) : M Locals :=
  let* eligible := gets (fun w => canDownload w msg) in
  if truthy eligible then
    let* w := gets (fun w => w) in
    log (LQueuing (msg_id msg) (currentBatchDownloaded loc + 1)
           (length (List.filter (fun m => truthy (canDownload w m)) details))) ;;;
    let* downloadPromise := startDownload msg in
    ret {| downloadQueue := downloadQueue loc ++ [downloadPromise];
           currentBatchDownloaded := currentBatchDownloaded loc;
           currentBatchSkipped := currentBatchSkipped loc |}
  else if hasMedia msg then
    modify (with_this (fun o => set_skippedFiles (skippedFiles o + 1) o)) ;;;
    log (LSkipped (msg_id msg)) ;;;
    ret {| downloadQueue := downloadQueue loc;
           currentBatchDownloaded := currentBatchDownloaded loc;
           currentBatchSkipped := currentBatchSkipped loc + 1 |}
  else ret loc.

(** The second statement of the body: a queue that has reached
    [MAX_PARALLEL_DOWNLOAD] promises is awaited, emptied, and followed by
    the delay between batches. *)
Definition processFullQueue (client : option Client) (loc : Locals) : M Locals :=
  if (MAX_PARALLEL_DOWNLOAD <=? length (downloadQueue loc))%nat then
    log (LProcessing MAX_PARALLEL_DOWNLOAD) ;;;
    let* loc := promiseAll client loc in
    let loc := {| downloadQueue := [];
                  currentBatchDownloaded := currentBatchDownloaded loc;
                  currentBatchSkipped := currentBatchSkipped loc |} in
    wait RATE_LIMIT_DELAY ;;;
    ret loc
  else ret loc.

(** The body of [for (const msg of details)] in [downloadChannel]. *)
Definition forBody (client : option Client) (details : list Message) (msg : Message)
    (loc : Locals) : M Locals :=
  let* loc := queueOrSkip client details msg loc in
  processFullQueue client loc.

Fixpoint forDetails (client : option Client) (details rest : list Message)
    (loc : Locals) : M Locals :=
  match rest with
  | [] => ret loc
  | msg :: rest' =>
      let* loc := forBody client details msg loc in
      forDetails client details rest' loc
  end.

(** The download phase of a page: the [for] loop and the wait for the
    promises left in the queue after it. *)
Definition runDownloads (client : option Client) (details : list Message) : M Locals :=
  let loc := {| downloadQueue := [];
                currentBatchDownloaded := 0;
                currentBatchSkipped := 0 |} in
  let* loc := forDetails client details details loc in
  if (0 <? length (downloadQueue loc))%nat then
    log (LProcessing (length (downloadQueue loc))) ;;;
    promiseAll client loc
  else ret loc.

(** Everything [downloadChannel] does with a non-empty page before it
    recurses: details, downloads, export log, cursor, report, delay. *)
Definition processPage (client : option Client) (channelId : JsVal)
    (messages : list Message) : M unit :=
  let ids := map msg_id messages in
  let* details :=
    retryWithBackoff (getMessageDetail client channelId (Some ids)) MAX_RETRIES in
  match details with
  | None => throw (typeError "details is not iterable")
  | Some details =>
      let* loc := runDownloads client details in
      recordMessages details ;;;
      updateLastSelection (lastId messages) ;;;
      showProgress (currentBatchDownloaded loc) (currentBatchSkipped loc) ;;;
      wait RATE_LIMIT_DELAY
  end.

(** The statements of the [try] block up to the page fetch. *)
Definition fetchPage (fuel : nat) (client : option Client) (channelId : JsVal)
    (offsetMsgId : Z) : M (option (list Message)) :=
  match js_toString channelId with
  | None => throw (typeError "Cannot read properties of undefined (reading 'toString')")
  | Some name =>
      modify (with_this
                (set_outputFolder
                   (path_join H (path_join H (process_cwd H) "export") name))) ;;;
      (if offsetMsgId =? 0 then countTotalMessages fuel client channelId else ret tt) ;;;
      retryWithBackoff (getMessages client channelId MESSAGE_LIMIT offsetMsgId)
        MAX_RETRIES
  end.

(** The [try] block of [downloadChannel]; [next] is the call of
    [downloadChannel] for the following page. *)
Definition tryBlock (next : Z -> M unit) (fuel : nat) (client : option Client)
    (channelId : JsVal) (offsetMsgId : Z) : M unit :=
  let* messages := fetchPage fuel client channelId offsetMsgId in
  match messages with
  | None => throw (typeError "Cannot read properties of undefined (reading 'length')")
  | Some [] =>
      log LCompleted ;;;
      showProgress 0 0
  | Some messages =>
      processPage client channelId messages ;;;
      next (lastId messages)
  end.

(** The [catch] block of [downloadChannel]; [again] is the call of
    [downloadChannel] with the arguments of the current call. *)
Definition catchBlock (again : M unit) (err : Error) : M unit :=
  log (LErrorOccurred err) ;;;
  if isFloodWait err then
    let waitTime := floodWaitTime (err_message err) in
    log (LRateLimited (waitTime / 1000)) ;;;
    wait waitTime ;;;
    again
  else throw err.

(** [downloadChannel(client, channelId, offsetMsgId)].  The function calls
    itself for the next page and after a flood wait; [fuel] bounds the
    depth of these calls and the iterations of the counting loop. *)
Fixpoint downloadChannel (fuel : nat) (client : option Client) (channelId : JsVal)
    (offsetMsgId : Z) : M unit :=
  match fuel with
  | O => outOfFuel
  | S fuel' =>
      try_catch
        (tryBlock (downloadChannel fuel' client channelId) fuel' client channelId
           offsetMsgId)
        (catchBlock (downloadChannel fuel' client channelId offsetMsgId))
  end.

End Model.

(** ** Reading a trace

    The properties of the scheduler are properties of the order of events.
    [sched tr] is the state of the download queue after the events of
    [tr]: the promises in flight (created and not settled), whether the
    current batch has begun to settle, how many promises the batch had,
    and whether the delay that follows a full batch is still due. *)

Record Sched : Type := {
  inFlight : list nat;
  draining : bool;
  batch : nat;
  owesDelay : bool
}.

Definition schedInit : Sched :=
  {| inFlight := []; draining := false; batch := 0; owesDelay := false |}.

Definition isNil {A} (l : list A) : bool :=
  match l with [] => true | _ => false end.

Definition schedStep (s : Sched) (e : Event) : Sched :=
  match e with
  | EPromiseCreated id =>
      {| inFlight := inFlight s ++ [id]; draining := draining s;
         batch := S (batch s); owesDelay := owesDelay s |}
  | EPromiseSettled id _ =>
      let rest := List.filter (fun j => negb (j =? id)%nat) (inFlight s) in
      {| inFlight := rest;
         draining := negb (isNil rest);
         batch := if isNil rest then O else batch s;
         owesDelay := isNil rest && (MAX_PARALLEL_DOWNLOAD <=? batch s)%nat |}
  | ETimeout ms _ =>
      if (ms =? RATE_LIMIT_DELAY) && isNil (inFlight s) then
        {| inFlight := inFlight s; draining := draining s;
           batch := batch s; owesDelay := false |}
      else s
  | _ => s
  end.

Definition sched (tr : list Event) : Sched := fold_left schedStep tr schedInit.

(** The id of the last message of the page most recently fetched for
    downloading (a history request of [MESSAGE_LIMIT] messages). *)
Definition pageStep (page : option Z) (e : Event) : option Z :=
  match e with
  | EGetMessages _ (QHistory limit _) (Resolved messages) =>
      if limit =? MESSAGE_LIMIT then
        match messages with
        | [] => None
        | _ => Some (lastId messages)
        end
      else page
  | _ => page
  end.

Definition lastPage (tr : list Event) : option Z := fold_left pageStep tr None.

(** [Always phi tr]: every event of [tr] satisfies [phi] in the context of
    the events before it. *)
Definition Always (phi : list Event -> Event -> Prop) (tr : list Event) : Prop :=
  forall p e q, tr = p ++ e :: q -> phi p e.

(** The batch discipline of the download queue.  A promise is created
    only while fewer than [MAX_PARALLEL_DOWNLOAD] are in flight, none of the
    promises in flight has begun a batch that is settling, and the delay
    after a full batch has been served; a promise settles once, after it
    was created. *)
Definition queueRule (p : list Event) (e : Event) : Prop :=
  match e with
  | EPromiseCreated id =>
      (length (inFlight (sched p)) < MAX_PARALLEL_DOWNLOAD)%nat /\
      draining (sched p) = false /\
      owesDelay (sched p) = false /\
      ~ In id (inFlight (sched p))
  | EPromiseSettled id _ => In id (inFlight (sched p))
  | _ => True
  end.

(** The resumption discipline: the export log is appended to and the
    cursor is saved only when no promise is in flight, and the cursor saved
    is the last id of the page fetched last. *)
Definition persistedSafely (p : list Event) (e : Event) : Prop :=
  match e with
  | EAppendJSON _ _ => inFlight (sched p) = []
  | EUpdateLastSelection c => inFlight (sched p) = [] /\ lastPage p = Some c
  | _ => True
  end.

Definition isCreated (e : Event) : bool :=
  match e with EPromiseCreated _ => true | _ => false end.

Definition isSettledWith (result : bool) (e : Event) : bool :=
  match e with EPromiseSettled _ r => Bool.eqb r result | _ => false end.

Definition isDownloadCall (e : Event) : bool :=
  match e with EDownloadMedia _ _ => true | _ => false end.

Definition isPersist (e : Event) : bool :=
  match e with EAppendJSON _ _ | EUpdateLastSelection _ => true | _ => false end.

Definition count (f : Event -> bool) (tr : list Event) : nat :=
  length (List.filter f tr).




(** The number of requests recorded in the [window] milliseconds before
    [now], given the times at which requests were recorded. *)
Definition requestsInWindow (window : Z) (times : list Z) (now : Z) : nat :=
  length (List.filter (fun t => now - t <? window) times).

(** ** Example data *)

Definition photo : Media := {| media_webpage := None; media_poll := None |}.

Definition textMessage (id : Z) : Message :=
  {| msg_id := id; msg_message := "hello"; msg_date := 0; msg_out := false;
     msg_media := None; msg_fromUserId := None; msg_peerUserId := None |}.

Definition photoMessage (id : Z) : Message :=
  {| msg_id := id; msg_message := "picture"; msg_date := 0; msg_out := false;
     msg_media := Some photo; msg_fromUserId := None; msg_peerUserId := None |}.

Fixpoint afterLastDot (acc : string) (s : string) : string :=
  match s with
  | EmptyString => acc
  | String c s' =>
      if Ascii.eqb c "."%char then afterLastDot (String c s') s' else afterLastDot acc s'
  end.

Definition exampleHelpers : Helpers :=
  {| getMediaType := fun m =>
       match msg_media m with
       | Some md =>
           if isSome (media_webpage md) then "webpage"
           else if isSome (media_poll md) then "poll" else "photo"
       | None => "unknown"
       end;
     getMediaPath := fun m folder => folder +:+ "/" +:+ pretty (msg_id m) +:+ "_file.JPG";
     circularStringify := fun poll => poll;
     path_join := fun a b => a +:+ "/" +:+ b;
     path_basename := fun p => p;
     path_extname := afterLastDot "";
     process_cwd := "/app" |}.

Definition half_in_unit : forall k : nat, (0 <= 1 # 2)%Q /\ (1 # 2 < 1)%Q.
Proof. intros _. split; [discriminate | reflexivity]. Qed.

(** A channel whose history is [history], oldest message first; a page
    holds the messages after the cursor.  Downloads fail when
    [failDownload] is set, and every request is rejected with
    [rejectWith] when it is given. *)
Definition channelEnv (history : list Message) (failDownload : bool)
    (rejectWith : option string) (now : nat -> Z) : Env :=
  {| env_now := now;
     env_random := fun _ => (1 # 2)%Q;
     env_random_range := half_in_unit;
     env_getMessages := fun _ _ q =>
       match rejectWith with
       | Some msg => Rejected (newError msg)
       | None =>
           match q with
           | QHistory _ off => Resolved (List.filter (fun m => off <? msg_id m) history)
           | QByIds ids =>
               Resolved (List.filter (fun m => existsb (Z.eqb (msg_id m)) ids) history)
           end
       end;
     env_downloadMedia := fun _ _ _ =>
       if failDownload then Rejected (newError "network") else Resolved tt;
     env_writeFile := fun _ _ _ => Resolved tt;
     env_appendFile := fun _ _ => Resolved tt;
     env_saveSelection := fun _ => Resolved tt;
     env_resume := fun k => k |}.

Definition steadyClock (k : nat) : Z := 1000 * Z.of_nat k.

(** Eleven requests two minutes apart, then one a millisecond later. *)
Definition sparseClock (k : nat) : Z :=
  if (k <? 11)%nat then 120000 * Z.of_nat k else 1200001.

Definition allowing (key : string) (v : JsVal) : Instance :=
  set_downloadableFiles (Some {[ key := v ]}) constructor.

Definition threeMessages : list Message :=
  [textMessage 1; photoMessage 2; textMessage 3].

Definition photos (n : nat) : list Message :=
  map (fun i => photoMessage (Z.of_nat i)) (seq 1 n).

(** [n] calls of [m], one after the other. *)
Fixpoint repeatM (n : nat) (m : M unit) : M unit :=
  match n with
  | O => ret tt
  | S n' => m ;;; repeatM n' m
  end.



(** ** Judgements on computations *)

(** [m] always returns a value: it neither throws nor is cut off. *)
Definition returns {A} (m : M A) : Prop :=
  forall w, exists a, fst (m w) = Ok a.

(** [m] is never cut off for lack of fuel. *)
Definition finite {A} (m : M A) : Prop :=
  forall w, fst (m w) <> OutOfFuel.

(** Every run of [m] takes the world to one related to it by [R]. *)
Definition steps (R : World -> World -> Prop) {A} (m : M A) : Prop :=
  forall w, R w (snd (m w)).

(** [tr'] is [tr] followed by events of the class [N]. *)
Definition extends (N : Event -> bool) (tr tr' : list Event) : Prop :=
  exists evs, tr' = tr ++ evs /\ forallb N evs = true.

(** What a computation that emits only events of class [N] leaves as it
    is: the promises, the export log, the saved cursor, the download and
    skip counters, the allow-set, and (when [keepFiles]) the files. *)
Record sameBut (keepFiles : bool) (N : Event -> bool) (w w' : World) : Prop := {
  kept_trace : extends N (trace w) (trace w');
  kept_promises : promises w' = promises w;
  kept_exportLog : exportLog w' = exportLog w;
  kept_cursor : messageOffsetId w' = messageOffsetId w;
  kept_files : keepFiles = true -> files w' = files w;
  kept_downloaded : totalDownloaded (this w') = totalDownloaded (this w);
  kept_skipped : skippedFiles (this w') = skippedFiles (this w);
  kept_allow : downloadableFiles (this w') = downloadableFiles (this w)
}.

(** Instance updates that touch none of the fields [sameBut] keeps. *)
Definition keepsCounters (f : Instance -> Instance) : Prop :=
  forall o,
    totalDownloaded (f o) = totalDownloaded o /\
    skippedFiles (f o) = skippedFiles o /\
    downloadableFiles (f o) = downloadableFiles o.

(** Classes of events. *)

(** Logging, timers and requests for messages: what the code emits
    outside the download phase and the two persistence steps. *)
Definition calmE (e : Event) : bool :=
  match e with
  | ELog _ | ETimeout _ _ | EGetMessages _ _ _ => true
  | _ => false
  end.

(** The calm events that do not fetch a page for downloading. *)
Definition keepE (e : Event) : bool :=
  match e with
  | ELog _ | ETimeout _ _ => true
  | EGetMessages _ (QByIds _) _ => true
  | EGetMessages _ (QHistory limit _) _ => negb (limit =? MESSAGE_LIMIT)
  | _ => false
  end.

(** What a download promise emits between its creation and its
    settlement. *)
Definition neutralE (e : Event) : bool :=
  match e with
  | ELog _ | EDownloadMedia _ _ | EDownloadMediaDone _ _ | EWriteFile _ _ => true
  | ETimeout ms _ => negb (ms =? RATE_LIMIT_DELAY)
  | _ => false
  end.

(** The steps a promise still has to take before it is settled. *)
Definition rank (pc : TaskPc) : nat :=
  match pc with
  | TCooldown _ => 5
  | TGated => 4
  | TDelay => 3
  | TDownloading _ => 2
  | TReturned _ => 1
  | TSettled _ => 0
  end.

Definition rankOf (w : World) (id : nat) : nat :=
  match promises w !! id with
  | Some t => rank (task_pc t)
  | None => 0
  end.

Definition totalRank (w : World) (queue : list nat) : nat :=
  list_sum (map (rankOf w) queue).

Ltac run_as m a e w' Heq :=
  destruct m as [[a | e | ] w'] eqn:Heq.

(** ** Invariants used in the proofs *)

(** The queue at rest: nothing in flight, no batch open. *)
Definition resting (s : Sched) : Prop :=
  inFlight s = [] /\ draining s = false /\ batch s = O.

(** What [writeSidecars] emits. *)
Definition sidecarE (e : Event) : bool :=
  match e with
  | ELog _ | EWriteFile _ _ => true
  | _ => false
  end.

(** 1 while promise [id] has not reached the call of
    [client.downloadMedia], 0 afterwards. *)
Definition awaitingCall (w : World) (id : nat) : nat :=
  if (3 <=? rankOf w id)%nat then 1%nat else 0%nat.

(** What resuming promise [id] does: the promise comes closer to its
    settlement and no other promise is touched; either it stays pending and
    the step emits neutral events only, or it settles, which is the last
    event of the step and adds one to both download counters. *)
Record Resumed (id : nat) (w w' : World) (loc loc' : Locals) : Prop := {
  rs_queue : downloadQueue loc' = downloadQueue loc;
  rs_skipped : currentBatchSkipped loc' = currentBatchSkipped loc;
  rs_length : length (promises w') = length (promises w);
  rs_others : forall j, j <> id -> promises w' !! j = promises w !! j;
  rs_rank : (rankOf w' id < rankOf w id)%nat;
  rs_exportLog : exportLog w' = exportLog w;
  rs_cursor : messageOffsetId w' = messageOffsetId w;
  rs_skippedFiles : skippedFiles (this w') = skippedFiles (this w);
  rs_effect :
    exists evs,
      forallb neutralE evs = true /\
      (count isDownloadCall evs + awaitingCall w' id <= awaitingCall w id)%nat /\
      ((isPending w' id = true /\
        trace w' = trace w ++ evs /\
        totalDownloaded (this w') = totalDownloaded (this w) /\
        currentBatchDownloaded loc' = currentBatchDownloaded loc) \/
       (isPending w' id = false /\
        (exists result, trace w' = trace w ++ evs ++ [EPromiseSettled id result]) /\
        totalDownloaded (this w') = totalDownloaded (this w) + 1 /\
        currentBatchDownloaded loc' = currentBatchDownloaded loc + 1))
}.

(** The settlements, whatever their result. *)
Definition isSettledEv (e : Event) : bool :=
  match e with EPromiseSettled _ _ => true | _ => false end.

(** The promises of [l] that have not reached the call of
    [client.downloadMedia]. *)
Definition awaitingCalls (w : World) (l : list nat) : nat :=
  list_sum (map (awaitingCall w) l).

(** What holds throughout the download phase of a page that started in
    the world [w0]: the two disciplines, if they held in [w0]; the page,
    the export log and the
    saved cursor are those of [w0]; and, for the events [evs] emitted since
    [w0], nothing was persisted, the promises created are those settled and
    those in flight, both download counters count the settlements, and
    [client.downloadMedia] was called at most once for every promise. *)
Record Common (w0 w : World) (loc : Locals) : Prop := {
  cm_rule : Always queueRule (trace w0) -> Always queueRule (trace w);
  cm_safe : Always persistedSafely (trace w0) -> Always persistedSafely (trace w);
  cm_page : lastPage (trace w) = lastPage (trace w0);
  cm_exportLog : exportLog w = exportLog w0;
  cm_cursor : messageOffsetId w = messageOffsetId w0;
  cm_nodup : List.NoDup (inFlight (sched (trace w)));
  cm_account :
    exists evs,
      trace w = trace w0 ++ evs /\
      count isPersist evs = O /\
      (count isCreated evs =
       count isSettledEv evs + length (inFlight (sched (trace w))))%nat /\
      currentBatchDownloaded loc = Z.of_nat (count isSettledEv evs) /\
      totalDownloaded (this w) =
        totalDownloaded (this w0) + Z.of_nat (count isSettledEv evs) /\
      (count isDownloadCall evs + awaitingCalls w (inFlight (sched (trace w)))
       <= count isCreated evs)%nat
}.

(** The queue while the loop fills it. *)
Definition Filling (w : World) (loc : Locals) : Prop :=
  inFlight (sched (trace w)) = downloadQueue loc /\
  draining (sched (trace w)) = false /\
  owesDelay (sched (trace w)) = false /\
  batch (sched (trace w)) = length (downloadQueue loc) /\
  Forall (fun id => isPending w id = true) (downloadQueue loc).

(** The queue [Q], of [b] promises, while [Promise.all] awaits it. *)
Definition Draining (w : World) (Q : list nat) (b : nat) : Prop :=
  inFlight (sched (trace w)) = List.filter (isPending w) Q /\
  (inFlight (sched (trace w)) <> [] ->
   batch (sched (trace w)) = b /\ owesDelay (sched (trace w)) = false) /\
  (inFlight (sched (trace w)) = [] ->
   draining (sched (trace w)) = false /\
   batch (sched (trace w)) = O /\
   owesDelay (sched (trace w)) = (MAX_PARALLEL_DOWNLOAD <=? b)%nat).

(** The messages of the page accounted for so far: downloaded, queued or
    skipped. *)
Definition tally (loc : Locals) : Z :=
  currentBatchDownloaded loc + Z.of_nat (length (downloadQueue loc)) +
  currentBatchSkipped loc.

(** What a message adds to the tally. *)
Definition mediaUnit (msg : Message) : Z := if hasMedia msg then 1 else 0.

(** A world in which no download promise is in flight and no batch is
    open or owed its delay. *)
Definition quiescent (w : World) : Prop :=
  resting (sched (trace w)) /\ owesDelay (sched (trace w)) = false.

(** A trace that obeys both disciplines and ends with the queue at rest
    and no delay owed. *)
Definition Safe (tr : list Event) : Prop :=
  Always queueRule tr /\
  Always persistedSafely tr /\
  resting (sched tr) /\
  owesDelay (sched tr) = false.

(** A step that takes a safe trace to a safe trace. *)
Definition safely (w w' : World) : Prop := Safe (trace w) -> Safe (trace w').

(** The page a history request for downloading delivers to [lastPage]. *)
Definition pageOf (messages : list Message) : option Z :=
  match messages with
  | [] => None
  | _ => Some (lastId messages)
  end.

(** What processing the page [messages] to its end leaves behind: first
    the events [before] of the detail request and of the download phase,
    among which nothing is persisted and every promise created has settled;
    then the append of the page's records to the export log, followed at
    once by the saving of the id of the last message of the page; then the
    report and the delay.  The export log has one more entry and the saved
    cursor is that id. *)
Definition pagePersisted (messages : list Message) (w w' : World) : Prop :=
  exists before file data after,
    trace w' =
      trace w ++ before ++
      [EAppendJSON file data; EUpdateLastSelection (lastId messages)] ++ after /\
    count isPersist before = O /\
    count isCreated before = count isSettledEv before /\
    forallb calmE after = true /\
    exportLog w' = exportLog w ++ [(file, data)] /\
    messageOffsetId w' = Some (lastId messages).

(** ** Readers for the further properties *)

(** Where [downloadMessageMedia] has the client write the media: the path
    it was given, or, for a web page, the preview image beside it. *)
Definition mediaTarget (H : Helpers) (media : Media) (mediaPath : string) : string :=
  match media_webpage media with
  | Some webpage =>
      path_join H mediaPath ("../" +:+ pretty (wp_id webpage) +:+ "_image.jpeg")
  | None => mediaPath
  end.

(** The sidecar files [downloadMessageMedia] may write for a message: the
    URL of its web page, and its poll; the poll is placed relative to the
    target, after the redirection. *)
Definition urlSidecar (H : Helpers) (message : Message) (mediaPath : string) : string :=
  path_join H mediaPath ("../" +:+ pretty (msg_id message) +:+ "_url.txt").

Definition pollSidecar (H : Helpers) (message : Message) (media : Media)
    (mediaPath : string) : string :=
  path_join H (mediaTarget H media mediaPath)
    ("../" +:+ pretty (msg_id message) +:+ "_poll.json").

(** The pages the client delivered to the counting loop: the resolved
    history requests of 100 messages, in order. *)
Definition countedPages (tr : list Event) : list (list Message) :=
  flat_map
    (fun e =>
       match e with
       | EGetMessages _ (QHistory limit _) (Resolved messages) =>
           if limit =? 100 then [messages] else []
       | _ => []
       end)
    tr.

(** Log lines and timers: the events that touch neither the client nor
    the file system. *)
Definition quietE (e : Event) : bool :=
  match e with
  | ELog _ | ETimeout _ _ => true
  | _ => false
  end.

(** The line [retryWithBackoff] logs for a failed attempt. *)
Definition isAttemptLine (e : Event) : bool :=
  match e with
  | ELog (LAttemptFailed _ _) => true
  | _ => false
  end.

(** The entries the trace appends to the export log, and the cursor it
    saves last (or [init] when it saves none). *)
Definition appendedEntries (tr : list Event) : list (string * list LogRecord) :=
  flat_map
    (fun e =>
       match e with
       | EAppendJSON file data => [(file, data)]
       | _ => []
       end)
    tr.

Definition cursorStep (c : option Z) (e : Event) : option Z :=
  match e with
  | EUpdateLastSelection id => Some id
  | _ => c
  end.

Definition savedCursor (init : option Z) (tr : list Event) : option Z :=
  fold_left cursorStep tr init.

(** The state of [w'] is that of [w] moved on by the events emitted
    between them: [totalDownloaded] by the settlements, the export log by
    the appends, the cursor by the saves. *)
Definition Coherent (w w' : World) : Prop :=
  exists evs,
    trace w' = trace w ++ evs /\
    totalDownloaded (this w') =
      totalDownloaded (this w) + Z.of_nat (count isSettledEv evs) /\
    exportLog w' = exportLog w ++ appendedEntries evs /\
    messageOffsetId w' = savedCursor (messageOffsetId w) evs.

(** A step that takes a safe trace to a safe trace and moves the state
    on coherently. *)
Definition tracked (w w' : World) : Prop :=
  Safe (trace w) -> Safe (trace w') /\ Coherent w w'.

(** [m] emits only events of the class [N], whatever else it does. *)
Definition emitsOnly (N : Event -> bool) {A} (m : M A) : Prop :=
  steps (fun w w' => extends N (trace w) (trace w')) m.

(** The events of the download phase: everything but a request for
    messages, an append to the export log and the saving of a cursor. *)
Definition localE (e : Event) : bool :=
  match e with
  | EGetMessages _ _ _ | EAppendJSON _ _ | EUpdateLastSelection _ => false
  | _ => true
  end.


(** The cursor a run is at after the events [p]: the one saved last, or
    the offset [start] the run was called with when none was saved. *)
Definition cursorAt (start : Z) (p : list Event) : Z :=
  default start (savedCursor None p).

(** A page is requested at the cursor the run is at. *)
Definition pageRule (start : Z) (p : list Event) (e : Event) : Prop :=
  match e with
  | EGetMessages _ (QHistory limit offsetId) _ =>
      limit = MESSAGE_LIMIT -> offsetId = cursorAt start p
  | _ => True
  end.

(** The events that neither save a cursor nor request a page at another
    offset than [offsetId]. *)
Definition pageE (offsetId : Z) (e : Event) : bool :=
  match e with
  | EUpdateLastSelection _ => false
  | EGetMessages _ (QHistory limit o) _ => negb (limit =? MESSAGE_LIMIT) || (o =? offsetId)
  | _ => true
  end.

(** ** Basic facts *)

Section Monad.

Context {A B : Type}.

Lemma bind_ok (m : M A) (f : A -> M B) w a w1 :
  m w = (Ok a, w1) -> bind m f w = f a w1.
Proof. unfold bind. intros ->. reflexivity. Qed.

Lemma bind_throw (m : M A) (f : A -> M B) w e w1 :
  m w = (Throw e, w1) -> bind m f w = (Throw e, w1).
Proof. unfold bind. intros ->. reflexivity. Qed.

Lemma bind_outOfFuel (m : M A) (f : A -> M B) w w1 :
  m w = (OutOfFuel, w1) -> bind m f w = (OutOfFuel, w1).
Proof. unfold bind. intros ->. reflexivity. Qed.

Lemma try_catch_ok (m : M A) h w a w1 :
  m w = (Ok a, w1) -> try_catch m h w = (Ok a, w1).
Proof. unfold try_catch. intros ->. reflexivity. Qed.

Lemma try_catch_throw (m : M A) h w e w1 :
  m w = (Throw e, w1) -> try_catch m h w = h e w1.
Proof. unfold try_catch. intros ->. reflexivity. Qed.

Lemma try_catch_outOfFuel (m : M A) h w w1 :
  m w = (OutOfFuel, w1) -> try_catch m h w = (OutOfFuel, w1).
Proof. unfold try_catch. intros ->. reflexivity. Qed.

Lemma returns_ret (a : A) : returns (ret a).
Proof. intros w. exists a. reflexivity. Qed.

Lemma returns_bind (m : M A) (f : A -> M B) :
  returns m -> (forall a, returns (f a)) -> returns (bind m f).
Proof.
  intros Hm Hf w. destruct (Hm w) as [a Ha].
  unfold bind. destruct (m w) as [o w1]. simpl in Ha. subst o. apply Hf.
Qed.

Lemma returns_finite (m : M A) : returns m -> finite m.
Proof. intros Hm w. destruct (Hm w) as [a Ha]. rewrite Ha. discriminate. Qed.

Lemma finite_bind (m : M A) (f : A -> M B) :
  finite m -> (forall a, finite (f a)) -> finite (bind m f).
Proof.
  intros Hm Hf w. specialize (Hm w). unfold bind.
  destruct (m w) as [[a | e | ] w1]; simpl in *; [apply Hf | discriminate | congruence].
Qed.

Lemma finite_throw (e : Error) : finite (@throw A e).
Proof. intros w. discriminate. Qed.

Lemma finite_try_catch (m : M A) h :
  finite m -> (forall e, finite (h e)) -> finite (try_catch m h).
Proof.
  intros Hm Hh w. specialize (Hm w). unfold try_catch.
  destruct (m w) as [[a | e | ] w1]; simpl in *; [discriminate | apply Hh | congruence].
Qed.

Lemma returns_try_catch (m : M A) h :
  finite m -> (forall e, returns (h e)) -> returns (try_catch m h).
Proof.
  intros Hm Hh w. specialize (Hm w). unfold try_catch.
  destruct (m w) as [[a | e | ] w1]; simpl in *;
    [exists a; reflexivity | apply Hh | congruence].
Qed.

End Monad.

Lemma returns_gets {A} (f : World -> A) : returns (gets f).
Proof. intros w. eexists. reflexivity. Qed.

Lemma returns_modify f : returns (modify f).
Proof. intros w. eexists. reflexivity. Qed.

Lemma returns_emit e : returns (emit e).
Proof. apply returns_modify. Qed.

Lemma returns_log l : returns (log l).
Proof. apply returns_emit. Qed.

Lemma returns_tick : returns tick.
Proof. intros w. eexists. reflexivity. Qed.

Create HintDb run.

#[global] Hint Resolve returns_ret returns_gets returns_modify returns_emit returns_log
  returns_tick finite_throw : run.

Ltac returns_tac :=
  repeat first
    [ apply returns_bind; [ | intros ? ]
    | apply returns_ret | apply returns_gets | apply returns_modify | apply returns_tick
    | solve [ auto with run ]
    | match goal with |- returns (if ?b then _ else _) => destruct b end
    | match goal with |- returns (match ?x with _ => _ end) => destruct x end ].

Ltac finite_tac :=
  repeat first
    [ apply finite_bind; [ | intros ? ]
    | apply finite_try_catch; [ | intros ? ]
    | apply finite_throw
    | solve [ auto with run ]
    | solve [ apply returns_finite; returns_tac ]
    | match goal with |- finite (if ?b then _ else _) => destruct b end
    | match goal with |- finite (match ?x with _ => _ end) => destruct x end ].

(** Relations followed by every step. *)
Section Steps.

Variable R : World -> World -> Prop.
Hypothesis R_refl : forall w, R w w.
Hypothesis R_trans : forall w1 w2 w3, R w1 w2 -> R w2 w3 -> R w1 w3.

Lemma steps_ret {A} (a : A) : steps R (ret a).
Proof. intros w. apply R_refl. Qed.

Lemma steps_throw {A} e : steps R (@throw A e).
Proof. intros w. apply R_refl. Qed.

Lemma steps_outOfFuel {A} : steps R (@outOfFuel A).
Proof. intros w. apply R_refl. Qed.

Lemma steps_gets {A} (f : World -> A) : steps R (gets f).
Proof. intros w. apply R_refl. Qed.

Lemma steps_bind {A B} (m : M A) (f : A -> M B) :
  steps R m -> (forall a, steps R (f a)) -> steps R (bind m f).
Proof.
  intros Hm Hf w. specialize (Hm w). unfold bind.
  destruct (m w) as [[a | e | ] w1]; simpl in *; auto.
  eapply R_trans; [exact Hm | apply Hf].
Qed.

Lemma steps_try_catch {A} (m : M A) h :
  steps R m -> (forall e, steps R (h e)) -> steps R (try_catch m h).
Proof.
  intros Hm Hh w. specialize (Hm w). unfold try_catch.
  destruct (m w) as [[a | e | ] w1]; simpl in *; auto.
  eapply R_trans; [exact Hm | apply Hh].
Qed.

End Steps.

Lemma extends_refl N tr : extends N tr tr.
Proof. exists []. rewrite app_nil_r. split; reflexivity. Qed.

Lemma extends_trans N tr1 tr2 tr3 :
  extends N tr1 tr2 -> extends N tr2 tr3 -> extends N tr1 tr3.
Proof.
  intros [evs1 [-> H1]] [evs2 [-> H2]]. exists (evs1 ++ evs2).
  rewrite <- app_assoc, forallb_app, H1, H2. split; reflexivity.
Qed.

Lemma extends_weaken (N N' : Event -> bool) tr tr' :
  (forall e, N e = true -> N' e = true) -> extends N tr tr' -> extends N' tr tr'.
Proof.
  intros Hsub [evs [-> Hall]]. exists evs. split; [reflexivity | ].
  rewrite forallb_forall in *. auto.
Qed.

Lemma sameBut_refl kf N w : sameBut kf N w w.
Proof. constructor; auto using extends_refl. Qed.

Lemma sameBut_trans kf N w1 w2 w3 :
  sameBut kf N w1 w2 -> sameBut kf N w2 w3 -> sameBut kf N w1 w3.
Proof.
  intros [T1 P1 L1 C1 F1 D1 S1 A1] [T2 P2 L2 C2 F2 D2 S2 A2].
  constructor; try congruence.
  - eapply extends_trans; eassumption.
  - intros Hk. rewrite F2, F1; auto.
Qed.

Lemma sameBut_weaken kf (N N' : Event -> bool) w w' :
  (forall e, N e = true -> N' e = true) -> sameBut kf N w w' -> sameBut false N' w w'.
Proof.
  intros Hsub [T P L C F D S A]. constructor; auto; [ | discriminate ].
  eapply extends_weaken; eassumption.
Qed.

Section Frames.

Variable H : Helpers.
Variable E : Env.
Variable kf : bool.
Variable N : Event -> bool.
Hypothesis N_log : forall l, N (ELog l) = true.

Lemma sb_ret {A} (a : A) : steps (sameBut kf N) (ret a).
Proof. apply steps_ret, sameBut_refl. Qed.

Lemma sb_throw {A} e : steps (sameBut kf N) (@throw A e).
Proof. apply steps_throw, sameBut_refl. Qed.

Lemma sb_outOfFuel {A} : steps (sameBut kf N) (@outOfFuel A).
Proof. apply steps_outOfFuel, sameBut_refl. Qed.

Lemma sb_gets {A} (f : World -> A) : steps (sameBut kf N) (gets f).
Proof. apply steps_gets, sameBut_refl. Qed.

Lemma sb_bind {A B} (m : M A) (f : A -> M B) :
  steps (sameBut kf N) m -> (forall a, steps (sameBut kf N) (f a)) ->
  steps (sameBut kf N) (bind m f).
Proof. apply steps_bind, sameBut_trans. Qed.

Lemma sb_try_catch {A} (m : M A) h :
  steps (sameBut kf N) m -> (forall e, steps (sameBut kf N) (h e)) ->
  steps (sameBut kf N) (try_catch m h).
Proof. apply steps_try_catch, sameBut_trans. Qed.

Lemma sb_tick : steps (sameBut kf N) tick.
Proof. intros w. simpl. constructor; auto using extends_refl. Qed.

Lemma sb_emit e : N e = true -> steps (sameBut kf N) (emit e).
Proof.
  intros He w. simpl. constructor; auto.
  exists [e]. simpl. rewrite He. auto.
Qed.

Lemma sb_log l : steps (sameBut kf N) (log l).
Proof. apply sb_emit, N_log. Qed.

Lemma sb_this f : keepsCounters f -> steps (sameBut kf N) (modify (with_this f)).
Proof.
  intros Hf w. destruct (Hf (this w)) as (? & ? & ?).
  simpl. constructor; auto using extends_refl.
Qed.

Lemma sb_files f : kf = false -> steps (sameBut kf N) (modify (with_files f)).
Proof.
  intros Hk w. simpl. constructor; auto using extends_refl. congruence.
Qed.

Lemma keeps_requestCount v : keepsCounters (set_requestCount v).
Proof. intros o. auto. Qed.

Lemma keeps_requestCount_incr :
  keepsCounters (fun o => set_requestCount (requestCount o + 1) o).
Proof. intros o. auto. Qed.

Lemma keeps_lastRequestTime v : keepsCounters (set_lastRequestTime v).
Proof. intros o. auto. Qed.

Lemma keeps_totals a b : keepsCounters (set_totals a b).
Proof. intros o. auto. Qed.

Lemma keeps_outputFolder v : keepsCounters (set_outputFolder v).
Proof. intros o. auto. Qed.

Ltac sb_tac :=
  repeat first
    [ apply sb_ret | apply sb_throw | apply sb_outOfFuel | apply sb_gets | apply sb_tick
    | apply sb_log
    | apply sb_this;
      first [ apply keeps_requestCount | apply keeps_requestCount_incr
            | apply keeps_lastRequestTime | apply keeps_totals | apply keeps_outputFolder ]
    | apply sb_emit; solve [ auto ]
    | apply sb_files; assumption
    | apply sb_bind; [ | intros ? ]
    | apply sb_try_catch; [ | intros ? ]
    | match goal with |- steps _ (if ?b then _ else _) => destruct b end
    | match goal with |- steps _ (match ?x with _ => _ end) => destruct x end
    | match goal with |- steps _ (let '(_, _) := ?x in _) => destruct x end
    | progress auto ].

Lemma sb_wait ms :
  (forall r, N (ETimeout ms r) = true) -> steps (sameBut kf N) (wait E ms).
Proof. intros Ht. unfold wait, mathRandom, setTimeout. sb_tac. Qed.

Lemma sb_recordRequest now : steps (sameBut kf N) (recordRequest now).
Proof. unfold recordRequest. sb_tac. Qed.

Lemma sb_checkRateLimit :
  (forall r, N (ETimeout 60000 r) = true) -> steps (sameBut kf N) (checkRateLimit E).
Proof.
  intros Ht. unfold checkRateLimit, dateNow.
  sb_tac; auto using sb_wait, sb_recordRequest.
Qed.

Lemma sb_retryLoop {A} (fn : M A) retries i remaining :
  (forall ms r, N (ETimeout ms r) = true) ->
  steps (sameBut kf N) fn ->
  steps (sameBut kf N) (retryLoop E fn retries i remaining).
Proof.
  intros Ht Hfn. revert i.
  induction remaining as [ | remaining IH]; intros i; simpl.
  - sb_tac.
  - sb_tac; auto using sb_wait, sb_checkRateLimit.
Qed.

Lemma sb_retryWithBackoff {A} (fn : M A) retries :
  (forall ms r, N (ETimeout ms r) = true) ->
  steps (sameBut kf N) fn ->
  steps (sameBut kf N) (retryWithBackoff E fn retries).
Proof. intros. apply sb_retryLoop; auto. Qed.

Lemma sb_clientGetMessages channelId q :
  (forall res, N (EGetMessages channelId q res) = true) ->
  steps (sameBut kf N) (clientGetMessages E channelId q).
Proof. intros Hq. unfold clientGetMessages. sb_tac. Qed.

Lemma sb_getMessages client channelId limit offsetId :
  (forall res, N (EGetMessages channelId (QHistory limit offsetId) res) = true) ->
  steps (sameBut kf N) (getMessages E client channelId limit offsetId).
Proof. intros Hq. unfold getMessages. sb_tac; auto using sb_clientGetMessages. Qed.

Lemma sb_getMessageDetail client channelId ids :
  (forall l res, N (EGetMessages channelId (QByIds l) res) = true) ->
  steps (sameBut kf N) (getMessageDetail E client channelId ids).
Proof. intros Hq. unfold getMessageDetail. sb_tac; auto using sb_clientGetMessages. Qed.

Lemma sb_countLoop fuel client channelId total media offsetId :
  (forall ms r, N (ETimeout ms r) = true) ->
  (forall off res, N (EGetMessages channelId (QHistory 100 off) res) = true) ->
  steps (sameBut kf N) (countLoop E fuel client channelId total media offsetId).
Proof.
  intros Ht Hq. revert total media offsetId.
  induction fuel as [ | fuel IH]; intros total media offsetId; simpl.
  - sb_tac.
  - sb_tac; auto using sb_wait, sb_retryWithBackoff, sb_getMessages.
Qed.

Lemma sb_countTotalMessages fuel client channelId :
  (forall ms r, N (ETimeout ms r) = true) ->
  (forall off res, N (EGetMessages channelId (QHistory 100 off) res) = true) ->
  steps (sameBut kf N) (countTotalMessages E fuel client channelId).
Proof.
  intros Ht Hq. unfold countTotalMessages.
  sb_tac; auto using sb_countLoop.
Qed.

Lemma sb_showProgress a b : steps (sameBut kf N) (showProgress a b).
Proof. unfold showProgress. sb_tac. Qed.

Lemma sb_fetchPage fuel client channelId offsetMsgId :
  (forall ms r, N (ETimeout ms r) = true) ->
  (forall q res, N (EGetMessages channelId q res) = true) ->
  steps (sameBut kf N) (fetchPage H E fuel client channelId offsetMsgId).
Proof.
  intros Ht Hq. unfold fetchPage.
  sb_tac; auto using sb_countLoop, sb_countTotalMessages, sb_retryWithBackoff, sb_getMessages.
Qed.

Lemma sb_writeFileSync file content :
  kf = false -> (forall f c, N (EWriteFile f c) = true) ->
  steps (sameBut kf N) (writeFileSync E file content).
Proof. intros Hk Hw. unfold writeFileSync. sb_tac; auto using sb_files. Qed.

Lemma sb_writeSidecars msg media path :
  kf = false -> (forall f c, N (EWriteFile f c) = true) ->
  steps (sameBut kf N) (writeSidecars H E msg media path).
Proof. intros Hk Hw. unfold writeSidecars. sb_tac; auto using sb_writeFileSync. Qed.

Lemma sb_downloadMessageMedia_begin client message mediaPath :
  kf = false -> (forall f c, N (EWriteFile f c) = true) ->
  (forall m f, N (EDownloadMedia m f) = true) ->
  steps (sameBut kf N) (downloadMessageMedia_begin H E client message mediaPath).
Proof.
  intros Hk Hw Hd. unfold downloadMessageMedia_begin.
  sb_tac; auto using sb_writeSidecars.
Qed.

Lemma sb_awaitDownloadMedia msg outputFile :
  kf = false -> (forall f res, N (EDownloadMediaDone f res) = true) ->
  steps (sameBut kf N) (awaitDownloadMedia E msg outputFile).
Proof. intros Hk Hd. unfold awaitDownloadMedia. sb_tac; auto using sb_files. Qed.

Lemma sb_downloadMessageMedia_end msg outputFile :
  kf = false -> (forall f res, N (EDownloadMediaDone f res) = true) ->
  steps (sameBut kf N) (downloadMessageMedia_end E msg outputFile).
Proof.
  intros Hk Hd. unfold downloadMessageMedia_end.
  sb_tac; auto using sb_awaitDownloadMedia.
Qed.

End Frames.

(** ** Which computations return *)

Section Outcomes.

Variable H : Helpers.
Variable E : Env.

Lemma returns_wait ms : returns (wait E ms).
Proof. unfold wait, mathRandom, setTimeout. returns_tac. Qed.

Lemma returns_recordRequest now : returns (recordRequest now).
Proof. unfold recordRequest. returns_tac. Qed.

Lemma returns_checkRateLimit : returns (checkRateLimit E).
Proof.
  unfold checkRateLimit, dateNow.
  returns_tac; auto using returns_wait, returns_recordRequest.
Qed.

Lemma returns_showProgress a b : returns (showProgress a b).
Proof. unfold showProgress. returns_tac. Qed.

Lemma finite_clientGetMessages channelId q : finite (clientGetMessages E channelId q).
Proof. unfold clientGetMessages. finite_tac. Qed.

Lemma finite_getMessages client channelId limit offsetId :
  finite (getMessages E client channelId limit offsetId).
Proof. unfold getMessages. finite_tac; auto using finite_clientGetMessages. Qed.

Lemma finite_getMessageDetail client channelId ids :
  finite (getMessageDetail E client channelId ids).
Proof. unfold getMessageDetail. finite_tac; auto using finite_clientGetMessages. Qed.

Lemma finite_retryLoop {A} (fn : M A) retries i remaining :
  finite fn -> finite (retryLoop E fn retries i remaining).
Proof.
  intros Hfn. revert i. induction remaining as [ | remaining IH]; intros i; simpl.
  - finite_tac.
  - apply finite_try_catch.
    + apply finite_bind; [apply returns_finite, returns_checkRateLimit | intros _].
      apply finite_bind; [exact Hfn | intros a]. apply returns_finite, returns_ret.
    + intros e. apply finite_bind; [apply returns_finite, returns_log | intros _].
      destruct (i =? retries - 1)%nat; [apply finite_throw | ].
      apply finite_bind; [apply returns_finite, returns_log | intros _].
      apply finite_bind; [apply returns_finite, returns_wait | intros _].
      apply IH.
Qed.

Lemma finite_writeFileSync file content : finite (writeFileSync E file content).
Proof. unfold writeFileSync. finite_tac. Qed.

Lemma finite_writeSidecars msg media path : finite (writeSidecars H E msg media path).
Proof. unfold writeSidecars. finite_tac; auto using finite_writeFileSync. Qed.

Lemma finite_awaitDownloadMedia msg outputFile : finite (awaitDownloadMedia E msg outputFile).
Proof. unfold awaitDownloadMedia. finite_tac. Qed.

Lemma returns_downloadMessageMedia client message mediaPath :
  returns (downloadMessageMedia H E client message mediaPath).
Proof.
  unfold downloadMessageMedia. apply returns_try_catch.
  - unfold clientDownloadMedia.
    finite_tac; auto using finite_writeSidecars, finite_awaitDownloadMedia.
  - intros e. returns_tac.
Qed.

Lemma returns_downloadMessageMedia_begin client message mediaPath :
  returns (downloadMessageMedia_begin H E client message mediaPath).
Proof.
  unfold downloadMessageMedia_begin. apply returns_try_catch.
  - finite_tac; auto using finite_writeSidecars.
  - intros e. returns_tac.
Qed.

Lemma returns_downloadMessageMedia_end msg outputFile :
  returns (downloadMessageMedia_end E msg outputFile).
Proof.
  unfold downloadMessageMedia_end. apply returns_try_catch.
  - finite_tac; auto using finite_awaitDownloadMedia.
  - intros e. returns_tac.
Qed.

Lemma returns_setPc id pc : returns (setPc id pc).
Proof. apply returns_modify. Qed.

Lemma returns_resumeDownload client id loc :
  returns (resumeDownload H E client id loc).
Proof.
  unfold resumeDownload.
  apply returns_bind; [apply returns_gets | intros [t | ]]; [ | apply returns_ret].
  destruct (task_pc t);
    returns_tac;
    auto using returns_wait, returns_recordRequest, returns_setPc,
      returns_downloadMessageMedia_begin, returns_downloadMessageMedia_end.
Qed.


Lemma eventLoop_no_throw fuel client queue loc w e :
  fst (eventLoop H E fuel client queue loc w) <> Throw e.
Proof.
  revert loc w. induction fuel as [ | fuel IH]; intros loc w; simpl; [discriminate | ].
  unfold bind at 1. simpl.
  destruct (List.filter (isPending w) queue) as [ | id0 pending]; [discriminate | ].
  unfold bind at 1. simpl. unfold bind at 1.
  match goal with |- context [resumeDownload H E client ?i loc ?w1] =>
    destruct (returns_resumeDownload client i loc w1) as [loc' Hloc];
    destruct (resumeDownload H E client i loc w1) as [o w2]
  end.
  simpl in Hloc. subst o. apply IH.
Qed.

End Outcomes.

(** ** The eligibility filter *)





(** ** Missing arguments *)

(** C8, as the code has it: [getMessages] and [getMessageDetail] throw at
    once when a required argument is missing, and [downloadMessageMedia]
    logs an error and returns [false]; in all three cases the client is not
    called and nothing is retried (the world is otherwise as it was). *)
Theorem missing_arguments_fail_fast (H : Helpers) (E : Env)
    (client : option Client) (channelId : JsVal) (limit offsetId : Z)
    (messageIds : option (list Z)) (message : option Message)
    (mediaPath : option string) (w : World) :
  (isSome client = false \/ truthy channelId = false ->
   getMessages E client channelId limit offsetId w =
     (Throw (newError "Client and channelId are required"), w)) /\
  (isSome client = false \/ truthy channelId = false \/ isSome messageIds = false ->
   getMessageDetail E client channelId messageIds w =
     (Throw (newError "Client, channelId, and messageIds are required"), w)) /\
  (missingArguments client message mediaPath = true ->
   downloadMessageMedia H E client message mediaPath w =
     (Ok false, with_trace (fun tr => tr ++ [ELog LMissingArguments]) w)).
Proof.
  split; [ | split].
  - unfold getMessages. intros [Hc | Hc]; rewrite Hc; simpl;
      [reflexivity | rewrite orb_true_r; reflexivity].
  - unfold getMessageDetail.
    intros [Hc | [Hc | Hc]];
      destruct client, (truthy channelId), messageIds; try discriminate; reflexivity.
  - unfold missingArguments, downloadMessageMedia.
    destruct client, message, mediaPath as [path | ]; simpl; try discriminate;
      try reflexivity.
    intros Hp. rewrite Hp. reflexivity.
Qed.

(** The three operations called without a client. *)
Lemma missing_arguments_fail_fast_witness :
  let E := channelEnv threeMessages false None steadyClock in
  let w := initialWorld constructor in
  getMessages E None (JNum 42) 10 0 w =
    (Throw (newError "Client and channelId are required"), w) /\
  getMessageDetail E None (JNum 42) (Some [1]) w =
    (Throw (newError "Client, channelId, and messageIds are required"), w) /\
  downloadMessageMedia exampleHelpers E None (Some (photoMessage 2)) (Some "/tmp/2.jpg") w =
    (Ok false, with_trace (fun tr => tr ++ [ELog LMissingArguments]) w).
Proof.
  cbv zeta.
  destruct (missing_arguments_fail_fast exampleHelpers
              (channelEnv threeMessages false None steadyClock)
              None (JNum 42) 10 0 (Some [1]) (Some (photoMessage 2))
              (Some "/tmp/2.jpg") (initialWorld constructor)) as (H1 & H2 & H3).
  split; [apply H1; left; reflexivity | ].
  split; [apply H2; left; reflexivity | apply H3; reflexivity].
Defined.

(** C8, as stated, fails for [downloadMessageMedia]: called without a
    client it raises nothing and returns [false]. *)
Lemma downloadMessageMedia_missing_client_returns :
  missingArguments None (Some (photoMessage 2)) (Some "/tmp/2.jpg") = true /\
  fst (downloadMessageMedia exampleHelpers
         (channelEnv threeMessages false None steadyClock)
         None (Some (photoMessage 2)) (Some "/tmp/2.jpg") (initialWorld constructor))
  = Ok false.
Proof. split; reflexivity. Qed.

(** ** [downloadMessageMedia] never throws *)

Lemma last_event_unique (tr1 tr2 : list Event) e1 e2 :
  tr1 ++ [e1] = tr2 ++ [e2] -> e1 = e2.
Proof. intros Heq. apply app_inj_tail in Heq. tauto. Qed.

Lemma downloadMessageMedia_last_event (H : Helpers) (E : Env) client message mediaPath w :
  exists b w' tr e,
    downloadMessageMedia H E client message mediaPath w = (Ok b, w') /\
    trace w' = tr ++ [e] /\
    if b then exists f, e = EDownloadMediaDone f (Resolved tt)
    else exists l, e = ELog l.
Proof.
  unfold downloadMessageMedia, try_catch.
  destruct client as [c | ], message as [msg | ], mediaPath as [path | ]; simpl;
    try solve [eexists false, _, (trace w), (ELog LMissingArguments);
               repeat split; eauto].
  destruct (String.eqb path ""); simpl;
    try solve [eexists false, _, (trace w), (ELog LMissingArguments);
               repeat split; eauto].
  destruct (msg_media msg) as [media | ]; simpl;
    try solve [eexists false, _, (trace w), (ELog LNoMedia); repeat split; eauto].
  unfold bind at 1.
  pose proof (finite_writeSidecars H E msg media path w) as Hfin.
  destruct (writeSidecars H E msg media path w) as [[f | e | ] w1]; simpl in *;
    [ | | congruence].
  - unfold clientDownloadMedia, awaitDownloadMedia, bind, emit, modify, tick, ret, throw.
    simpl.
    destruct (env_downloadMedia E (ticks w1) msg f) as [[] | e]; simpl.
    + eexists true, _, (trace w1 ++ [EDownloadMedia msg f]),
        (EDownloadMediaDone f (Resolved tt)). repeat split; eauto.
    + eexists false, _,
        ((trace w1 ++ [EDownloadMedia msg f]) ++ [EDownloadMediaDone f (Rejected e)]),
        (ELog (LDownloadError e)). repeat split; eauto.
  - eexists false, _, (trace w1), (ELog (LDownloadError e)). repeat split; eauto.
Qed.

(** C9: [downloadMessageMedia] returns a boolean for every input and every
    behaviour of the environment; it returns [true] exactly when its last
    act was a resolved [client.downloadMedia], and [false] after logging an
    error otherwise.  As a consequence [Promise.all] over download promises
    never rejects. *)
Theorem downloadMessageMedia_never_throws (H : Helpers) (E : Env)
    (client : option Client) (message : option Message) (mediaPath : option string)
    (w : World) :
  (exists b,
      fst (downloadMessageMedia H E client message mediaPath w) = Ok b /\
      (b = true <->
       exists tr f,
         trace (snd (downloadMessageMedia H E client message mediaPath w)) =
           tr ++ [EDownloadMediaDone f (Resolved tt)]) /\
      (b = false <->
       exists tr l,
         trace (snd (downloadMessageMedia H E client message mediaPath w)) =
           tr ++ [ELog l])) /\
  (forall loc e, fst (promiseAll H E client loc w) <> Throw e).
Proof.
  split.
  - destruct (downloadMessageMedia_last_event H E client message mediaPath w)
      as (b & w' & tr & e & Hrun & Htr & He).
    rewrite Hrun. simpl.
    exists b. split; [reflexivity | ]. rewrite Htr.
    destruct b.
    + destruct He as [f ->]. split; split; intros Hx; try discriminate; eauto.
      destruct Hx as (tr' & l & Hx). apply last_event_unique in Hx. discriminate.
    + destruct He as [l ->]. split; split; intros Hx; try discriminate; eauto.
      destruct Hx as (tr' & f & Hx). apply last_event_unique in Hx. discriminate.
  - intros loc e. apply eventLoop_no_throw.
Qed.

(** ** The rate limiter and [wait] *)

Lemma jitter_bounds (E : Env) (k : nat) (ms : Z) :
  (inject_Z ms <= timeoutDelay ms (env_random E k))%Q /\
  (timeoutDelay ms (env_random E k) < inject_Z ms + 1000)%Q.
Proof.
  destruct (env_random_range E k) as [H0 H1]. unfold timeoutDelay. split; lra.
Qed.

Lemma wait_run (E : Env) (ms : Z) (w : World) :
  let r := env_random E (ticks w) in
  wait E ms w =
    (Ok tt, with_trace (fun tr => (tr ++ [ELog (LWaiting ms r)]) ++ [ETimeout ms r])
              (with_ticks S w)).
Proof. reflexivity. Qed.

Lemma checkRateLimit_run (E : Env) (w : World) :
  let now := env_now E (ticks w) in
  let r := env_random E (S (ticks w)) in
  exists w',
    checkRateLimit E w = (Ok tt, w') /\
    lastRequestTime (this w') = now /\
    trace w' =
      trace w ++
      (if tooManyRequests (this w) now
       then [ELog LRateLimitWait; ELog (LWaiting 60000 r); ETimeout 60000 r]
       else []) /\
    requestCount (this w') =
      (if tooManyRequests (this w) now then 1 else requestCount (this w) + 1).
Proof.
  cbv zeta. unfold checkRateLimit, dateNow, bind, tick, gets, ret. simpl.
  destruct (tooManyRequests (this w) (env_now E (ticks w))); simpl.
  - eexists. split; [reflexivity | ]. simpl.
    rewrite <- !app_assoc. simpl. auto.
  - eexists. split; [reflexivity | ]. simpl. rewrite app_nil_r. auto.
Qed.

(** C6, as the code has it: the gate suspends the caller for 60 seconds
    plus a jitter below one second exactly when more than 10 requests were
    recorded since the counter was last reset and the previous request was
    recorded less than 60 seconds before the call; it then resets the
    counter and records the request, so the counter is 1 on return.  In
    every other case it records the request and returns without delay.  In
    both cases the time of the call becomes the time of the last request. *)
Theorem checkRateLimit_gate (E : Env) (w : World) :
  let now := env_now E (ticks w) in
  let r := env_random E (S (ticks w)) in
  exists w',
    checkRateLimit E w = (Ok tt, w') /\
    lastRequestTime (this w') = now /\
    if (10 <? requestCount (this w)) && (now - lastRequestTime (this w) <? 60000)
    then
      trace w' =
        trace w ++ [ELog LRateLimitWait; ELog (LWaiting 60000 r); ETimeout 60000 r] /\
      (60000 <= timeoutDelay 60000 r)%Q /\
      (timeoutDelay 60000 r < 61000)%Q /\
      requestCount (this w') = 1
    else
      trace w' = trace w /\
      requestCount (this w') = requestCount (this w) + 1.
Proof.
  cbv zeta. destruct (checkRateLimit_run E w) as (w' & Hrun & Hlast & Htrace & Hcount).
  exists w'. split; [exact Hrun | ]. split; [exact Hlast | ].
  unfold tooManyRequests in *.
  destruct ((10 <? requestCount (this w)) &&
            (env_now E (ticks w) - lastRequestTime (this w) <? 60000)).
  - destruct (jitter_bounds E (S (ticks w)) 60000) as [Hlo Hhi].
    repeat split; auto.
  - rewrite app_nil_r in Htrace. auto.
Qed.

(** C6, as stated, fails: eleven requests are recorded two minutes apart,
    none of them delayed; the twelfth call comes one millisecond after the
    eleventh, so a single request lies in the 60 seconds before it, and yet
    the gate suspends the caller; and on return the counter is 1, not 0. *)
Lemma gate_delays_outside_window :
  let E := channelEnv [] false None sparseClock in
  let w := snd (repeatM 11 (checkRateLimit E) (initialWorld constructor)) in
  trace w = [] /\
  env_now E (ticks w) = 1200001 /\
  requestsInWindow 60000 (map sparseClock (seq 0 11)) 1200001 = 1%nat /\
  trace (snd (checkRateLimit E w)) =
    [ELog LRateLimitWait; ELog (LWaiting 60000 (1 # 2)); ETimeout 60000 (1 # 2)] /\
  requestCount (this (snd (checkRateLimit E w))) = 1.
Proof. cbv zeta. repeat split; vm_compute; reflexivity. Qed.

(** ** The retry loop *)





(** ** Facts about traces *)

Lemma sched_app tr evs : sched (tr ++ evs) = fold_left schedStep evs (sched tr).
Proof. unfold sched. apply fold_left_app. Qed.

Lemma sched_snoc tr e : sched (tr ++ [e]) = schedStep (sched tr) e.
Proof. rewrite sched_app. reflexivity. Qed.

Lemma lastPage_app tr evs : lastPage (tr ++ evs) = fold_left pageStep evs (lastPage tr).
Proof. unfold lastPage. apply fold_left_app. Qed.

Lemma lastPage_snoc tr e : lastPage (tr ++ [e]) = pageStep (lastPage tr) e.
Proof. rewrite lastPage_app. reflexivity. Qed.

Lemma count_app f tr evs : count f (tr ++ evs) = (count f tr + count f evs)%nat.
Proof. unfold count. rewrite List.filter_app, List.length_app. reflexivity. Qed.

Lemma count_none f (N : Event -> bool) evs :
  (forall e, N e = true -> f e = false) -> forallb N evs = true -> count f evs = O.
Proof.
  intros Hf. unfold count. induction evs as [ | e evs IH]; simpl; [reflexivity | ].
  intros Hall. apply andb_true_iff in Hall as [He Hall].
  rewrite (Hf e He). auto.
Qed.

Lemma Always_nil phi : Always phi [].
Proof. intros p e q Heq. destruct p; discriminate. Qed.

Lemma Always_snoc phi tr e : Always phi tr -> phi tr e -> Always phi (tr ++ [e]).
Proof.
  intros Htr He p e' q Heq.
  destruct q as [ | e'' q] using rev_ind.
  - apply app_inj_tail in Heq as [-> ->]. exact He.
  - clear IHq. rewrite app_comm_cons, app_assoc in Heq.
    apply app_inj_tail in Heq as [-> _]. eapply Htr. reflexivity.
Qed.

Lemma Always_app phi tr evs :
  Always phi tr ->
  (forall p e q, evs = p ++ e :: q -> phi (tr ++ p) e) ->
  Always phi (tr ++ evs).
Proof.
  intros Htr. induction evs as [ | e evs IH] using rev_ind; intros Hevs.
  - rewrite app_nil_r. exact Htr.
  - rewrite app_assoc. apply Always_snoc.
    + apply IH. intros p e' q Heq. apply (Hevs p e' (q ++ [e])).
      rewrite Heq, <- app_assoc. reflexivity.
    + apply (Hevs evs e []). reflexivity.
Qed.

Lemma Always_prefix phi tr evs : Always phi (tr ++ evs) -> Always phi tr.
Proof.
  intros Hall p e q Heq. apply (Hall p e (q ++ evs)).
  rewrite Heq, <- app_assoc. reflexivity.
Qed.

(** Events on which a rule asks nothing. *)
Lemma Always_free phi (N : Event -> bool) tr evs :
  (forall p e, N e = true -> phi p e) ->
  Always phi tr -> forallb N evs = true -> Always phi (tr ++ evs).
Proof.
  intros Hfree Htr Hall. apply Always_app; [exact Htr | ].
  intros p e q Heq. apply Hfree. rewrite forallb_forall in Hall.
  apply Hall. rewrite Heq. apply in_or_app. right. left. reflexivity.
Qed.

Lemma queueRule_calm p e : calmE e = true -> queueRule p e.
Proof. destruct e; simpl; intros; try discriminate; exact I. Qed.

Lemma queueRule_neutral p e : neutralE e = true -> queueRule p e.
Proof. destruct e; simpl; intros; try discriminate; exact I. Qed.

Lemma persistedSafely_calm p e : calmE e = true -> persistedSafely p e.
Proof. destruct e; simpl; intros; try discriminate; exact I. Qed.

Lemma persistedSafely_neutral p e : neutralE e = true -> persistedSafely p e.
Proof. destruct e; simpl; intros; try discriminate; exact I. Qed.

Lemma keepE_calm e : keepE e = true -> calmE e = true.
Proof. destruct e; simpl; auto. Qed.

Lemma schedStep_neutral s e : neutralE e = true -> schedStep s e = s.
Proof.
  destruct e; simpl; intros He; try discriminate; try reflexivity.
  apply negb_true_iff in He. rewrite He. reflexivity.
Qed.

Lemma sched_neutral tr evs : forallb neutralE evs = true -> sched (tr ++ evs) = sched tr.
Proof.
  rewrite sched_app. generalize (sched tr).
  induction evs as [ | e evs IH]; simpl; intros s Hall; [reflexivity | ].
  apply andb_true_iff in Hall as [He Hall].
  rewrite schedStep_neutral by exact He. auto.
Qed.

Lemma pageStep_neutral page e : neutralE e = true -> pageStep page e = page.
Proof. destruct e; simpl; intros; try discriminate; reflexivity. Qed.

Lemma pageStep_keep page e : keepE e = true -> pageStep page e = page.
Proof.
  destruct e as [ | | ch q res | | | | | | | ]; simpl; intros He;
    try discriminate; try reflexivity.
  destruct q as [limit off | ids]; [ | reflexivity].
  apply negb_true_iff in He. rewrite He. destruct res; reflexivity.
Qed.

Lemma lastPage_keep (N : Event -> bool) tr evs :
  (forall e, N e = true -> forall page, pageStep page e = page) ->
  forallb N evs = true -> lastPage (tr ++ evs) = lastPage tr.
Proof.
  intros HN. rewrite lastPage_app. generalize (lastPage tr).
  induction evs as [ | e evs IH]; simpl; intros page Hall; [reflexivity | ].
  apply andb_true_iff in Hall as [He Hall].
  rewrite (HN e He). auto.
Qed.

Lemma schedStep_calm s e :
  calmE e = true -> resting s ->
  resting (schedStep s e) /\
  (owesDelay s = false -> owesDelay (schedStep s e) = false).
Proof.
  intros He (Hin & Hdr & Hb). unfold resting.
  destruct e; simpl in *; try discriminate; auto.
  destruct ((ms =? RATE_LIMIT_DELAY) && isNil (inFlight s)); simpl; auto.
Qed.

Lemma sched_calm tr evs :
  forallb calmE evs = true -> resting (sched tr) ->
  resting (sched (tr ++ evs)) /\
  (owesDelay (sched tr) = false -> owesDelay (sched (tr ++ evs)) = false).
Proof.
  rewrite sched_app. generalize (sched tr).
  induction evs as [ | e evs IH]; simpl; intros s Hall Hrest; [auto | ].
  apply andb_true_iff in Hall as [He Hall].
  destruct (schedStep_calm s e He Hrest) as [Hrest' Howes].
  destruct (IH _ Hall Hrest') as [Hrest'' Howes'']. auto.
Qed.

(** ** The end of the history *)

(** C7: when the page fetch returns an empty page, [downloadChannel]
    reports and returns: the export log, the saved cursor, the files and
    the download promises are as they were, and it has emitted only log
    lines, timers and requests for messages, the last two events being the
    completion line and the progress report of an empty batch. *)
Theorem empty_page_terminates (H : Helpers) (E : Env) (fuel : nat)
    (client : option Client) (channelId : JsVal) (offsetMsgId : Z) (w w1 : World) :
  fetchPage H E fuel client channelId offsetMsgId w = (Ok (Some []), w1) ->
  exists w2 evs report,
    downloadChannel H E (S fuel) client channelId offsetMsgId w = (Ok tt, w2) /\
    exportLog w2 = exportLog w /\
    messageOffsetId w2 = messageOffsetId w /\
    promises w2 = promises w /\
    files w2 = files w /\
    trace w2 = trace w ++ evs ++ [ELog LCompleted; ELog report] /\
    forallb calmE evs = true /\
    (exists d s pct tp tm rem, report = LProgress d s pct tp tm rem 0 0).
Proof.
  intros Hfetch.
  pose proof (sb_fetchPage H E true calmE (fun _ => eq_refl) fuel client channelId
                offsetMsgId (fun _ _ => eq_refl) (fun _ _ => eq_refl) w) as Hframe.
  rewrite Hfetch in Hframe. simpl in Hframe.
  destruct Hframe as [[evs [Htr Hcalm]] Hp Hl Hc Hf _ _ _].
  eexists _, evs, _. simpl. unfold try_catch, tryBlock.
  rewrite (bind_ok _ _ _ _ _ Hfetch). simpl.
  split; [reflexivity | ]. simpl.
  split; [exact Hl | ]. split; [exact Hc | ]. split; [exact Hp | ].
  split; [auto | ]. split.
  - rewrite Htr, <- !app_assoc. reflexivity.
  - split; [exact Hcalm | ]. do 6 eexists. reflexivity.
Qed.

(** The cursor 3 on a channel whose last message has id 3. *)
Lemma empty_page_terminates_witness :
  let E := channelEnv threeMessages false None steadyClock in
  let w := initialWorld constructor in
  exists w2 evs report,
    downloadChannel exampleHelpers E 3 (Some TelegramClient) (JNum 42) 3 w = (Ok tt, w2) /\
    exportLog w2 = exportLog w /\
    messageOffsetId w2 = messageOffsetId w /\
    promises w2 = promises w /\
    files w2 = files w /\
    trace w2 = trace w ++ evs ++ [ELog LCompleted; ELog report] /\
    forallb calmE evs = true /\
    (exists d s pct tp tm rem, report = LProgress d s pct tp tm rem 0 0).
Proof.
  cbv zeta.
  eapply (empty_page_terminates exampleHelpers
            (channelEnv threeMessages false None steadyClock) 2
            (Some TelegramClient) (JNum 42) 3 (initialWorld constructor)).
  vm_compute. reflexivity.
Defined.

(** ** Flood control *)






Example floodWaitTime_45 :
  floodWaitTime "Failed to get messages: FLOOD_WAIT_45 (caused by GetHistory)" = 45000.
Proof. reflexivity. Qed.

Example floodWaitTime_default :
  floodWaitTime "Failed to get messages: FLOOD_WAIT" = 300000.
Proof. reflexivity. Qed.



(** ** Download promises, step by step *)

(** The two halves in which a promise runs [downloadMessageMedia], before
    and after the [await] of [client.downloadMedia], make up the function:
    suspending there changes nothing in what it does. *)
Lemma downloadMessageMedia_split (H : Helpers) (E : Env) client message mediaPath w :
  downloadMessageMedia H E client message mediaPath w =
  (let* r := downloadMessageMedia_begin H E client message mediaPath in
   match r, message with
   | inl result, _ => ret result
   | inr outputFile, Some msg => downloadMessageMedia_end E msg outputFile
   | inr _, None => ret false
   end) w.
Proof.
  unfold downloadMessageMedia, downloadMessageMedia_begin.
  destruct client as [c | ], message as [msg | ], mediaPath as [path | ];
    try reflexivity.
  destruct (String.eqb path ""); [reflexivity | ].
  destruct (msg_media msg) as [media | ]; [ | reflexivity].
  unfold try_catch, bind.
  destruct (writeSidecars H E msg media path w) as [[outputFile | e | ] w1];
    reflexivity.
Qed.

Lemma sidecar_neutral evs : forallb sidecarE evs = true -> forallb neutralE evs = true.
Proof.
  rewrite !forallb_forall. intros Hall e He. specialize (Hall e He).
  destruct e; try discriminate; reflexivity.
Qed.

Lemma sidecar_no_call evs : forallb sidecarE evs = true -> count isDownloadCall evs = O.
Proof.
  apply count_none. intros e He. destruct e; try discriminate; reflexivity.
Qed.

Lemma downloadMessageMedia_begin_run (H : Helpers) (E : Env) client message mediaPath w :
  exists r w1 evs,
    downloadMessageMedia_begin H E client message mediaPath w = (Ok r, w1) /\
    trace w1 = trace w ++ evs /\
    forallb neutralE evs = true /\
    (count isDownloadCall evs <= 1)%nat /\
    promises w1 = promises w /\
    exportLog w1 = exportLog w /\
    messageOffsetId w1 = messageOffsetId w /\
    totalDownloaded (this w1) = totalDownloaded (this w) /\
    skippedFiles (this w1) = skippedFiles (this w).
Proof.
  unfold downloadMessageMedia_begin, try_catch.
  destruct client as [c | ], message as [msg | ], mediaPath as [path | ]; simpl;
    try solve [eexists _, _, [_]; repeat split; simpl; auto].
  destruct (String.eqb path ""); simpl;
    try solve [eexists _, _, [_]; repeat split; simpl; auto].
  destruct (msg_media msg) as [media | ]; simpl;
    try solve [eexists _, _, [_]; repeat split; simpl; auto].
  unfold bind at 1.
  pose proof (finite_writeSidecars H E msg media path w) as Hfin.
  pose proof (sb_writeSidecars H E false sidecarE msg media path
                eq_refl (fun _ _ => eq_refl) w) as Hframe.
  destruct (writeSidecars H E msg media path w) as [[f | e | ] w1]; simpl in *;
    [ | | congruence];
    destruct Hframe as [[evs [Htr Hside]] Hp Hl Hc _ Hd Hs _].
  - eexists _, _, (evs ++ [EDownloadMedia msg f]).
    split; [reflexivity | ]. simpl. rewrite Htr, <- app_assoc.
    split; [reflexivity | ].
    rewrite forallb_app, (sidecar_neutral _ Hside), count_app, (sidecar_no_call _ Hside).
    repeat split; simpl; auto.
  - eexists _, _, (evs ++ [ELog (LDownloadError e)]).
    split; [reflexivity | ]. simpl. rewrite Htr, <- app_assoc.
    split; [reflexivity | ].
    rewrite forallb_app, (sidecar_neutral _ Hside), count_app, (sidecar_no_call _ Hside).
    repeat split; simpl; auto.
Qed.

Lemma downloadMessageMedia_end_run (E : Env) msg outputFile w :
  exists r w1 evs,
    downloadMessageMedia_end E msg outputFile w = (Ok r, w1) /\
    trace w1 = trace w ++ evs /\
    forallb neutralE evs = true /\
    count isDownloadCall evs = O /\
    promises w1 = promises w /\
    exportLog w1 = exportLog w /\
    messageOffsetId w1 = messageOffsetId w /\
    totalDownloaded (this w1) = totalDownloaded (this w) /\
    skippedFiles (this w1) = skippedFiles (this w).
Proof.
  unfold downloadMessageMedia_end, try_catch, awaitDownloadMedia, bind, tick, emit,
    modify, ret, throw, log. simpl.
  destruct (env_downloadMedia E (ticks w) msg outputFile) as [[] | e]; simpl.
  - eexists _, _, [_]. repeat split; simpl; auto.
  - eexists _, _, [_; _]. split; [reflexivity | ]. simpl.
    rewrite <- app_assoc. repeat split; simpl; auto.
Qed.

Lemma setPc_facts (id : nat) (pc : TaskPc) (w1 : World) (t : Task) :
  promises w1 !! id = Some t ->
  let w' := with_promises
              (alter (fun t => {| task_msg := task_msg t; task_pc := pc |}) id) w1 in
  length (promises w') = length (promises w1) /\
  (forall j, j <> id -> promises w' !! j = promises w1 !! j) /\
  rankOf w' id = rank pc /\
  isPending w' id = negb (isSettled {| task_msg := task_msg t; task_pc := pc |}).
Proof.
  intros Ht. cbv zeta. unfold rankOf, isPending. simpl.
  rewrite length_alter, list_lookup_alter_eq, Ht. simpl.
  split; [reflexivity | ]. split; [ | split; reflexivity].
  intros j Hj. apply list_lookup_alter_ne. congruence.
Qed.

Lemma resumeDownload_run (H : Helpers) (E : Env) client id loc w t :
  promises w !! id = Some t ->
  isSettled t = false ->
  exists loc' w',
    resumeDownload H E client id loc w = (Ok loc', w') /\
    Resumed id w w' loc loc'.
Proof.
  intros Ht Hpending.
  assert (Hrank : rankOf w id = rank (task_pc t)) by (unfold rankOf; rewrite Ht; reflexivity).
  unfold resumeDownload. unfold bind at 1. simpl. rewrite Ht.
  unfold isSettled in Hpending.
  destruct (task_pc t) as [now | | | outputFile | result | result] eqn:Hpc;
    try discriminate.
  - (* the cooldown timer fired *)
    set (w1 := with_this (fun o => set_requestCount (requestCount o + 1) o)
                 (with_this (set_lastRequestTime now)
                    (with_this (set_requestCount 0) w))).
    destruct (setPc_facts id TGated w1 t Ht) as (Hlen & Hothers & Hr & Hp).
    cbv zeta in Hlen, Hothers, Hr, Hp.
    exists loc,
      (with_promises
         (alter (fun t => {| task_msg := task_msg t; task_pc := TGated |}) id) w1).
    split; [reflexivity | ].
    constructor; try reflexivity; try assumption.
    + rewrite Hr, Hrank. simpl. lia.
    + exists []. split; [reflexivity | ]. split.
      * unfold awaitingCall. rewrite Hr, Hrank. simpl. lia.
      * left. rewrite Hp. simpl. rewrite app_nil_r. auto.
  - (* the promise calls fn, which starts its delay *)
    unfold bind at 1. rewrite wait_run. cbv zeta.
    set (w1 := with_trace
                 (fun tr => (tr ++ [ELog (LWaiting DOWNLOAD_DELAY (env_random E (ticks w)))]) ++
                            [ETimeout DOWNLOAD_DELAY (env_random E (ticks w))])
                 (with_ticks S w)).
    assert (Ht1 : promises w1 !! id = Some t) by exact Ht.
    destruct (setPc_facts id TDelay w1 t Ht1) as (Hlen & Hothers & Hr & Hp).
    cbv zeta in Hlen, Hothers, Hr, Hp.
    exists loc,
      (with_promises
         (alter (fun t => {| task_msg := task_msg t; task_pc := TDelay |}) id) w1).
    split; [reflexivity | ].
    constructor; try reflexivity; try assumption.
    + rewrite Hr, Hrank. simpl. lia.
    + exists [ELog (LWaiting DOWNLOAD_DELAY (env_random E (ticks w)));
              ETimeout DOWNLOAD_DELAY (env_random E (ticks w))].
      split; [reflexivity | ]. split.
      * unfold awaitingCall. rewrite Hr, Hrank. simpl. lia.
      * left. rewrite Hp. simpl. rewrite <- app_assoc. auto.
  - (* the delay is over: downloadMessageMedia runs up to the download *)
    unfold bind at 1. simpl. unfold bind at 1.
    destruct (downloadMessageMedia_begin_run H E client (Some (task_msg t))
                (Some (getMediaPath H (task_msg t) (outputFolder (this w)))) w)
      as (r & w1 & evs & Hrun & Htr & Hneutral & Hcalls & Hp1 & Hl1 & Hc1 & Hd1 & Hs1).
    rewrite Hrun.
    assert (Ht1 : promises w1 !! id = Some t) by (rewrite Hp1; exact Ht).
    destruct r as [result | out].
    + destruct (setPc_facts id (TReturned result) w1 t Ht1) as (Hlen & Hothers & Hr & Hp).
      cbv zeta in Hlen, Hothers, Hr, Hp.
      exists loc,
        (with_promises
           (alter (fun t => {| task_msg := task_msg t; task_pc := TReturned result |}) id)
           w1).
      split; [reflexivity | ].
      constructor; try reflexivity; try assumption.
      * rewrite Hlen, Hp1. reflexivity.
      * intros j Hj. rewrite Hothers, Hp1; auto.
      * rewrite Hr, Hrank. simpl. lia.
      * exists evs. split; [exact Hneutral | ]. split.
        -- unfold awaitingCall. rewrite Hr, Hrank. simpl. lia.
        -- left. rewrite Hp. simpl. auto.
    + destruct (setPc_facts id (TDownloading out) w1 t Ht1) as (Hlen & Hothers & Hr & Hp).
      cbv zeta in Hlen, Hothers, Hr, Hp.
      exists loc,
        (with_promises
           (alter (fun t => {| task_msg := task_msg t; task_pc := TDownloading out |}) id)
           w1).
      split; [reflexivity | ].
      constructor; try reflexivity; try assumption.
      * rewrite Hlen, Hp1. reflexivity.
      * intros j Hj. rewrite Hothers, Hp1; auto.
      * rewrite Hr, Hrank. simpl. lia.
      * exists evs. split; [exact Hneutral | ]. split.
        -- unfold awaitingCall. rewrite Hr, Hrank. simpl. lia.
        -- left. rewrite Hp. simpl. auto.
  - (* the download ended *)
    unfold bind at 1.
    destruct (downloadMessageMedia_end_run E (task_msg t) outputFile w)
      as (r & w1 & evs & Hrun & Htr & Hneutral & Hcalls & Hp1 & Hl1 & Hc1 & Hd1 & Hs1).
    rewrite Hrun.
    assert (Ht1 : promises w1 !! id = Some t) by (rewrite Hp1; exact Ht).
    destruct (setPc_facts id (TReturned r) w1 t Ht1) as (Hlen & Hothers & Hr & Hp).
    cbv zeta in Hlen, Hothers, Hr, Hp.
    exists loc,
      (with_promises
         (alter (fun t => {| task_msg := task_msg t; task_pc := TReturned r |}) id) w1).
    split; [reflexivity | ].
    constructor; try reflexivity; try assumption.
    + rewrite Hlen, Hp1. reflexivity.
    + intros j Hj. rewrite Hothers, Hp1; auto.
    + rewrite Hr, Hrank. simpl. lia.
    + exists evs. split; [exact Hneutral | ]. split.
      * unfold awaitingCall. rewrite Hr, Hrank, Hcalls. simpl. lia.
      * left. rewrite Hp. simpl. auto.
  - (* fn counts the download and returns: the promise settles *)
    set (w1 := with_trace (fun tr => tr ++ [EPromiseSettled id result])
                 (with_trace
                    (fun tr => tr ++ [ELog (LDownloaded
                                              (getMediaPath H (task_msg t) (outputFolder (this w)))
                                              (totalDownloaded (this w) + 1))])
                    (with_this (fun o => set_totalDownloaded (totalDownloaded o + 1) o) w))).
    assert (Ht1 : promises w1 !! id = Some t) by exact Ht.
    destruct (setPc_facts id (TSettled result) w1 t Ht1) as (Hlen & Hothers & Hr & Hp).
    cbv zeta in Hlen, Hothers, Hr, Hp.
    exists {| downloadQueue := downloadQueue loc;
              currentBatchDownloaded := currentBatchDownloaded loc + 1;
              currentBatchSkipped := currentBatchSkipped loc |},
      (with_promises
         (alter (fun t => {| task_msg := task_msg t; task_pc := TSettled result |}) id) w1).
    split; [reflexivity | ].
    constructor; try reflexivity; try assumption.
    + rewrite Hr, Hrank. simpl. lia.
    + exists [ELog (LDownloaded (getMediaPath H (task_msg t) (outputFolder (this w)))
                        (totalDownloaded (this w) + 1))].
      split; [reflexivity | ]. split.
      * unfold awaitingCall. rewrite Hr, Hrank. simpl. lia.
      * right. rewrite Hp. simpl. split; [reflexivity | ].
        split; [ | auto]. exists result. rewrite <- app_assoc. reflexivity.
Qed.

Lemma startDownload_run (E : Env) (msg : Message) (w : World) :
  exists w' evs pc,
    startDownload E msg w = (Ok (length (promises w)), w') /\
    trace w' = trace w ++ EPromiseCreated (length (promises w)) :: evs /\
    forallb neutralE evs = true /\
    count isDownloadCall evs = O /\
    promises w' = promises w ++ [{| task_msg := msg; task_pc := pc |}] /\
    (3 <= rank pc)%nat /\
    exportLog w' = exportLog w /\
    messageOffsetId w' = messageOffsetId w /\
    totalDownloaded (this w') = totalDownloaded (this w) /\
    skippedFiles (this w') = skippedFiles (this w).
Proof.
  unfold startDownload, dateNow, bind, gets, emit, modify, tick, ret, log, recordRequest.
  simpl.
  destruct (tooManyRequests (this w) (env_now E (ticks w))); simpl.
  - eexists _, [ELog LRateLimitWait;
                ELog (LWaiting 60000 (env_random E (S (ticks w))));
                ETimeout 60000 (env_random E (S (ticks w)))], (TCooldown _).
    split; [reflexivity | ]. simpl. rewrite <- !app_assoc. simpl.
    repeat split; auto; lia.
  - eexists _, [], TGated.
    split; [reflexivity | ]. simpl. repeat split; auto; lia.
Qed.

(** Sums and filters over lists of promise ids. *)

Lemma sum_map_ext (f g : nat -> nat) l :
  (forall j, In j l -> f j = g j) -> list_sum (map f l) = list_sum (map g l).
Proof.
  induction l as [ | a l IH]; simpl; intros Hext; [reflexivity | ].
  rewrite (Hext a) by (left; reflexivity). rewrite IH; auto.
Qed.

Lemma sum_update (f g : nat -> nat) l id :
  List.NoDup l -> In id l -> (forall j, j <> id -> f j = g j) ->
  (list_sum (map g l) + f id = list_sum (map f l) + g id)%nat.
Proof.
  intros Hnd Hin Hext. induction l as [ | a l IH]; [destruct Hin | ].
  inversion Hnd as [ | a' l' Hnotin Hnd']; subst. simpl.
  destruct Hin as [Heq | Hin].
  - subst a. rewrite (sum_map_ext f g l); [lia | ].
    intros j Hj. apply Hext. intros Heq. subst j. contradiction.
  - rewrite (Hext a) by (intros Heq; subst a; contradiction).
    specialize (IH Hnd' Hin). lia.
Qed.

Lemma sum_filter_ne (f g : nat -> nat) l id :
  (forall j, j <> id -> f j = g j) ->
  (list_sum (map g (List.filter (fun j => negb (j =? id)%nat) l)) <= list_sum (map f l))%nat.
Proof.
  intros Hext. induction l as [ | a l IH]; simpl; [lia | ].
  destruct (a =? id)%nat eqn:Ha; simpl.
  - lia.
  - apply Nat.eqb_neq in Ha. rewrite (Hext a Ha). lia.
Qed.

Lemma length_filter_ne l id :
  List.NoDup l -> In id l ->
  S (length (List.filter (fun j => negb (j =? id)%nat) l)) = length l.
Proof.
  intros Hnd Hin. induction l as [ | a l IH]; [destruct Hin | ].
  inversion Hnd as [ | a' l' Hnotin Hnd']; subst. simpl.
  destruct (a =? id)%nat eqn:Ha; simpl.
  - apply Nat.eqb_eq in Ha. subst a. f_equal.
    clear IH Hin Hnd Hnd'. induction l as [ | b l IH]; simpl; [reflexivity | ].
    destruct (b =? id)%nat eqn:Hb; simpl.
    + apply Nat.eqb_eq in Hb. subst b. exfalso. apply Hnotin. left. reflexivity.
    + f_equal. apply IH. intros Hin. apply Hnotin. right. exact Hin.
  - apply Nat.eqb_neq in Ha. destruct Hin as [Heq | Hin]; [congruence | ].
    f_equal. apply IH; assumption.
Qed.

Lemma filter_filter_ne (p q : nat -> bool) l id :
  (forall j, j <> id -> q j = p j) -> q id = false ->
  List.filter q l = List.filter (fun j => negb (j =? id)%nat) (List.filter p l).
Proof.
  intros Hext Hid. induction l as [ | a l IH]; simpl; [reflexivity | ].
  destruct (Nat.eq_dec a id) as [-> | Ha].
  - rewrite Hid. destruct (p id); simpl; [rewrite Nat.eqb_refl; simpl | ]; exact IH.
  - rewrite (Hext a Ha). destruct (p a); simpl; [ | exact IH].
    apply Nat.eqb_neq in Ha. rewrite Ha. simpl. f_equal. exact IH.
Qed.

Lemma filter_ext_in (p q : nat -> bool) l :
  (forall j, In j l -> q j = p j) -> List.filter q l = List.filter p l.
Proof.
  induction l as [ | a l IH]; simpl; intros Hext; [reflexivity | ].
  rewrite (Hext a) by (left; reflexivity).
  rewrite IH; [reflexivity | ]. intros j Hj. apply Hext. right. exact Hj.
Qed.

(** ** Invariants of the download phase *)

Lemma neutral_counts evs :
  forallb neutralE evs = true ->
  count isPersist evs = O /\ count isCreated evs = O /\ count isSettledEv evs = O.
Proof.
  intros Hn. repeat split; apply (count_none _ neutralE); auto;
    intros e He; destruct e; try discriminate; reflexivity.
Qed.

Ltac count_one :=
  repeat match goal with
         | |- context [count ?f [?e]] =>
             let v := eval cbv in (count f [e]) in change (count f [e]) with v
         end.

Lemma common_neutral w0 w w' loc loc' evs :
  Common w0 w loc ->
  trace w' = trace w ++ evs ->
  forallb neutralE evs = true ->
  exportLog w' = exportLog w ->
  messageOffsetId w' = messageOffsetId w ->
  totalDownloaded (this w') = totalDownloaded (this w) ->
  currentBatchDownloaded loc' = currentBatchDownloaded loc ->
  (count isDownloadCall evs + awaitingCalls w' (inFlight (sched (trace w)))
   <= awaitingCalls w (inFlight (sched (trace w))))%nat ->
  Common w0 w' loc'.
Proof.
  intros [Hrule Hsafe Hpage Hlog Hcur Hnd (evs0 & Htr0 & Hc0 & Hc1 & Hc2 & Hc3 & Hc4)]
    Htr Hn Hl Hc Hd Hb Hcalls.
  destruct (neutral_counts evs Hn) as (Hp & Hcr & Hse).
  assert (Hs : sched (trace w') = sched (trace w))
    by (rewrite Htr; apply sched_neutral; exact Hn).
  constructor.
  - intros H0. rewrite Htr. eapply Always_free; eauto using queueRule_neutral.
  - intros H0. rewrite Htr. eapply Always_free; eauto using persistedSafely_neutral.
  - rewrite Htr, <- Hpage. apply (lastPage_keep neutralE); auto.
    intros e He page. apply pageStep_neutral. exact He.
  - congruence.
  - congruence.
  - rewrite Hs. exact Hnd.
  - exists (evs0 ++ evs).
    split; [rewrite Htr, Htr0, <- app_assoc; reflexivity | ].
    rewrite Hs, !count_app, Hp, Hcr, Hse, Hd, Hb, !Nat.add_0_r.
    repeat split; auto. lia.
Qed.

Lemma common_settle w0 w w' loc loc' evs id result :
  Common w0 w loc ->
  trace w' = trace w ++ evs ++ [EPromiseSettled id result] ->
  forallb neutralE evs = true ->
  In id (inFlight (sched (trace w))) ->
  exportLog w' = exportLog w ->
  messageOffsetId w' = messageOffsetId w ->
  totalDownloaded (this w') = totalDownloaded (this w) + 1 ->
  currentBatchDownloaded loc' = currentBatchDownloaded loc + 1 ->
  (count isDownloadCall evs +
   awaitingCalls w' (List.filter (fun j => negb (j =? id)%nat) (inFlight (sched (trace w))))
   <= awaitingCalls w (inFlight (sched (trace w))))%nat ->
  Common w0 w' loc' /\
  sched (trace w') = schedStep (sched (trace w)) (EPromiseSettled id result).
Proof.
  intros [Hrule Hsafe Hpage Hlog Hcur Hnd (evs0 & Htr0 & Hc0 & Hc1 & Hc2 & Hc3 & Hc4)]
    Htr Hn Hin Hl Hc Hd Hb Hcalls.
  destruct (neutral_counts evs Hn) as (Hp & Hcr & Hse).
  assert (Hs1 : sched (trace w ++ evs) = sched (trace w)) by (apply sched_neutral; exact Hn).
  assert (Hs : sched (trace w') = schedStep (sched (trace w)) (EPromiseSettled id result)).
  { rewrite Htr, app_assoc, sched_snoc, Hs1. reflexivity. }
  split; [ | exact Hs].
  constructor.
  - intros H0. rewrite Htr, app_assoc. apply Always_snoc.
    + eapply Always_free; eauto using queueRule_neutral.
    + simpl. rewrite Hs1. exact Hin.
  - intros H0. rewrite Htr, app_assoc. apply Always_snoc.
    + eapply Always_free; eauto using persistedSafely_neutral.
    + exact I.
  - rewrite Htr, app_assoc, lastPage_snoc. simpl. rewrite <- Hpage.
    apply (lastPage_keep neutralE); auto.
    intros e He page. apply pageStep_neutral. exact He.
  - congruence.
  - congruence.
  - rewrite Hs. simpl. apply List.NoDup_filter. exact Hnd.
  - exists (evs0 ++ evs ++ [EPromiseSettled id result]).
    rewrite Hs. simpl inFlight.
    pose proof (length_filter_ne _ id Hnd Hin) as Hlen.
    split; [rewrite Htr, Htr0, <- app_assoc; reflexivity | ].
    rewrite !count_app, Hp, Hcr, Hse, Hd, Hb. count_one.
    repeat split; auto; lia.
Qed.

Lemma common_create w0 w w' loc loc' evs id :
  Common w0 w loc ->
  trace w' = trace w ++ EPromiseCreated id :: evs ->
  forallb neutralE evs = true ->
  count isDownloadCall evs = O ->
  (length (inFlight (sched (trace w))) < MAX_PARALLEL_DOWNLOAD)%nat ->
  draining (sched (trace w)) = false ->
  owesDelay (sched (trace w)) = false ->
  ~ In id (inFlight (sched (trace w))) ->
  exportLog w' = exportLog w ->
  messageOffsetId w' = messageOffsetId w ->
  totalDownloaded (this w') = totalDownloaded (this w) ->
  currentBatchDownloaded loc' = currentBatchDownloaded loc ->
  (awaitingCalls w' (inFlight (sched (trace w)) ++ [id])
   <= awaitingCalls w (inFlight (sched (trace w))) + 1)%nat ->
  Common w0 w' loc' /\
  sched (trace w') = schedStep (sched (trace w)) (EPromiseCreated id).
Proof.
  intros [Hrule Hsafe Hpage Hlog Hcur Hnd (evs0 & Htr0 & Hc0 & Hc1 & Hc2 & Hc3 & Hc4)]
    Htr Hn Hnocall Hlt Hdr Howes Hfresh Hl Hc Hd Hb Hcalls.
  destruct (neutral_counts evs Hn) as (Hp & Hcr & Hse).
  assert (Htr' : trace w' = (trace w ++ [EPromiseCreated id]) ++ evs)
    by (rewrite Htr, <- app_assoc; reflexivity).
  assert (Hs : sched (trace w') = schedStep (sched (trace w)) (EPromiseCreated id)).
  { rewrite Htr', sched_neutral by exact Hn. apply sched_snoc. }
  split; [ | exact Hs].
  constructor.
  - intros H0. rewrite Htr'. eapply Always_free; eauto using queueRule_neutral.
    apply Always_snoc; [exact (Hrule H0) | ]. simpl. auto.
  - intros H0. rewrite Htr'. eapply Always_free; eauto using persistedSafely_neutral.
    apply Always_snoc; [exact (Hsafe H0) | exact I].
  - rewrite Htr', <- Hpage.
    rewrite (lastPage_keep neutralE); auto.
    + rewrite lastPage_snoc. reflexivity.
    + intros e He page. apply pageStep_neutral. exact He.
  - congruence.
  - congruence.
  - rewrite Hs. simpl. apply List.NoDup_app; auto.
    + apply List.NoDup_cons; [intros [] | apply List.NoDup_nil].
    + intros x Hx [Heq | []]. subst x. contradiction.
  - exists (evs0 ++ EPromiseCreated id :: evs).
    rewrite Hs. simpl inFlight.
    change (EPromiseCreated id :: evs) with ([EPromiseCreated id] ++ evs).
    split; [rewrite Htr, Htr0, <- app_assoc; reflexivity | ].
    rewrite !count_app, Hp, Hcr, Hse, Hnocall, Hd, Hb, List.length_app. count_one.
    simpl length. repeat split; auto; lia.
Qed.

Lemma sum_split_ne (f : nat -> nat) l id :
  List.NoDup l -> In id l ->
  list_sum (map f l) =
  (f id + list_sum (map f (List.filter (fun j => negb (j =? id)%nat) l)))%nat.
Proof.
  intros Hnd Hin. induction l as [ | a l IH]; [destruct Hin | ].
  inversion Hnd as [ | a' l' Hnotin Hnd']; subst. simpl.
  destruct (a =? id)%nat eqn:Ha; simpl.
  - apply Nat.eqb_eq in Ha. subst a. f_equal.
    assert (Hf : List.filter (fun j => negb (j =? id)%nat) l = l).
    { clear - Hnotin. induction l as [ | b l IH]; simpl; [reflexivity | ].
      destruct (b =? id)%nat eqn:Hb; simpl.
      - apply Nat.eqb_eq in Hb. subst b. exfalso. apply Hnotin. left. reflexivity.
      - f_equal. apply IH. intros Hin. apply Hnotin. right. exact Hin. }
    rewrite Hf. reflexivity.
  - apply Nat.eqb_neq in Ha. destruct Hin as [Heq | Hin]; [congruence | ].
    rewrite (IH Hnd' Hin). lia.
Qed.

Lemma pending_lookup w id :
  isPending w id = true -> exists t, promises w !! id = Some t /\ isSettled t = false.
Proof.
  unfold isPending. destruct (promises w !! id) as [t | ]; [ | discriminate].
  intros Hp. exists t. split; [reflexivity | ]. apply negb_true_iff. exact Hp.
Qed.

Lemma others_same (w w' : World) id :
  (forall j, j <> id -> promises w' !! j = promises w !! j) ->
  forall j, j <> id ->
    isPending w' j = isPending w j /\
    rankOf w' j = rankOf w j /\
    awaitingCall w' j = awaitingCall w j.
Proof.
  intros Hothers j Hj. unfold awaitingCall, rankOf, isPending.
  rewrite (Hothers j Hj). auto.
Qed.

Lemma eventLoop_step (H : Helpers) (E : Env) fuel client Q loc w :
  eventLoop H E (S fuel) client Q loc w =
  match List.filter (isPending w) Q with
  | [] => (Ok loc, w)
  | id0 :: rest =>
      match resumeDownload H E client
              (nth (env_resume E (ticks w) mod length (id0 :: rest)) (id0 :: rest) id0)
              loc (with_ticks S w) with
      | (Ok loc', w') => eventLoop H E fuel client Q loc' w'
      | (Throw e, w') => (Throw e, w')
      | (OutOfFuel, w') => (OutOfFuel, w')
      end
  end.
Proof.
  cbn [eventLoop]. unfold bind at 1. cbn [gets].
  destruct (List.filter (isPending w) Q); reflexivity.
Qed.

Lemma eventLoop_run (H : Helpers) (E : Env) client w0 Q b :
  List.NoDup Q ->
  forall fuel loc w,
    Common w0 w loc ->
    Draining w Q b ->
    (totalRank w Q < fuel)%nat ->
    exists loc' w',
      eventLoop H E fuel client Q loc w = (Ok loc', w') /\
      Common w0 w' loc' /\
      Draining w' Q b /\
      inFlight (sched (trace w')) = [] /\
      downloadQueue loc' = downloadQueue loc /\
      currentBatchSkipped loc' = currentBatchSkipped loc /\
      skippedFiles (this w') = skippedFiles (this w).
Proof.
  intros HndQ. induction fuel as [ | fuel IH]; intros loc w Hcommon Hdrain Hfuel; [lia | ].
  rewrite eventLoop_step.
  destruct Hdrain as (Hin & Hbusy & Hidle).
  destruct (List.filter (isPending w) Q) as [ | id0 rest] eqn:Hpending.
  - exists loc, w. split; [reflexivity | ]. split; [exact Hcommon | ].
    split; [ | auto]. split; [rewrite Hpending; exact Hin | auto].
  - set (id := nth (env_resume E (ticks w) mod length (id0 :: rest)) (id0 :: rest) id0).
    set (wt := with_ticks S w).
    assert (HinL : In id (id0 :: rest)).
    { apply nth_In. apply Nat.mod_upper_bound. discriminate. }
    assert (HinQ : In id Q /\ isPending w id = true).
    { rewrite <- Hpending in HinL. apply filter_In in HinL. exact HinL. }
    destruct HinQ as [HinQ Hpend].
    destruct (pending_lookup w id Hpend) as (t & Ht & Hts).
    destruct (resumeDownload_run H E client id loc wt t Ht Hts) as (loc' & w' & Hrun & Hres).
    rewrite Hrun.
    destruct Hres as [Hq Hsk Hlen Hothers Hrank Hl Hc Hsf (evs & Hn & Hcalls & Heffect)].
    pose proof (others_same wt w' id Hothers) as Hsame.
    assert (HndL : List.NoDup (inFlight (sched (trace w)))) by (apply (cm_nodup _ _ _ Hcommon)).
    assert (HinF : In id (inFlight (sched (trace w)))) by (rewrite Hin; exact HinL).
    assert (Hfuel' : (totalRank w' Q < fuel)%nat).
    { unfold totalRank in *.
      assert (Hsum := sum_update (rankOf w) (rankOf w') Q id HndQ HinQ
                        (fun j Hj => eq_sym (proj1 (proj2 (Hsame j Hj))))).
      change (rankOf wt id) with (rankOf w id) in Hrank. lia. }
    destruct (Hbusy ltac:(intros Hnil; rewrite Hnil in HinF; destruct HinF)) as [Hb Howes].
    destruct Heffect as [(Hstill & Htr & Hd & Hcb) | (Hgone & [result Htr] & Hd & Hcb)].
    + (* the promise is still pending *)
      assert (Hfilter : List.filter (isPending w') Q = List.filter (isPending w) Q).
      { apply filter_ext_in. intros j Hj. destruct (Nat.eq_dec j id) as [-> | Hne].
        - rewrite Hstill, Hpend. reflexivity.
        - apply (Hsame j Hne). }
      assert (Hsched : sched (trace w') = sched (trace w)).
      { rewrite Htr. apply sched_neutral. exact Hn. }
      assert (Hcommon' : Common w0 w' loc').
      { apply (common_neutral w0 w w' loc loc' evs); auto.
        unfold awaitingCalls.
        assert (Hsum := sum_update (awaitingCall w) (awaitingCall w')
                          (inFlight (sched (trace w))) id HndL HinF
                          (fun j Hj => eq_sym (proj2 (proj2 (Hsame j Hj))))).
        change (awaitingCall wt id) with (awaitingCall w id) in Hcalls. lia. }
      destruct (IH loc' w' Hcommon') as (loc'' & w'' & Hrun' & Hc'' & Hd'' & Hnil & Hq'' & Hsk'' & Hsf'').
      * unfold Draining. rewrite Hsched, Hfilter.
        split; [congruence | split; assumption].
      * exact Hfuel'.
      * exists loc'', w''. split; [exact Hrun' | ]. split; [exact Hc'' | ].
        split; [exact Hd'' | ]. split; [exact Hnil | ].
        split; [congruence | ]. split; [congruence | ].
        rewrite Hsf''. exact Hsf.
    + (* the promise settles *)
      assert (Hfilter : List.filter (isPending w') Q =
                        List.filter (fun j => negb (j =? id)%nat) (List.filter (isPending w) Q)).
      { apply filter_filter_ne; [ | exact Hgone].
        intros j Hne. apply (Hsame j Hne). }
      destruct (common_settle w0 w w' loc loc' evs id result Hcommon Htr Hn HinF Hl Hc Hd Hcb)
        as [Hcommon' Hsched].
      { unfold awaitingCalls.
        rewrite (sum_split_ne (awaitingCall w) _ id HndL HinF).
        rewrite (sum_map_ext (awaitingCall w') (awaitingCall w)).
        - change (awaitingCall wt id) with (awaitingCall w id) in Hcalls. lia.
        - intros j Hj. apply filter_In in Hj as [_ Hj].
          apply (Hsame j). apply negb_true_iff, Nat.eqb_neq in Hj. exact Hj. }
      destruct (IH loc' w' Hcommon') as (loc'' & w'' & Hrun' & Hc'' & Hd'' & Hnil & Hq'' & Hsk'' & Hsf'').
      * rewrite Hpending, <- Hin in Hfilter.
        unfold Draining. rewrite Hsched, Hfilter.
        cbn [schedStep inFlight draining batch owesDelay]. rewrite Hb.
        destruct (List.filter (fun j => negb (j =? id)%nat) (inFlight (sched (trace w))));
          cbn [isNil negb andb]; repeat split; auto; try congruence; try discriminate.
      * exact Hfuel'.
      * exists loc'', w''. split; [exact Hrun' | ]. split; [exact Hc'' | ].
        split; [exact Hd'' | ]. split; [exact Hnil | ].
        split; [congruence | ]. split; [congruence | ].
        rewrite Hsf''. exact Hsf.
Qed.

Lemma keep_counts evs :
  forallb keepE evs = true ->
  count isPersist evs = O /\ count isCreated evs = O /\
  count isSettledEv evs = O /\ count isDownloadCall evs = O.
Proof.
  intros Hn. repeat split; apply (count_none _ keepE); auto;
    intros e He; destruct e; try discriminate; reflexivity.
Qed.

Lemma keep_calm evs : forallb keepE evs = true -> forallb calmE evs = true.
Proof.
  rewrite !forallb_forall. intros Hall e He. apply keepE_calm. auto.
Qed.

Lemma common_calm w0 w w' loc loc' evs :
  Common w0 w loc ->
  resting (sched (trace w)) ->
  trace w' = trace w ++ evs ->
  forallb keepE evs = true ->
  exportLog w' = exportLog w ->
  messageOffsetId w' = messageOffsetId w ->
  totalDownloaded (this w') = totalDownloaded (this w) ->
  currentBatchDownloaded loc' = currentBatchDownloaded loc ->
  Common w0 w' loc' /\
  resting (sched (trace w')) /\
  (owesDelay (sched (trace w)) = false -> owesDelay (sched (trace w')) = false).
Proof.
  intros [Hrule Hsafe Hpage Hlog Hcur Hnd (evs0 & Htr0 & Hc0 & Hc1 & Hc2 & Hc3 & Hc4)]
    Hrest Htr Hk Hl Hc Hd Hb.
  destruct (keep_counts evs Hk) as (Hp & Hcr & Hse & Hdc).
  pose proof (keep_calm evs Hk) as Hcalm.
  destruct (sched_calm (trace w) evs Hcalm Hrest) as [Hrest' Howes].
  rewrite <- Htr in Hrest', Howes.
  split; [ | split; assumption].
  destruct Hrest as (Hin & _ & _). destruct Hrest' as (Hin' & Hrest').
  constructor.
  - intros H0. rewrite Htr. eapply Always_free; eauto using queueRule_calm.
  - intros H0. rewrite Htr. eapply Always_free; eauto using persistedSafely_calm.
  - rewrite Htr, <- Hpage. apply (lastPage_keep keepE); auto.
    intros e He page. apply pageStep_keep. exact He.
  - congruence.
  - congruence.
  - rewrite Hin'. apply List.NoDup_nil.
  - exists (evs0 ++ evs).
    split; [rewrite Htr, Htr0, <- app_assoc; reflexivity | ].
    rewrite Hin' in *. rewrite Hin in *.
    rewrite !count_app, Hp, Hcr, Hse, Hdc, Hd, Hb, !Nat.add_0_r.
    unfold awaitingCalls in *. simpl in *.
    repeat split; auto; lia.
Qed.

Lemma sched_delay tr l r :
  resting (sched tr) ->
  resting (sched (tr ++ [ELog l; ETimeout RATE_LIMIT_DELAY r])) /\
  owesDelay (sched (tr ++ [ELog l; ETimeout RATE_LIMIT_DELAY r])) = false.
Proof.
  intros (Hin & Hdr & Hb). rewrite sched_app. unfold resting. simpl.
  rewrite Hin. simpl. auto.
Qed.

Lemma rank_le pc : (rank pc <= 5)%nat.
Proof. destruct pc; simpl; lia. Qed.

Lemma totalRank_le w Q : (totalRank w Q <= 5 * length Q)%nat.
Proof.
  unfold totalRank. induction Q as [ | a Q IH]; simpl; [lia | ].
  assert (rankOf w a <= 5)%nat.
  { unfold rankOf. destruct (promises w !! a); [apply rank_le | lia]. }
  lia.
Qed.

Lemma filter_all (p : nat -> bool) l :
  Forall (fun x => p x = true) l -> List.filter p l = l.
Proof.
  induction 1 as [ | a l Ha Hl IH]; simpl; [reflexivity | ].
  rewrite Ha, IH. reflexivity.
Qed.

Lemma promiseAll_run (H : Helpers) (E : Env) client w0 loc w :
  Common w0 w loc ->
  Filling w loc ->
  exists loc' w',
    promiseAll H E client loc w = (Ok loc', w') /\
    Common w0 w' loc' /\
    resting (sched (trace w')) /\
    owesDelay (sched (trace w')) =
      (MAX_PARALLEL_DOWNLOAD <=? length (downloadQueue loc))%nat /\
    downloadQueue loc' = downloadQueue loc /\
    currentBatchSkipped loc' = currentBatchSkipped loc /\
    skippedFiles (this w') = skippedFiles (this w).
Proof.
  intros Hcommon (Hin & Hdr & Howes & Hb & Hpend).
  assert (Hnd : List.NoDup (downloadQueue loc)).
  { rewrite <- Hin. apply (cm_nodup _ _ _ Hcommon). }
  assert (Hdrain : Draining w (downloadQueue loc) (length (downloadQueue loc))).
  { unfold Draining. rewrite (filter_all _ _ Hpend). split; [exact Hin | ]. split.
    - intros _. auto.
    - intros Hnil. rewrite Hnil in Hin. rewrite <- Hin in *. simpl in *. auto. }
  destruct (eventLoop_run H E client w0 (downloadQueue loc) (length (downloadQueue loc)) Hnd
              (5 * length (downloadQueue loc) + 1) loc w Hcommon Hdrain)
    as (loc' & w' & Hrun & Hcommon' & (Hin' & _ & Hidle) & Hnil & Hq & Hsk & Hsf).
  { pose proof (totalRank_le w (downloadQueue loc)). lia. }
  destruct (Hidle Hnil) as (Hdr' & Hb' & Howes').
  exists loc', w'. unfold promiseAll, resting. auto 10.
Qed.

Lemma pending_valid w id : isPending w id = true -> (id < length (promises w))%nat.
Proof.
  intros Hp. destruct (pending_lookup w id Hp) as (t & Ht & _).
  apply lookup_lt_Some in Ht. exact Ht.
Qed.

Lemma countMedia_cons msg rest : countMedia (msg :: rest) = mediaUnit msg + countMedia rest.
Proof.
  unfold countMedia, mediaUnit. simpl. destruct (hasMedia msg); simpl length; lia.
Qed.

Lemma canDownload_hasMedia (H : Helpers) w msg :
  truthy (canDownload H w msg) = true -> hasMedia msg = true.
Proof.
  unfold canDownload. destruct (hasMedia msg); [reflexivity | discriminate].
Qed.

Lemma resumeDownload_created (H : Helpers) (E : Env) client id loc w :
  count isCreated (trace (snd (resumeDownload H E client id loc w))) =
  count isCreated (trace w).
Proof.
  destruct (promises w !! id) as [t | ] eqn:Ht.
  - destruct (isSettled t) eqn:Hst.
    + unfold resumeDownload. unfold bind at 1. simpl. rewrite Ht.
      unfold isSettled in Hst. destruct (task_pc t); try discriminate. reflexivity.
    + destruct (resumeDownload_run H E client id loc w t Ht Hst)
        as (loc' & w' & Hrun & Hres).
      rewrite Hrun. simpl.
      destruct (rs_effect _ _ _ _ _ Hres)
        as (evs & Hn & _ & [(_ & Htr & _) | (_ & [r Htr] & _)]);
        destruct (neutral_counts evs Hn) as (_ & Hcr & _);
        rewrite Htr, !count_app, Hcr; unfold count; simpl; lia.
  - unfold resumeDownload. unfold bind at 1. simpl. rewrite Ht. reflexivity.
Qed.

Lemma eventLoop_created (H : Helpers) (E : Env) client Q :
  forall fuel loc w,
    count isCreated (trace (snd (eventLoop H E fuel client Q loc w))) =
    count isCreated (trace w).
Proof.
  induction fuel as [ | fuel IH]; intros loc w; [reflexivity | ].
  rewrite eventLoop_step.
  destruct (List.filter (isPending w) Q) as [ | id0 rest]; [reflexivity | ].
  pose proof (resumeDownload_created H E client
                (nth (env_resume E (ticks w) mod length (id0 :: rest)) (id0 :: rest) id0)
                loc (with_ticks S w)) as Hstep.
  destruct (resumeDownload H E client _ loc (with_ticks S w)) as [[loc' | e | ] w'];
    simpl in Hstep; try exact Hstep.
  rewrite IH. exact Hstep.
Qed.

(** Awaiting the queue counts each of its promises as downloaded. *)
Lemma promiseAll_tally (H : Helpers) (E : Env) client w0 loc w loc' w' :
  Common w0 w loc ->
  Filling w loc ->
  promiseAll H E client loc w = (Ok loc', w') ->
  Common w0 w' loc' ->
  inFlight (sched (trace w')) = [] ->
  currentBatchDownloaded loc' =
  currentBatchDownloaded loc + Z.of_nat (length (downloadQueue loc)).
Proof.
  intros Hcommon (Hin & _) Hrun Hcommon' Hnil.
  pose proof (eventLoop_created H E client (downloadQueue loc)
                (5 * length (downloadQueue loc) + 1) loc w) as Hcreated.
  unfold promiseAll in Hrun. rewrite Hrun in Hcreated. simpl in Hcreated.
  destruct (cm_account _ _ _ Hcommon) as (evs & Htr & _ & Hc & Hb & _).
  destruct (cm_account _ _ _ Hcommon') as (evs' & Htr' & _ & Hc' & Hb' & _).
  rewrite Htr, Htr', !count_app in Hcreated.
  rewrite Hnil in Hc'. rewrite Hin in Hc. simpl in Hc'. lia.
Qed.

Lemma queueOrSkip_run (H : Helpers) (E : Env) client details msg w0 loc w :
  Common w0 w loc ->
  Filling w loc ->
  (length (downloadQueue loc) < MAX_PARALLEL_DOWNLOAD)%nat ->
  exists loc' w',
    queueOrSkip H E client details msg loc w = (Ok loc', w') /\
    Common w0 w' loc' /\
    Filling w' loc' /\
    (length (downloadQueue loc') <= MAX_PARALLEL_DOWNLOAD)%nat /\
    tally loc' = tally loc + mediaUnit msg.
Proof.
  intros Hcommon Hfill Hlt.
  pose proof Hfill as (Hin & Hdr & Howes & Hb & Hpend).
  unfold queueOrSkip. unfold bind at 1. simpl.
  destruct (truthy (canDownload H w msg)) eqn:Heligible.
  - (* the message is eligible: a promise is created and queued *)
    unfold bind at 1. simpl. unfold bind at 1. simpl.
    set (line := ELog (LQueuing (msg_id msg) (currentBatchDownloaded loc + 1)
                         (length (List.filter (fun m => truthy (canDownload H w m)) details)))).
    set (w1 := with_trace (fun tr => tr ++ [line]) w).
    assert (Hcommon1 : Common w0 w1 loc).
    { apply (common_neutral w0 w w1 loc loc [line]); auto. }
    assert (Hs1 : sched (trace w1) = sched (trace w)) by (apply (sched_neutral (trace w) [line]); reflexivity).
    destruct (startDownload_run E msg w1)
      as (w2 & evs & pc & Hrun & Htr & Hn & Hnocall & Hp2 & Hrk & Hl & Hc & Hd & Hsf).
    unfold bind at 1. rewrite Hrun. simpl.
    set (id := length (promises w)) in *.
    assert (Hold : forall j, isPending w j = true ->
                             promises w2 !! j = promises w !! j).
    { intros j Hj. rewrite Hp2. apply lookup_app_l. apply pending_valid. exact Hj. }
    assert (Hfresh : ~ In id (inFlight (sched (trace w)))).
    { rewrite Hin. intros Hid. rewrite Forall_forall in Hpend.
      specialize (Hpend id). apply list_elem_of_In in Hid. specialize (Hpend Hid).
      apply pending_valid in Hpend. unfold id in Hpend. lia. }
    destruct (common_create w0 w1 w2 loc
                {| downloadQueue := downloadQueue loc ++ [id];
                   currentBatchDownloaded := currentBatchDownloaded loc;
                   currentBatchSkipped := currentBatchSkipped loc |}
                evs id Hcommon1 Htr Hn Hnocall) as [Hcommon2 Hs2]; auto;
      try (rewrite Hs1; auto; congruence).
    { rewrite Hs1. unfold awaitingCalls. rewrite map_app, list_sum_app. simpl.
      rewrite (sum_map_ext (awaitingCall w2) (awaitingCall w1)).
      - assert (awaitingCall w2 id <= 1)%nat
          by (unfold awaitingCall; destruct (3 <=? rankOf w2 id)%nat; lia).
        lia.
      - intros j Hj. unfold awaitingCall, rankOf.
        rewrite Hold; [reflexivity | ].
        rewrite Hin in Hj. rewrite Forall_forall in Hpend. apply Hpend.
        apply list_elem_of_In. exact Hj. }
    eexists _, w2. split; [reflexivity | ]. split; [exact Hcommon2 | ].
    split.
    + unfold Filling. rewrite Hs2, Hs1. simpl. rewrite Hin, Hb, List.length_app. simpl.
      repeat split; auto; try lia.
      apply Forall_app. split.
      * rewrite Forall_forall in *. intros j Hj. unfold isPending.
        rewrite Hold by auto. apply (Hpend j Hj).
      * constructor; [ | constructor]. unfold isPending.
        rewrite Hp2. unfold id. rewrite list_lookup_middle by reflexivity.
        unfold isSettled. simpl. destruct pc; simpl in *; try reflexivity. lia.
    + unfold tally, mediaUnit. rewrite (canDownload_hasMedia H w msg Heligible).
      simpl. rewrite List.length_app. simpl. lia.
  - unfold tally, mediaUnit. destruct (hasMedia msg).
    + (* a message with media that is not downloaded is counted as skipped *)
      unfold bind at 1. simpl. unfold bind at 1. simpl.
      set (w1 := with_this (fun o => set_skippedFiles (skippedFiles o + 1) o) w).
      set (w2 := with_trace (fun tr => tr ++ [ELog (LSkipped (msg_id msg))]) w1).
      eexists _, w2. split; [reflexivity | ].
      split; [ | split].
      * apply (common_neutral w0 w w2 loc _ [ELog (LSkipped (msg_id msg))]); auto.
      * unfold Filling.
        replace (sched (trace w2)) with (sched (trace w))
          by (symmetry; apply (sched_neutral (trace w) [ELog (LSkipped (msg_id msg))]);
              reflexivity).
        simpl. repeat split; auto.
      * simpl. lia.
    + exists loc, w. split; [reflexivity | ].
      split; [exact Hcommon | ]. split; [exact Hfill | lia].
Qed.

Lemma filling_log w loc l :
  Filling w loc -> Filling (with_trace (fun tr => tr ++ [ELog l]) w) loc.
Proof.
  unfold Filling. simpl. rewrite (sched_neutral (trace w) [ELog l]) by reflexivity.
  auto.
Qed.

Lemma processFullQueue_run (H : Helpers) (E : Env) client w0 loc w :
  Common w0 w loc ->
  Filling w loc ->
  (length (downloadQueue loc) <= MAX_PARALLEL_DOWNLOAD)%nat ->
  exists loc' w',
    processFullQueue H E client loc w = (Ok loc', w') /\
    Common w0 w' loc' /\
    Filling w' loc' /\
    (length (downloadQueue loc') < MAX_PARALLEL_DOWNLOAD)%nat /\
    tally loc' = tally loc.
Proof.
  intros Hcommon Hfill Hle. unfold processFullQueue.
  destruct (MAX_PARALLEL_DOWNLOAD <=? length (downloadQueue loc))%nat eqn:Hfull.
  - unfold bind at 1. simpl.
    set (w1 := with_trace (fun tr => tr ++ [ELog (LProcessing MAX_PARALLEL_DOWNLOAD)]) w).
    assert (Hcommon1 : Common w0 w1 loc).
    { apply (common_neutral w0 w w1 loc loc [ELog (LProcessing MAX_PARALLEL_DOWNLOAD)]);
        auto. }
    pose proof (filling_log w loc (LProcessing MAX_PARALLEL_DOWNLOAD) Hfill) as Hfill1.
    destruct (promiseAll_run H E client w0 loc w1 Hcommon1 Hfill1)
      as (loc2 & w2 & Hrun & Hcommon2 & Hrest2 & _ & Hq & Hsk & Hsf).
    pose proof (promiseAll_tally H E client w0 loc w1 loc2 w2 Hcommon1 Hfill1 Hrun
                  Hcommon2 (proj1 Hrest2)) as Hcount.
    unfold bind at 1. rewrite Hrun. unfold bind at 1. rewrite wait_run. cbv zeta.
    set (evs := [ELog (LWaiting RATE_LIMIT_DELAY (env_random E (ticks w2)));
                 ETimeout RATE_LIMIT_DELAY (env_random E (ticks w2))]).
    set (w3 := with_trace
                 (fun tr => (tr ++ [ELog (LWaiting RATE_LIMIT_DELAY (env_random E (ticks w2)))]) ++
                            [ETimeout RATE_LIMIT_DELAY (env_random E (ticks w2))])
                 (with_ticks S w2)).
    assert (Htr3 : trace w3 = trace w2 ++ evs).
    { unfold w3, evs. simpl. rewrite <- app_assoc. reflexivity. }
    set (loc3 := {| downloadQueue := [];
                    currentBatchDownloaded := currentBatchDownloaded loc2;
                    currentBatchSkipped := currentBatchSkipped loc2 |}).
    destruct (common_calm w0 w2 w3 loc2 loc3 evs Hcommon2 Hrest2 Htr3)
      as (Hcommon3 & _ & _); auto.
    destruct (sched_delay (trace w2) (LWaiting RATE_LIMIT_DELAY (env_random E (ticks w2)))
                (env_random E (ticks w2)) Hrest2) as [(Hin3 & Hdr3 & Hb3) Howes3].
    fold evs in Hin3, Hdr3, Hb3, Howes3. rewrite <- Htr3 in Hin3, Hdr3, Hb3, Howes3.
    exists loc3, w3. split; [reflexivity | ]. split; [exact Hcommon3 | ].
    split.
    + unfold Filling. simpl downloadQueue. repeat split; auto.
    + unfold tally. simpl. unfold MAX_PARALLEL_DOWNLOAD. lia.
  - apply Nat.leb_gt in Hfull.
    exists loc, w. split; [reflexivity | ]. auto.
Qed.

Lemma forBody_run (H : Helpers) (E : Env) client details msg w0 loc w :
  Common w0 w loc ->
  Filling w loc ->
  (length (downloadQueue loc) < MAX_PARALLEL_DOWNLOAD)%nat ->
  exists loc' w',
    forBody H E client details msg loc w = (Ok loc', w') /\
    Common w0 w' loc' /\
    Filling w' loc' /\
    (length (downloadQueue loc') < MAX_PARALLEL_DOWNLOAD)%nat /\
    tally loc' = tally loc + mediaUnit msg.
Proof.
  intros Hcommon Hfill Hlt.
  destruct (queueOrSkip_run H E client details msg w0 loc w Hcommon Hfill Hlt)
    as (loc1 & w1 & Hrun1 & Hcommon1 & Hfill1 & Hle1 & Htally1).
  unfold forBody. rewrite (bind_ok _ _ _ _ _ Hrun1).
  destruct (processFullQueue_run H E client w0 loc1 w1 Hcommon1 Hfill1 Hle1)
    as (loc2 & w2 & Hrun2 & Hcommon2 & Hfill2 & Hlt2 & Htally2).
  exists loc2, w2. rewrite Htally2, Htally1. auto.
Qed.

Lemma forDetails_run (H : Helpers) (E : Env) client details w0 rest :
  forall loc w,
    Common w0 w loc ->
    Filling w loc ->
    (length (downloadQueue loc) < MAX_PARALLEL_DOWNLOAD)%nat ->
    exists loc' w',
      forDetails H E client details rest loc w = (Ok loc', w') /\
      Common w0 w' loc' /\
      Filling w' loc' /\
      (length (downloadQueue loc') < MAX_PARALLEL_DOWNLOAD)%nat /\
      tally loc' = tally loc + countMedia rest.
Proof.
  induction rest as [ | msg rest IH]; intros loc w Hcommon Hfill Hlt.
  - exists loc, w. split; [reflexivity | ].
    unfold countMedia. simpl. rewrite Z.add_0_r. auto.
  - destruct (forBody_run H E client details msg w0 loc w Hcommon Hfill Hlt)
      as (loc1 & w1 & Hrun1 & Hcommon1 & Hfill1 & Hlt1 & Htally1).
    cbn [forDetails]. rewrite (bind_ok _ _ _ _ _ Hrun1).
    destruct (IH loc1 w1 Hcommon1 Hfill1 Hlt1)
      as (loc2 & w2 & Hrun2 & Hcommon2 & Hfill2 & Hlt2 & Htally2).
    exists loc2, w2. rewrite countMedia_cons, Htally2, Htally1.
    split; [exact Hrun2 | ]. split; [exact Hcommon2 | ]. split; [exact Hfill2 | ].
    split; [exact Hlt2 | lia].
Qed.

Lemma common_start w0 :
  quiescent w0 ->
  Common w0 w0
    {| downloadQueue := []; currentBatchDownloaded := 0; currentBatchSkipped := 0 |} /\
  Filling w0
    {| downloadQueue := []; currentBatchDownloaded := 0; currentBatchSkipped := 0 |}.
Proof.
  intros [(Hin & Hdr & Hb) Howes]. split.
  - constructor; auto.
    + rewrite Hin. apply List.NoDup_nil.
    + exists []. rewrite app_nil_r, Hin. unfold awaitingCalls. simpl.
      repeat split; auto. unfold count. simpl. lia.
  - unfold Filling. simpl. repeat split; auto.
Qed.

Lemma runDownloads_run (H : Helpers) (E : Env) client details w0 :
  quiescent w0 ->
  exists loc w,
    runDownloads H E client details w0 = (Ok loc, w) /\
    Common w0 w loc /\
    quiescent w /\
    currentBatchDownloaded loc + currentBatchSkipped loc = countMedia details.
Proof.
  intros Hq. destruct (common_start w0 Hq) as [Hcommon0 Hfill0].
  destruct (forDetails_run H E client details w0 details _ w0 Hcommon0 Hfill0)
    as (loc1 & w1 & Hrun1 & Hcommon1 & Hfill1 & Hlt1 & Htally1).
  { simpl. unfold MAX_PARALLEL_DOWNLOAD. lia. }
  unfold tally in Htally1. simpl in Htally1.
  unfold runDownloads. rewrite (bind_ok _ _ _ _ _ Hrun1).
  destruct (0 <? length (downloadQueue loc1))%nat eqn:Hsome.
  - unfold bind at 1. simpl.
    set (w2 := with_trace
                 (fun tr => tr ++ [ELog (LProcessing (length (downloadQueue loc1)))]) w1).
    assert (Hcommon2 : Common w0 w2 loc1).
    { apply (common_neutral w0 w1 w2 loc1 loc1
               [ELog (LProcessing (length (downloadQueue loc1)))]); auto. }
    pose proof (filling_log w1 loc1 (LProcessing (length (downloadQueue loc1))) Hfill1)
      as Hfill2.
    destruct (promiseAll_run H E client w0 loc1 w2 Hcommon2 Hfill2)
      as (loc3 & w3 & Hrun3 & Hcommon3 & Hrest3 & Howes3 & _ & Hsk3 & _).
    pose proof (promiseAll_tally H E client w0 loc1 w2 loc3 w3 Hcommon2 Hfill2 Hrun3
                  Hcommon3 (proj1 Hrest3)) as Hcount.
    exists loc3, w3. split; [exact Hrun3 | ]. split; [exact Hcommon3 | ].
    split; [ | lia].
    split; [exact Hrest3 | ]. rewrite Howes3. apply Nat.leb_gt. exact Hlt1.
  - apply Nat.ltb_ge in Hsome.
    destruct Hfill1 as (Hin & Hdr & Howes & Hb & _).
    exists loc1, w1. split; [reflexivity | ]. split; [exact Hcommon1 | ].
    assert (Hnil : downloadQueue loc1 = []) by (destruct (downloadQueue loc1); [reflexivity | simpl in Hsome; lia]).
    rewrite Hnil in *. simpl in Htally1. unfold quiescent, resting.
    split; [auto | lia].
Qed.

(** ** The whole run *)

Lemma safely_refl w : safely w w.
Proof. intros Hs. exact Hs. Qed.

Lemma safely_trans w1 w2 w3 : safely w1 w2 -> safely w2 w3 -> safely w1 w3.
Proof. unfold safely. auto. Qed.

Lemma safe_calm tr evs : forallb calmE evs = true -> Safe tr -> Safe (tr ++ evs).
Proof.
  intros Hcalm (Hrule & Hsafe & Hrest & Howes).
  destruct (sched_calm tr evs Hcalm Hrest) as [Hrest' Howes'].
  split; [ | split; [ | split; [exact Hrest' | auto]]].
  - apply (Always_free queueRule calmE); auto using queueRule_calm.
  - apply (Always_free persistedSafely calmE); auto using persistedSafely_calm.
Qed.

Lemma safely_calm kf w w' : sameBut kf calmE w w' -> safely w w'.
Proof.
  intros [[evs [Htr Hcalm]] _ _ _ _ _ _ _] Hs. rewrite Htr.
  apply safe_calm; assumption.
Qed.

Lemma steps_safely_calm {A} kf (m : M A) :
  steps (sameBut kf calmE) m -> steps safely m.
Proof. intros Hm w. eapply safely_calm, Hm. Qed.

Lemma common_safe w0 w loc : Common w0 w loc -> quiescent w -> safely w0 w.
Proof.
  intros Hcommon [Hrest Howes] (Hrule & Hsafe & _ & _).
  split; [apply (cm_rule _ _ _ Hcommon Hrule) | ].
  split; [apply (cm_safe _ _ _ Hcommon Hsafe) | ]. auto.
Qed.

Lemma safe_append tr file data : Safe tr -> Safe (tr ++ [EAppendJSON file data]).
Proof.
  intros (Hrule & Hsafe & Hrest & Howes).
  split; [apply Always_snoc; [exact Hrule | exact I] | ].
  split; [apply Always_snoc; [exact Hsafe | apply Hrest] | ].
  rewrite sched_snoc. simpl. auto.
Qed.

Lemma safe_cursor tr c :
  Safe tr -> lastPage tr = Some c -> Safe (tr ++ [EUpdateLastSelection c]).
Proof.
  intros (Hrule & Hsafe & Hrest & Howes) Hpage.
  split; [apply Always_snoc; [exact Hrule | exact I] | ].
  split; [apply Always_snoc; [exact Hsafe | split; [apply Hrest | exact Hpage]] | ].
  rewrite sched_snoc. simpl. auto.
Qed.

(** What an attempt establishes whenever it returns holds when the loop
    returns a result. *)
Lemma retryLoop_result {A} (E : Env) (fn : M A) (P : A -> World -> Prop) :
  (forall w a w', fn w = (Ok a, w') -> P a w') ->
  forall remaining retries i w a w',
    retryLoop E fn retries i remaining w = (Ok (Some a), w') -> P a w'.
Proof.
  intros Hfn. induction remaining as [ | remaining IH]; intros retries i w a w' Hrun.
  - discriminate.
  - simpl in Hrun. unfold try_catch in Hrun.
    destruct (checkRateLimit_run E w) as (w1 & Hgate & _).
    rewrite (bind_ok _ _ _ _ _ Hgate) in Hrun. unfold bind at 1 in Hrun.
    destruct (fn w1) as [[b | e | ] w2] eqn:Hfn1.
    + simpl in Hrun. injection Hrun as <- <-. eapply Hfn; eassumption.
    + unfold bind at 1 in Hrun. simpl in Hrun.
      destruct (i =? retries - 1)%nat; [discriminate | ].
      unfold bind at 1 in Hrun. simpl in Hrun.
      unfold bind at 1 in Hrun. rewrite wait_run in Hrun. cbv zeta in Hrun.
      eapply IH; eassumption.
    + discriminate.
Qed.

Lemma getMessages_page (E : Env) client channelId offsetId w messages w' :
  getMessages E client channelId MESSAGE_LIMIT offsetId w = (Ok messages, w') ->
  lastPage (trace w') = pageOf messages.
Proof.
  unfold getMessages.
  destruct (negb (isSome client) || negb (truthy channelId)); [discriminate | ].
  unfold try_catch, clientGetMessages, bind, tick, emit, gets, modify. simpl.
  destruct (env_getMessages E (ticks w) channelId (QHistory MESSAGE_LIMIT offsetId))
    as [ms | e]; simpl; intros Heq; [ | discriminate].
  injection Heq as <- <-. simpl. rewrite lastPage_snoc. reflexivity.
Qed.

Lemma fetchPage_page (H : Helpers) (E : Env) fuel client channelId offsetMsgId
    w messages w' :
  fetchPage H E fuel client channelId offsetMsgId w = (Ok (Some messages), w') ->
  lastPage (trace w') = pageOf messages.
Proof.
  unfold fetchPage. destruct (js_toString channelId); [ | discriminate].
  intros Hrun. unfold bind at 1 in Hrun. simpl in Hrun.
  unfold bind at 1 in Hrun.
  match type of Hrun with
  | context [match ?c ?w1 with _ => _ end] =>
      destruct (c w1) as [[[] | e | ] w2]; try discriminate
  end.
  unfold retryWithBackoff in Hrun.
  apply (retryLoop_result E _ (fun a w => lastPage (trace w) = pageOf a)) in Hrun;
    [exact Hrun | ].
  intros. eapply getMessages_page. eassumption.
Qed.

Lemma recordMessages_safe (H : Helpers) (E : Env) details w :
  Safe (trace w) ->
  Safe (trace (snd (recordMessages H E details w))) /\
  lastPage (trace (snd (recordMessages H E details w))) = lastPage (trace w).
Proof.
  intros Hs. unfold recordMessages, appendToJSONArrayFile, bind, gets, tick, modify, emit.
  simpl. destruct (env_appendFile E (ticks w) _); simpl.
  - split; [apply safe_append; exact Hs | ]. rewrite lastPage_snoc. reflexivity.
  - auto.
Qed.

Lemma updateLastSelection_safe (E : Env) c w :
  Safe (trace w) -> lastPage (trace w) = Some c ->
  Safe (trace (snd (updateLastSelection E c w))).
Proof.
  intros Hs Hpage. unfold updateLastSelection, bind, gets, tick, modify, emit.
  simpl. destruct (env_saveSelection E (ticks w)); simpl.
  - apply safe_cursor; assumption.
  - exact Hs.
Qed.

Lemma recordMessages_run (H : Helpers) (E : Env) details w w' :
  recordMessages H E details w = (Ok tt, w') ->
  exists file data,
    trace w' = trace w ++ [EAppendJSON file data] /\
    exportLog w' = exportLog w ++ [(file, data)] /\
    messageOffsetId w' = messageOffsetId w.
Proof.
  unfold recordMessages, appendToJSONArrayFile, bind, gets, tick, modify, emit.
  simpl. destruct (env_appendFile E (ticks w) _); simpl; [ | discriminate].
  intros Heq. injection Heq as <-. simpl. eauto.
Qed.

Lemma updateLastSelection_run (E : Env) c w w' :
  updateLastSelection E c w = (Ok tt, w') ->
  trace w' = trace w ++ [EUpdateLastSelection c] /\
  exportLog w' = exportLog w /\
  messageOffsetId w' = Some c.
Proof.
  unfold updateLastSelection, bind, gets, tick, modify, emit.
  simpl. destruct (env_saveSelection E (ticks w)); simpl; [ | discriminate].
  intros Heq. injection Heq as <-. simpl. auto.
Qed.

Lemma report_safe (E : Env) a b :
  steps safely (showProgress a b ;;; wait E RATE_LIMIT_DELAY).
Proof.
  apply (steps_safely_calm true).
  apply sb_bind; [apply sb_showProgress | intros _; apply sb_wait]; reflexivity.
Qed.

Lemma processPage_safe (H : Helpers) (E : Env) client channelId messages w :
  Safe (trace w) ->
  lastPage (trace w) = Some (lastId messages) ->
  Safe (trace (snd (processPage H E client channelId messages w))).
Proof.
  intros Hs Hpage. unfold processPage.
  assert (Hframe : steps (sameBut true keepE)
                     (retryWithBackoff E
                        (getMessageDetail E client channelId (Some (map msg_id messages)))
                        MAX_RETRIES)).
  { apply sb_retryWithBackoff; [reflexivity | reflexivity | ].
    apply sb_getMessageDetail; reflexivity. }
  specialize (Hframe w).
  destruct (retryWithBackoff E _ MAX_RETRIES w) as [[d | e | ] w1] eqn:Hd;
    simpl in Hframe.
  2, 3: rewrite ?(bind_throw _ _ _ _ _ Hd), ?(bind_outOfFuel _ _ _ _ Hd); simpl;
    apply (safely_calm false w w1); [ | exact Hs];
    apply (sameBut_weaken true keepE calmE); auto using keepE_calm.
  rewrite (bind_ok _ _ _ _ _ Hd).
  assert (Hs1 : Safe (trace w1)).
  { apply (safely_calm false w w1); [ | exact Hs].
    apply (sameBut_weaken true keepE calmE); auto using keepE_calm. }
  assert (Hpage1 : lastPage (trace w1) = Some (lastId messages)).
  { destruct Hframe as [[evs [Htr Hkeep]] _ _ _ _ _ _ _]. rewrite Htr.
    rewrite (lastPage_keep keepE); auto using pageStep_keep. }
  destruct d as [details | ]; [ | exact Hs1].
  assert (Hq1 : quiescent w1) by (split; apply Hs1).
  destruct (runDownloads_run H E client details w1 Hq1)
    as (loc & w2 & Hrun & Hcommon & Hq2 & _).
  rewrite (bind_ok _ _ _ _ _ Hrun).
  pose proof (common_safe w1 w2 loc Hcommon Hq2 Hs1) as Hs2.
  assert (Hpage2 : lastPage (trace w2) = Some (lastId messages)).
  { rewrite (cm_page _ _ _ Hcommon). exact Hpage1. }
  destruct (recordMessages_safe H E details w2 Hs2) as [Hs3 Hpage3].
  rewrite Hpage2 in Hpage3.
  destruct (recordMessages H E details w2) as [[[] | e | ] w3] eqn:Hrec;
    simpl in Hs3, Hpage3.
  2, 3: rewrite ?(bind_throw _ _ _ _ _ Hrec), ?(bind_outOfFuel _ _ _ _ Hrec); exact Hs3.
  rewrite (bind_ok _ _ _ _ _ Hrec).
  pose proof (updateLastSelection_safe E (lastId messages) w3 Hs3 Hpage3) as Hs4.
  destruct (updateLastSelection E (lastId messages) w3) as [[[] | e | ] w4] eqn:Hupd;
    simpl in Hs4.
  2, 3: rewrite ?(bind_throw _ _ _ _ _ Hupd), ?(bind_outOfFuel _ _ _ _ Hupd); exact Hs4.
  rewrite (bind_ok _ _ _ _ _ Hupd).
  apply report_safe. exact Hs4.
Qed.

Lemma processPage_persists (H : Helpers) (E : Env) client channelId messages w w' :
  quiescent w ->
  processPage H E client channelId messages w = (Ok tt, w') ->
  pagePersisted messages w w'.
Proof.
  intros [Hrest Howes] Hrun. unfold processPage in Hrun.
  assert (Hframe : steps (sameBut true keepE)
                     (retryWithBackoff E
                        (getMessageDetail E client channelId (Some (map msg_id messages)))
                        MAX_RETRIES)).
  { apply sb_retryWithBackoff; [reflexivity | reflexivity | ].
    apply sb_getMessageDetail; reflexivity. }
  specialize (Hframe w).
  destruct (retryWithBackoff E _ MAX_RETRIES w) as [[d | e | ] w1] eqn:Hd;
    simpl in Hframe;
    rewrite ?(bind_ok _ _ _ _ _ Hd), ?(bind_throw _ _ _ _ _ Hd),
      ?(bind_outOfFuel _ _ _ _ Hd) in Hrun; try discriminate.
  destruct d as [details | ]; [ | discriminate].
  destruct Hframe as [[evs0 [Htr0 Hkeep0]] _ Hl0 Hc0 _ _ _ _].
  destruct (keep_counts evs0 Hkeep0) as (Hp0 & Hcr0 & Hse0 & _).
  assert (Hq1 : quiescent w1).
  { destruct (sched_calm (trace w) evs0 (keep_calm evs0 Hkeep0) Hrest) as [Hrest1 Howes1].
    rewrite <- Htr0 in Hrest1, Howes1. split; auto. }
  destruct (runDownloads_run H E client details w1 Hq1)
    as (loc & w2 & Hrun2 & Hcommon & [(Hidle & _) _] & _).
  rewrite (bind_ok _ _ _ _ _ Hrun2) in Hrun.
  destruct (cm_account _ _ _ Hcommon) as (evs & Htr2 & Hp2 & Hc2 & _).
  rewrite Hidle in Hc2. simpl in Hc2. rewrite Nat.add_0_r in Hc2.
  destruct (recordMessages H E details w2) as [[[] | e | ] w3] eqn:Hrec;
    rewrite ?(bind_ok _ _ _ _ _ Hrec), ?(bind_throw _ _ _ _ _ Hrec),
      ?(bind_outOfFuel _ _ _ _ Hrec) in Hrun; try discriminate.
  destruct (recordMessages_run H E details w2 w3 Hrec) as (file & data & Htr3 & Hl3 & Hc3).
  destruct (updateLastSelection E (lastId messages) w3) as [[[] | e | ] w4] eqn:Hupd;
    rewrite ?(bind_ok _ _ _ _ _ Hupd), ?(bind_throw _ _ _ _ _ Hupd),
      ?(bind_outOfFuel _ _ _ _ Hupd) in Hrun; try discriminate.
  destruct (updateLastSelection_run E (lastId messages) w3 w4 Hupd) as (Htr4 & Hl4 & Hc4).
  assert (Hreport : sameBut true calmE w4 w').
  { assert (Hsb : steps (sameBut true calmE)
                    (showProgress (currentBatchDownloaded loc) (currentBatchSkipped loc) ;;;
                     wait E RATE_LIMIT_DELAY)).
    { apply sb_bind; [apply sb_showProgress | intros _; apply sb_wait]; reflexivity. }
    specialize (Hsb w4). rewrite Hrun in Hsb. exact Hsb. }
  destruct Hreport as [[after [Htr5 Hcalm5]] _ Hl5 Hc5 _ _ _ _].
  exists (evs0 ++ evs), file, data, after.
  split.
  { rewrite Htr5, Htr4, Htr3, Htr2, Htr0, <- !app_assoc. reflexivity. }
  rewrite !count_app, Hp0, Hp2, Hcr0, Hse0, Hc2.
  split; [reflexivity | ]. split; [reflexivity | ]. split; [exact Hcalm5 | ].
  split; [ | congruence].
  rewrite Hl5, Hl4, Hl3, (cm_exportLog _ _ _ Hcommon), Hl0. reflexivity.
Qed.

Lemma downloadChannel_safe (H : Helpers) (E : Env) client channelId fuel :
  forall offsetMsgId,
    steps safely (downloadChannel H E fuel client channelId offsetMsgId).
Proof.
  induction fuel as [ | fuel IH]; intros offsetMsgId; simpl.
  - apply (steps_outOfFuel safely safely_refl).
  - apply (steps_try_catch safely safely_trans).
    + intros w Hs. unfold tryBlock.
      pose proof (sb_fetchPage H E true calmE (fun _ => eq_refl) fuel client channelId
                    offsetMsgId (fun _ _ => eq_refl) (fun _ _ => eq_refl) w) as Hframe.
      pose proof (safely_calm true _ _ Hframe Hs) as Hs1.
      destruct (fetchPage H E fuel client channelId offsetMsgId w)
        as [[r | e | ] w1] eqn:Hfetch; simpl in Hs1.
      2, 3: rewrite ?(bind_throw _ _ _ _ _ Hfetch), ?(bind_outOfFuel _ _ _ _ Hfetch);
        exact Hs1.
      rewrite (bind_ok _ _ _ _ _ Hfetch).
      destruct r as [[ | m ms] | ]; [ | | exact Hs1].
      * apply (steps_safely_calm true); [ | exact Hs1].
        apply sb_bind; [apply sb_log | intros _; apply sb_showProgress]; reflexivity.
      * pose proof (fetchPage_page H E fuel client channelId offsetMsgId w (m :: ms) w1
                      Hfetch) as Hpage.
        pose proof (processPage_safe H E client channelId (m :: ms) w1 Hs1 Hpage) as Hs2.
        destruct (processPage H E client channelId (m :: ms) w1)
          as [[[] | e | ] w2] eqn:Hproc; simpl in Hs2.
        2, 3: rewrite ?(bind_throw _ _ _ _ _ Hproc), ?(bind_outOfFuel _ _ _ _ Hproc);
          exact Hs2.
        rewrite (bind_ok _ _ _ _ _ Hproc). apply IH. exact Hs2.
    + intros err. unfold catchBlock.
      apply (steps_bind safely safely_trans).
      * apply (steps_safely_calm true), sb_log. reflexivity.
      * intros _. destruct (isFloodWait err).
        -- apply (steps_bind safely safely_trans);
             [apply (steps_safely_calm true), sb_log; reflexivity | intros _].
           apply (steps_bind safely safely_trans);
             [apply (steps_safely_calm true), sb_wait; reflexivity | intros _].
           apply IH.
        -- apply (steps_throw safely safely_refl).
Qed.

Lemma safe_nil : Safe [].
Proof.
  split; [apply Always_nil | ]. split; [apply Always_nil | ].
  split; [ | reflexivity]. repeat split.
Qed.

Lemma downloadChannel_run_safe (H : Helpers) (E : Env) fuel client channelId
    offsetMsgId w :
  trace w = [] ->
  Safe (trace (snd (downloadChannel H E fuel client channelId offsetMsgId w))).
Proof.
  intros Hfresh. apply downloadChannel_safe. rewrite Hfresh. apply safe_nil.
Qed.

(** Under the batch discipline the queue never holds more than
    [MAX_PARALLEL_DOWNLOAD] promises. *)
Lemma inFlight_bound tr :
  Always queueRule tr -> (length (inFlight (sched tr)) <= MAX_PARALLEL_DOWNLOAD)%nat.
Proof.
  induction tr as [ | e tr IH] using rev_ind; intros Hall.
  - simpl. unfold MAX_PARALLEL_DOWNLOAD. lia.
  - pose proof (Always_prefix _ _ _ Hall) as Hpre. specialize (IH Hpre).
    pose proof (Hall tr e [] eq_refl) as He.
    rewrite sched_snoc. destruct e; simpl; auto.
    + destruct ((ms =? RATE_LIMIT_DELAY) && isNil (inFlight (sched tr))); simpl; auto.
    + destruct He as (Hlt & _). rewrite List.length_app. simpl. lia.
    + etransitivity; [apply List.filter_length_le | exact IH].
Qed.

(** A promise that was created is in flight until its settlement is in
    the trace. *)
Lemma created_settled tr id :
  In (EPromiseCreated id) tr ->
  In id (inFlight (sched tr)) \/ exists result, In (EPromiseSettled id result) tr.
Proof.
  induction tr as [ | e tr IH] using rev_ind; intros Hin; [destruct Hin | ].
  apply in_app_or in Hin. rewrite sched_snoc.
  assert (Hkeep :
            In id (inFlight (sched tr)) \/
            (exists result, In (EPromiseSettled id result) tr) ->
            In id (inFlight (schedStep (sched tr) e)) \/
            (exists result, In (EPromiseSettled id result) (tr ++ [e]))).
  { intros [Hfl | [r Hr]].
    - destruct e; simpl; auto.
      + destruct ((ms =? RATE_LIMIT_DELAY) && isNil (inFlight (sched tr))); simpl; auto.
      + left. apply in_or_app. left. exact Hfl.
      + destruct (Nat.eq_dec id id0) as [<- | Hne].
        * right. exists result. apply in_or_app. right. left. reflexivity.
        * left. apply List.filter_In. split; [exact Hfl | ].
          apply negb_true_iff, Nat.eqb_neq. exact Hne.
    - right. exists r. apply in_or_app. left. exact Hr. }
  destruct Hin as [Hin | [Heq | []]].
  - apply Hkeep, IH, Hin.
  - subst e. left. simpl. apply in_or_app. right. left. reflexivity.
Qed.

(** Once a promise has settled, the queue is not draining only if it
    has been empty since. *)
Lemma settled_then_idle s id result evs :
  draining (fold_left schedStep evs (schedStep s (EPromiseSettled id result))) = false ->
  exists a b,
    evs = a ++ b /\
    inFlight (fold_left schedStep a (schedStep s (EPromiseSettled id result))) = [].
Proof.
  induction evs as [ | e evs IH] using rev_ind.
  - intros Hdr. exists [], []. split; [reflexivity | ]. simpl in *.
    destruct (List.filter _ (inFlight s)); [reflexivity | discriminate].
  - rewrite fold_left_app. cbn [fold_left].
    set (st := fold_left schedStep evs (schedStep s (EPromiseSettled id result))) in *.
    intros Hdr.
    assert (Hkeep : draining st = false ->
                    exists a b,
                      evs ++ [e] = a ++ b /\
                      inFlight (fold_left schedStep a
                                  (schedStep s (EPromiseSettled id result))) = []).
    { intros Hst. destruct (IH Hst) as (a & b & Hsplit & Hidle).
      exists a, (b ++ [e]). rewrite Hsplit, <- app_assoc. auto. }
    destruct e; try (apply Hkeep; exact Hdr).
    + apply Hkeep. simpl in Hdr.
      destruct ((ms =? RATE_LIMIT_DELAY) && isNil (inFlight st)); exact Hdr.
    + exists (evs ++ [EPromiseSettled id0 result0]), [].
      split; [rewrite app_nil_r; reflexivity | ].
      rewrite fold_left_app. cbn [fold_left]. fold st. simpl in *.
      destruct (List.filter _ (inFlight st)); [reflexivity | discriminate].
Qed.


(** ** Persistence and the download queue over a whole run *)

(** C1: in a run of [downloadChannel], however it ends, whenever the
    export log is appended to or the cursor is saved, every download
    promise created before that point has settled before it, and a cursor
    that is saved is the id of the last message of the page that was fetched
    last ([p] is the run up to the persistence step [e]).  And a page that
    is processed to its end, from a world with no promise in flight, is
    persisted in that order: its downloads settle, its records are appended
    to the export log, and the id of its last message is saved as the
    cursor. *)
Theorem persisted_after_downloads_settle (H : Helpers) (E : Env)
    (client : option Client) (channelId : JsVal) :
  (forall (fuel : nat) (offsetMsgId : Z) (w : World) (p q : list Event) (e : Event),
     trace w = [] ->
     trace (snd (downloadChannel H E fuel client channelId offsetMsgId w)) = p ++ e :: q ->
     isPersist e = true ->
     inFlight (sched p) = [] /\
     (forall id, In (EPromiseCreated id) p ->
                 exists result, In (EPromiseSettled id result) p) /\
     (forall c, e = EUpdateLastSelection c -> lastPage p = Some c)) /\
  (forall (messages : list Message) (w w' : World),
     quiescent w ->
     processPage H E client channelId messages w = (Ok tt, w') ->
     pagePersisted messages w w').
Proof.
  split; [ | apply processPage_persists].
  intros fuel offsetMsgId w p q e Hfresh Htr Hpersist.
  destruct (downloadChannel_run_safe H E fuel client channelId offsetMsgId w Hfresh)
    as (_ & Hsafe & _).
  specialize (Hsafe p e q Htr).
  assert (Hidle : inFlight (sched p) = []).
  { destruct e; try discriminate; simpl in Hsafe; [exact Hsafe | apply Hsafe]. }
  split; [exact Hidle | ]. split.
  - intros id Hin. destruct (created_settled p id Hin) as [Hfl | Hs]; [ | exact Hs].
    rewrite Hidle in Hfl. destruct Hfl.
  - intros c ->. apply Hsafe.
Qed.

(** A page of three messages, one with a photo whose download fails: the
    cursor 3 is saved as the twenty-first event of the run, and the page
    is persisted. *)
Lemma persisted_after_downloads_settle_witness :
  let E := channelEnv threeMessages true None steadyClock in
  let w := initialWorld (allowing "photo" (JBool true)) in
  let tr := trace (snd (downloadChannel exampleHelpers E 3 (Some TelegramClient)
                          (JNum 42) 0 w)) in
  (nth_error tr 20 = Some (EUpdateLastSelection 3) /\
   inFlight (sched (firstn 20 tr)) = [] /\
   (forall id, In (EPromiseCreated id) (firstn 20 tr) ->
               exists result, In (EPromiseSettled id result) (firstn 20 tr)) /\
   (forall c, EUpdateLastSelection 3 = EUpdateLastSelection c ->
              lastPage (firstn 20 tr) = Some c)) /\
  pagePersisted threeMessages w
    (snd (processPage exampleHelpers E (Some TelegramClient) (JNum 42) threeMessages w)).
Proof.
  cbv zeta.
  pose proof (persisted_after_downloads_settle exampleHelpers
                (channelEnv threeMessages true None steadyClock)
                (Some TelegramClient) (JNum 42)) as [Hrun Hpage].
  split; [split; [vm_compute; reflexivity | ] | ].
  - eapply (Hrun 3%nat 0 (initialWorld (allowing "photo" (JBool true)))).
    + reflexivity.
    + vm_compute. reflexivity.
    + reflexivity.
  - apply Hpage.
    + split; [repeat split | reflexivity].
    + vm_compute. reflexivity.
Defined.

(** C4: in a run of [downloadChannel], however it ends, at most
    [MAX_PARALLEL_DOWNLOAD] promises are in flight at any point [p] of the
    run.  Where the next event creates a promise, fewer than
    [MAX_PARALLEL_DOWNLOAD] are in flight; the batch before has settled as
    a whole: after any settlement in [p] there is a point of [p] at which
    no promise is in flight; and the [RATE_LIMIT_DELAY] timer that follows
    a full batch has been set. *)
Theorem batch_bound_and_barrier (H : Helpers) (E : Env) (fuel : nat)
    (client : option Client) (channelId : JsVal) (offsetMsgId : Z) (w : World)
    (p q : list Event) :
  trace w = [] ->
  trace (snd (downloadChannel H E fuel client channelId offsetMsgId w)) = p ++ q ->
  (length (inFlight (sched p)) <= MAX_PARALLEL_DOWNLOAD)%nat /\
  (forall id q', q = EPromiseCreated id :: q' ->
     (length (inFlight (sched p)) < MAX_PARALLEL_DOWNLOAD)%nat /\
     draining (sched p) = false /\
     owesDelay (sched p) = false /\
     (forall p1 id1 result p2,
        p = p1 ++ EPromiseSettled id1 result :: p2 ->
        exists a b,
          p2 = a ++ b /\
          inFlight (sched (p1 ++ EPromiseSettled id1 result :: a)) = [])).
Proof.
  intros Hfresh Htr.
  destruct (downloadChannel_run_safe H E fuel client channelId offsetMsgId w Hfresh)
    as (Hrule & _).
  rewrite Htr in Hrule. split.
  - apply inFlight_bound. eapply Always_prefix. exact Hrule.
  - intros id q' ->. destruct (Hrule p (EPromiseCreated id) q' eq_refl)
      as (Hlt & Hdr & Howes & _).
    split; [exact Hlt | ]. split; [exact Hdr | ]. split; [exact Howes | ].
    intros p1 id1 result p2 ->. rewrite sched_app in Hdr. simpl in Hdr.
    destruct (settled_then_idle _ id1 result p2 Hdr) as (a & b & Hsplit & Hidle).
    exists a, b. split; [exact Hsplit | ]. rewrite sched_app. exact Hidle.
Qed.

(** A page of thirteen photos: the thirteenth promise is created as the
    125th event of the run, after the twelve before it have settled. *)
Lemma batch_bound_and_barrier_witness :
  let E := channelEnv (photos 13) false None steadyClock in
  let w := initialWorld (allowing "photo" (JBool true)) in
  let tr := trace (snd (downloadChannel exampleHelpers E 3 (Some TelegramClient)
                          (JNum 42) 0 w)) in
  (length (inFlight (sched (firstn 124 tr))) <= MAX_PARALLEL_DOWNLOAD)%nat /\
  (forall id q', skipn 124 tr = EPromiseCreated id :: q' ->
     (length (inFlight (sched (firstn 124 tr))) < MAX_PARALLEL_DOWNLOAD)%nat /\
     draining (sched (firstn 124 tr)) = false /\
     owesDelay (sched (firstn 124 tr)) = false /\
     (forall p1 id1 result p2,
        firstn 124 tr = p1 ++ EPromiseSettled id1 result :: p2 ->
        exists a b,
          p2 = a ++ b /\
          inFlight (sched (p1 ++ EPromiseSettled id1 result :: a)) = [])).
Proof.
  cbv zeta.
  eapply (batch_bound_and_barrier exampleHelpers
            (channelEnv (photos 13) false None steadyClock) 3
            (Some TelegramClient) (JNum 42) 0
            (initialWorld (allowing "photo" (JBool true)))).
  - reflexivity.
  - symmetry. apply firstn_skipn.
Defined.

(** In that run twelve promises are in flight after the twelfth was
    created, and the thirteenth is created with none in flight. *)
Example thirteen_photos_two_batches :
  let E := channelEnv (photos 13) false None steadyClock in
  let w := initialWorld (allowing "photo" (JBool true)) in
  let tr := trace (snd (downloadChannel exampleHelpers E 3 (Some TelegramClient)
                          (JNum 42) 0 w)) in
  length (inFlight (sched (firstn 45 tr))) = 12%nat /\
  nth_error tr 124 = Some (EPromiseCreated 12) /\
  inFlight (sched (firstn 124 tr)) = [] /\
  count isCreated tr = 13%nat.
Proof. vm_compute. auto. Qed.



(** In that run the one promise settles with [false], and both counters
    are 1. *)
Example failed_download_counted :
  let E := channelEnv threeMessages true None steadyClock in
  let w0 := initialWorld (allowing "photo" (JBool true)) in
  let run := runDownloads exampleHelpers E (Some TelegramClient) threeMessages w0 in
  count (isSettledWith false) (trace (snd run)) = 1%nat /\
  count (isSettledWith true) (trace (snd run)) = 0%nat /\
  totalDownloaded (this (snd run)) = 1 /\
  (exists loc, fst run = Ok loc /\ currentBatchDownloaded loc = 1).
Proof. vm_compute. eauto 6. Qed.

(** * Further properties of the code *)

(** ** The message operations and the client's answers *)

Lemma getMessages_run (E : Env) client channelId limit offsetId w :
  isSome client = true ->
  truthy channelId = true ->
  getMessages E client channelId limit offsetId w =
    (match env_getMessages E (ticks w) channelId (QHistory limit offsetId) with
     | Resolved messages => Ok messages
     | Rejected e => Throw (newError ("Failed to get messages: " +:+ err_message e))
     end,
     with_trace
       (fun tr => tr ++ [EGetMessages channelId (QHistory limit offsetId)
                           (env_getMessages E (ticks w) channelId
                              (QHistory limit offsetId))])
       (with_ticks S w)).
Proof.
  intros Hc Hch. unfold getMessages. rewrite Hc, Hch. simpl.
  unfold try_catch, clientGetMessages, bind, tick, emit, modify, throw, ret. simpl.
  destruct (env_getMessages E (ticks w) channelId (QHistory limit offsetId)); reflexivity.
Qed.

Lemma getMessageDetail_run (E : Env) client channelId ids w :
  isSome client = true ->
  truthy channelId = true ->
  getMessageDetail E client channelId (Some ids) w =
    (match env_getMessages E (ticks w) channelId (QByIds ids) with
     | Resolved messages => Ok messages
     | Rejected e => Throw (newError ("Failed to get message details: " +:+ err_message e))
     end,
     with_trace
       (fun tr => tr ++ [EGetMessages channelId (QByIds ids)
                           (env_getMessages E (ticks w) channelId (QByIds ids))])
       (with_ticks S w)).
Proof.
  intros Hc Hch. unfold getMessageDetail. destruct client; [ | discriminate].
  rewrite Hch.
  unfold try_catch, clientGetMessages, bind, tick, emit, modify, throw, ret. simpl.
  destruct (env_getMessages E (ticks w) channelId (QByIds ids)); reflexivity.
Qed.

(** X1: called with their arguments, [getMessages] and [getMessageDetail]
    ask the client once; they return its answer as it is, and when the
    client rejects they throw a new error whose message is the client's,
    after a prefix that names the operation.  Neither changes anything but
    the trace. *)
Theorem client_answer_returned_or_wrapped (E : Env) (client : option Client)
    (channelId : JsVal) (limit offsetId : Z) (ids : list Z) (w : World) :
  isSome client = true ->
  truthy channelId = true ->
  let history := env_getMessages E (ticks w) channelId (QHistory limit offsetId) in
  let details := env_getMessages E (ticks w) channelId (QByIds ids) in
  let w1 := snd (getMessages E client channelId limit offsetId w) in
  let w2 := snd (getMessageDetail E client channelId (Some ids) w) in
  fst (getMessages E client channelId limit offsetId w) =
    match history with
    | Resolved messages => Ok messages
    | Rejected e => Throw (newError ("Failed to get messages: " +:+ err_message e))
    end /\
  trace w1 = trace w ++ [EGetMessages channelId (QHistory limit offsetId) history] /\
  this w1 = this w /\ files w1 = files w /\ promises w1 = promises w /\
  fst (getMessageDetail E client channelId (Some ids) w) =
    match details with
    | Resolved messages => Ok messages
    | Rejected e => Throw (newError ("Failed to get message details: " +:+ err_message e))
    end /\
  trace w2 = trace w ++ [EGetMessages channelId (QByIds ids) details] /\
  this w2 = this w /\ files w2 = files w /\ promises w2 = promises w.
Proof.
  intros Hc Hch. cbv zeta.
  rewrite (getMessages_run E client channelId limit offsetId w Hc Hch).
  rewrite (getMessageDetail_run E client channelId ids w Hc Hch).
  simpl. repeat split; reflexivity.
Qed.

Lemma client_answer_returned_or_wrapped_witness :
  let E := channelEnv threeMessages false (Some "ETIMEDOUT") steadyClock in
  let w := initialWorld constructor in
  fst (getMessages E (Some TelegramClient) (JNum 42) 10 0 w) =
    Throw (newError "Failed to get messages: ETIMEDOUT") /\
  fst (getMessageDetail E (Some TelegramClient) (JNum 42) (Some [1; 2]) w) =
    Throw (newError "Failed to get message details: ETIMEDOUT").
Proof.
  cbv zeta.
  destruct (client_answer_returned_or_wrapped
              (channelEnv threeMessages false (Some "ETIMEDOUT") steadyClock)
              (Some TelegramClient) (JNum 42) 10 0 [1; 2] (initialWorld constructor)
              eq_refl eq_refl)
    as (Hm & _ & _ & _ & _ & Hd & _).
  split; [exact Hm | exact Hd].
Defined.

(** ** The flood marker under wrapping *)

Lemma wrapped_includes (m : string) :
  includes "FLOOD_WAIT" ("Failed to get messages: " +:+ m) = includes "FLOOD_WAIT" m /\
  includes "FLOOD_WAIT" ("Failed to get message details: " +:+ m) =
    includes "FLOOD_WAIT" m.
Proof. split; reflexivity. Qed.

Lemma wrapped_digits (m : string) :
  matchDigits ("Failed to get messages: " +:+ m) = matchDigits m /\
  matchDigits ("Failed to get message details: " +:+ m) = matchDigits m.
Proof. split; reflexivity. Qed.

(** X2: the prefix that [getMessages] and [getMessageDetail] put before
    the client's error message neither hides nor forges the flood marker,
    and holds no digit: the wrapped error is a flood error exactly when the
    client's message holds "FLOOD_WAIT", and [downloadChannel] reads from it
    the waiting time it would read from the client's message. *)
Theorem wrapping_keeps_flood_wait (m : string) :
  let e1 := newError ("Failed to get messages: " +:+ m) in
  let e2 := newError ("Failed to get message details: " +:+ m) in
  isFloodWait e1 = includes "FLOOD_WAIT" m /\
  isFloodWait e2 = includes "FLOOD_WAIT" m /\
  floodWaitTime (err_message e1) = floodWaitTime m /\
  floodWaitTime (err_message e2) = floodWaitTime m.
Proof.
  cbv zeta. unfold isFloodWait, floodWaitTime. simpl err_message.
  destruct (wrapped_includes m) as [-> ->].
  destruct (wrapped_digits m) as [-> ->].
  repeat split; reflexivity.
Qed.

(** ** Waiting and the rate limiter *)

(** [wait(ms)] never fails; it logs one line and sets one timer, whose
    delay is at least [ms] and less than a second more; it changes nothing
    else. *)
Theorem wait_sleeps_at_least (E : Env) (ms : Z) (w : World) :
  exists r,
    wait E ms w =
      (Ok tt,
       with_trace (fun tr => (tr ++ [ELog (LWaiting ms r)]) ++ [ETimeout ms r])
         (with_ticks S w)) /\
    (inject_Z ms <= timeoutDelay ms r)%Q /\
    (timeoutDelay ms r < inject_Z ms + 1000)%Q.
Proof.
  exists (env_random E (ticks w)). split; [apply wait_run | apply jitter_bounds].
Qed.

Lemma burst_run (E : Env) (n : nat) :
  forall w,
    requestCount (this w) + Z.of_nat n <= 11 ->
    exists w',
      repeatM n (checkRateLimit E) w = (Ok tt, w') /\
      trace w' = trace w /\
      requestCount (this w') = requestCount (this w) + Z.of_nat n /\
      ticks w' = (ticks w + n)%nat /\
      (0 < n -> lastRequestTime (this w') = env_now E (ticks w + n - 1))%nat.
Proof.
  induction n as [ | n IH]; intros w Hle.
  - exists w. simpl. rewrite Z.add_0_r, Nat.add_0_r.
    repeat split; auto. intros Hn. inversion Hn.
  - destruct (checkRateLimit_run E w) as (w1 & Hgate & Htime & Htr & Hcount).
    cbv zeta in Htime, Htr, Hcount.
    assert (Hfree : tooManyRequests (this w) (env_now E (ticks w)) = false).
    { unfold tooManyRequests. replace (10 <? requestCount (this w)) with false; [reflexivity | ].
      symmetry. apply Z.ltb_ge. lia. }
    rewrite Hfree in Htr, Hcount. rewrite app_nil_r in Htr.
    assert (Hticks : ticks w1 = S (ticks w)).
    { unfold checkRateLimit, dateNow, bind, tick, gets, ret, recordRequest, modify in Hgate.
      simpl in Hgate. rewrite Hfree in Hgate. simpl in Hgate.
      injection Hgate as <-. reflexivity. }
    destruct (IH w1) as (w' & Hrun & Htr' & Hcount' & Hticks' & Htime'); [lia | ].
    exists w'. cbn [repeatM]. rewrite (bind_ok _ _ _ _ _ Hgate).
    split; [exact Hrun | ]. split; [congruence | ]. split; [lia | ].
    split; [lia | ]. intros _.
    destruct n as [ | n].
    + simpl in Hrun. injection Hrun as <-. rewrite Htime. f_equal. lia.
    + rewrite Htime' by lia. f_equal. lia.
Qed.

(** X3: as long as the counter stays at 11 or below, calls of the gate
    are never delayed, whatever the clock says: [n] calls in a row from a
    counter [c] with [c + n <= 11] emit nothing, leave the counter at
    [c + n], and the time of the last request is the time of the last
    call.  In particular the eleven first calls on a new instance, and the
    ten calls after a cooldown, go through at once. *)
Theorem gate_free_up_to_eleven (E : Env) (n : nat) (w : World) :
  requestCount (this w) + Z.of_nat n <= 11 ->
  exists w',
    repeatM n (checkRateLimit E) w = (Ok tt, w') /\
    trace w' = trace w /\
    requestCount (this w') = requestCount (this w) + Z.of_nat n /\
    (0 < n -> lastRequestTime (this w') = env_now E (ticks w + n - 1))%nat.
Proof.
  intros Hle. destruct (burst_run E n w Hle) as (w' & Hrun & Htr & Hc & _ & Ht).
  exists w'. auto.
Qed.

Lemma gate_free_up_to_eleven_witness :
  let E := channelEnv [] false None (fun _ => 5) in
  let w := initialWorld constructor in
  exists w',
    repeatM 11 (checkRateLimit E) w = (Ok tt, w') /\
    trace w' = trace w /\
    requestCount (this w') = requestCount (this w) + Z.of_nat 11 /\
    (0 < 11 -> lastRequestTime (this w') = env_now E (ticks w + 11 - 1))%nat.
Proof.
  cbv zeta.
  apply (gate_free_up_to_eleven (channelEnv [] false None (fun _ => 5)) 11
           (initialWorld constructor)).
  vm_compute. discriminate.
Defined.

(** ** The retry loop gives up or returns *)

Lemma retryLoop_undefined {A} (E : Env) (fn : M A) (retries : nat) :
  forall remaining i w,
    (i + remaining = retries)%nat ->
    fst (retryLoop E fn retries i remaining w) = Ok None ->
    remaining = O.
Proof.
  induction remaining as [ | remaining IH]; intros i w Hsum Hnone; [reflexivity | ].
  exfalso. simpl in Hnone. unfold try_catch in Hnone.
  destruct (checkRateLimit_run E w) as (w1 & Hgate & _).
  rewrite (bind_ok _ _ _ _ _ Hgate) in Hnone. unfold bind at 1 in Hnone.
  destruct (fn w1) as [[a | e | ] w2]; try discriminate.
  unfold bind at 1 in Hnone. simpl in Hnone.
  destruct (i =? retries - 1)%nat eqn:Hlast; [discriminate | ].
  apply Nat.eqb_neq in Hlast.
  unfold bind at 1 in Hnone. simpl in Hnone.
  unfold bind at 1 in Hnone. rewrite wait_run in Hnone. cbv zeta in Hnone.
  apply IH in Hnone; lia.
Qed.

(** X4: [retryWithBackoff] leaves its loop without a result (and returns
    [undefined] for that reason, written [None]) exactly when it is asked
    for no attempt at all ([retries = 0]); with at least one attempt it
    returns what the operation returned, or throws.  With the default of
    [MAX_RETRIES] attempts the callers of [retryWithBackoff] in this file
    therefore always get the operation's own result when it returns. *)
Theorem retryWithBackoff_undefined_iff {A} (E : Env) (fn : M A) (retries : nat)
    (w : World) :
  fst (retryWithBackoff E fn retries w) = Ok None <-> retries = O.
Proof.
  unfold retryWithBackoff. split.
  - apply retryLoop_undefined. reflexivity.
  - intros ->. reflexivity.
Qed.

(** ** What [downloadMessageMedia] writes *)

Ltac new_file :=
  let f := fresh "f" in
  let Hf := fresh "Hf" in
  intros f Hf;
  repeat (apply elem_of_union in Hf as [Hf | Hf];
          [apply elem_of_singleton in Hf; auto | ]);
  auto.

Lemma writeSidecars_run (H : Helpers) (E : Env) msg media path w :
  exists o w1,
    writeSidecars H E msg media path w = (o, w1) /\
    this w1 = this w /\
    files w ⊆ files w1 /\
    (forall f, f ∈ files w1 ->
               f ∈ files w \/ f = urlSidecar H msg path \/ f = pollSidecar H msg media path) /\
    count isDownloadCall (trace w1) = count isDownloadCall (trace w) /\
    match o with
    | Ok target => target = mediaTarget H media path
    | Throw _ => True
    | OutOfFuel => False
    end.
Proof.
  unfold writeSidecars, pollSidecar, urlSidecar, mediaTarget, writeFileSync.
  unfold bind, tick, modify, emit, ret, throw.
  destruct (media_webpage media) as [wp | ], (media_poll media) as [poll | ]; simpl;
    repeat match goal with
           | |- context [negb ?b] => destruct b; simpl
           | |- context [env_writeFile E ?k ?f ?c] => destruct (env_writeFile E k f c); simpl
           end;
    eexists _, _; (split; [reflexivity | ]); simpl;
    rewrite ?count_app; unfold count; simpl;
    (split; [reflexivity | ]); (split; [set_solver | ]);
    (split; [new_file | ]); (split; [lia | auto]).
Qed.

Lemma downloadMessageMedia_run (H : Helpers) (E : Env) (client : Client)
    (msg : Message) (media : Media) (path : string) (w : World) :
  msg_media msg = Some media ->
  path <> "" ->
  exists b w',
    downloadMessageMedia H E (Some client) (Some msg) (Some path) w = (Ok b, w') /\
    files w ⊆ files w' /\
    this w' = this w /\
    (count isDownloadCall (trace w') <= count isDownloadCall (trace w) + 1)%nat /\
    (forall f, f ∈ files w' ->
               f ∈ files w \/ (b = true /\ f = mediaTarget H media path) \/
               f = urlSidecar H msg path \/ f = pollSidecar H msg media path) /\
    (b = true -> mediaTarget H media path ∈ files w').
Proof.
  intros Hmedia Hpath.
  unfold downloadMessageMedia. rewrite Hmedia.
  apply String.eqb_neq in Hpath. rewrite Hpath.
  destruct (writeSidecars_run H E msg media path w)
    as (o & w1 & Hrun & Hthis & Hsub & Hnew & Hcalls & Ho).
  unfold try_catch, bind at 1. rewrite Hrun.
  destruct o as [target | e | ]; [ | | destruct Ho].
  - subst target.
    unfold clientDownloadMedia, awaitDownloadMedia, bind, emit, modify, tick, ret, throw, log.
    simpl.
    destruct (env_downloadMedia E (ticks w1) msg (mediaTarget H media path)); simpl.
    + eexists true, _. split; [reflexivity | ]. simpl.
      rewrite !count_app, Hcalls. unfold count at 2 3. simpl.
      split; [set_solver | ]. split; [exact Hthis | ]. split; [lia | ].
      split; [ | intros _; set_solver].
      intros f Hf. apply elem_of_union in Hf as [Hf | Hf].
      * apply elem_of_singleton in Hf. auto.
      * destruct (Hnew f Hf) as [? | [? | ?]]; auto.
    + eexists false, _. split; [reflexivity | ]. simpl.
      rewrite !count_app, Hcalls. unfold count at 2 3 4. simpl.
      split; [exact Hsub | ]. split; [exact Hthis | ]. split; [lia | ].
      split; [ | discriminate].
      intros f Hf. destruct (Hnew f Hf) as [? | [? | ?]]; auto.
  - unfold bind, emit, modify, ret, log. simpl.
    eexists false, _. split; [reflexivity | ]. simpl.
    rewrite !count_app, Hcalls. unfold count at 2. simpl.
    split; [exact Hsub | ]. split; [exact Hthis | ]. split; [lia | ].
    split; [ | discriminate].
    intros f Hf. destruct (Hnew f Hf) as [? | [? | ?]]; auto.
Qed.

(** X5: [downloadMessageMedia], given a client, a message with media and a
    path, returns a boolean; it never removes a file, calls
    [client.downloadMedia] at most once, and writes nothing but the target
    and the two sidecar files.  The target is the path it was given, except
    for a web page, whose preview image is written beside it instead.  When
    it returns [true] the target exists; when it returns [false] the target
    was not written. *)
Theorem downloadMessageMedia_files (H : Helpers) (E : Env) (client : Client)
    (msg : Message) (media : Media) (path : string) (w : World) :
  msg_media msg = Some media ->
  path <> "" ->
  exists b w',
    downloadMessageMedia H E (Some client) (Some msg) (Some path) w = (Ok b, w') /\
    files w ⊆ files w' /\
    this w' = this w /\
    (count isDownloadCall (trace w') <= count isDownloadCall (trace w) + 1)%nat /\
    (forall f, f ∈ files w' ->
               f ∈ files w \/ (b = true /\ f = mediaTarget H media path) \/
               f = urlSidecar H msg path \/ f = pollSidecar H msg media path) /\
    (b = true -> mediaTarget H media path ∈ files w').
Proof. apply downloadMessageMedia_run. Qed.

(** A message with a web page: the preview image and the URL file are
    written beside the path, and nothing at the path itself. *)
Lemma downloadMessageMedia_files_witness :
  let media := {| media_webpage := Some {| wp_id := 9; wp_url := "https://example.org" |};
                  media_poll := None |} in
  let msg := {| msg_id := 7; msg_message := "link"; msg_date := 0; msg_out := false;
                msg_media := Some media; msg_fromUserId := None;
                msg_peerUserId := None |} in
  let E := channelEnv [] false None steadyClock in
  let path := "/app/export/42/7_file.JPG" in
  exists b w',
    downloadMessageMedia exampleHelpers E (Some TelegramClient) (Some msg) (Some path)
      (initialWorld constructor) = (Ok b, w') /\
    files (initialWorld constructor) ⊆ files w' /\
    this w' = this (initialWorld constructor) /\
    (count isDownloadCall (trace w') <=
     count isDownloadCall (trace (initialWorld constructor)) + 1)%nat /\
    (forall f, f ∈ files w' ->
               f ∈ files (initialWorld constructor) \/
               (b = true /\ f = mediaTarget exampleHelpers media path) \/
               f = urlSidecar exampleHelpers msg path \/
               f = pollSidecar exampleHelpers msg media path) /\
    (b = true -> mediaTarget exampleHelpers media path ∈ files w').
Proof.
  cbv zeta.
  apply (downloadMessageMedia_files exampleHelpers (channelEnv [] false None steadyClock)
           TelegramClient); [reflexivity | discriminate].
Defined.

(** X6: a message whose media is not a web page, once [downloadMessageMedia]
    has returned [true] for the path [getMediaPath] gives it, is no longer
    eligible: [canDownload] refuses it, so a later pass over the same page
    skips it instead of downloading it again. *)
Theorem downloaded_media_not_eligible_again (H : Helpers) (E : Env) (client : Client)
    (msg : Message) (media : Media) (w w' : World) :
  msg_media msg = Some media ->
  media_webpage media = None ->
  downloadMessageMedia H E (Some client) (Some msg)
    (Some (getMediaPath H msg (outputFolder (this w)))) w = (Ok true, w') ->
  truthy (canDownload H w' msg) = false.
Proof.
  intros Hmedia Hplain Hrun.
  destruct (String.eqb (getMediaPath H msg (outputFolder (this w))) "") eqn:Hpath.
  - unfold downloadMessageMedia in Hrun. rewrite Hpath in Hrun. discriminate.
  - apply String.eqb_neq in Hpath.
    destruct (downloadMessageMedia_run H E client msg media _ w Hmedia Hpath)
      as (b & w1 & Hrun1 & _ & Hthis & _ & _ & Htarget).
    rewrite Hrun1 in Hrun. injection Hrun as -> ->.
    specialize (Htarget eq_refl). unfold mediaTarget in Htarget.
    rewrite Hplain in Htarget.
    unfold canDownload, hasMedia, checkFileExist. rewrite Hmedia, Hthis. simpl.
    rewrite bool_decide_eq_true_2 by exact Htarget. simpl.
    unfold js_and. destruct (truthy (allowedBy _ _ _)) eqn:Hallowed; [reflexivity | ].
    exact Hallowed.
Qed.

Lemma downloaded_media_not_eligible_again_witness :
  let E := channelEnv threeMessages false None steadyClock in
  let w := initialWorld (allowing "photo" (JBool true)) in
  let path := getMediaPath exampleHelpers (photoMessage 2) (outputFolder (this w)) in
  let run := downloadMessageMedia exampleHelpers E (Some TelegramClient)
               (Some (photoMessage 2)) (Some path) w in
  truthy (canDownload exampleHelpers w (photoMessage 2)) = true /\
  truthy (canDownload exampleHelpers (snd run) (photoMessage 2)) = false.
Proof.
  cbv zeta. split; [vm_compute; reflexivity | ].
  apply (downloaded_media_not_eligible_again exampleHelpers
           (channelEnv threeMessages false None steadyClock) TelegramClient
           (photoMessage 2) photo (initialWorld (allowing "photo" (JBool true)))).
  - reflexivity.
  - reflexivity.
  - vm_compute. reflexivity.
Defined.

(** ** Counting the channel *)

Lemma countedPages_app tr evs : countedPages (tr ++ evs) = countedPages tr ++ countedPages evs.
Proof. apply flat_map_app. Qed.

Lemma countMedia_app l1 l2 : countMedia (l1 ++ l2) = countMedia l1 + countMedia l2.
Proof. unfold countMedia. rewrite List.filter_app, List.length_app. lia. Qed.

(** One attempt of the counting request: a resolved answer is the one page
    it adds, a failed attempt adds none. *)
Lemma getMessages_page_counted (E : Env) client channelId offsetId w :
  exists o w1 evs,
    getMessages E client channelId 100 offsetId w = (o, w1) /\
    trace w1 = trace w ++ evs /\
    match o with
    | Ok messages => countedPages evs = [messages]
    | Throw _ => countedPages evs = []
    | OutOfFuel => False
    end.
Proof.
  destruct (isSome client) eqn:Hc; [destruct (truthy channelId) eqn:Hch | ].
  - rewrite (getMessages_run E client channelId 100 offsetId w Hc Hch).
    eexists _, _, [_]. split; [reflexivity | ]. split; [reflexivity | ].
    destruct (env_getMessages E (ticks w) channelId (QHistory 100 offsetId)); reflexivity.
  - unfold getMessages. rewrite Hc, Hch. simpl.
    eexists _, _, []. split; [reflexivity | ]. rewrite app_nil_r. auto.
  - unfold getMessages. rewrite Hc. simpl.
    eexists _, _, []. split; [reflexivity | ]. rewrite app_nil_r. auto.
Qed.

Lemma retryLoop_page_counted (E : Env) client channelId offsetId retries :
  forall remaining i w messages w',
    retryLoop E (getMessages E client channelId 100 offsetId) retries i remaining w =
      (Ok (Some messages), w') ->
    exists evs, trace w' = trace w ++ evs /\ countedPages evs = [messages].
Proof.
  induction remaining as [ | remaining IH]; intros i w messages w' Hrun; [discriminate | ].
  simpl in Hrun. unfold try_catch in Hrun.
  destruct (checkRateLimit_run E w) as (w1 & Hgate & _ & Htr1 & _). cbv zeta in Htr1.
  rewrite (bind_ok _ _ _ _ _ Hgate) in Hrun. unfold bind at 1 in Hrun.
  destruct (getMessages_page_counted E client channelId offsetId w1)
    as (o & w2 & evs2 & Hfn & Htr2 & Ho).
  rewrite Hfn in Hrun.
  assert (Hgate_pages :
            countedPages
              (if tooManyRequests (this w) (env_now E (ticks w))
               then [ELog LRateLimitWait;
                     ELog (LWaiting 60000 (env_random E (S (ticks w))));
                     ETimeout 60000 (env_random E (S (ticks w)))]
               else []) = []).
  { destruct (tooManyRequests _ _); reflexivity. }
  destruct o as [a | e | ]; [ | | destruct Ho].
  - simpl in Hrun. injection Hrun as <- <-.
    eexists. split; [rewrite Htr2, Htr1, <- app_assoc; reflexivity | ].
    rewrite countedPages_app, Hgate_pages, Ho. reflexivity.
  - unfold bind at 1 in Hrun. simpl in Hrun.
    destruct (i =? retries - 1)%nat; [discriminate | ].
    unfold bind at 1 in Hrun. simpl in Hrun.
    unfold bind at 1 in Hrun. rewrite wait_run in Hrun. cbv zeta in Hrun.
    apply IH in Hrun as (evs & Htr & Hpages). simpl in Htr.
    eexists. split.
    + rewrite Htr, Htr2, Htr1, <- !app_assoc. reflexivity.
    + rewrite !countedPages_app, Hgate_pages, Ho, Hpages. reflexivity.
Qed.

Lemma countLoop_pages (E : Env) client channelId :
  forall fuel total media offsetId w total' media' w',
    countLoop E fuel client channelId total media offsetId w = (Ok (total', media'), w') ->
    exists evs,
      trace w' = trace w ++ evs /\
      total' = total + Z.of_nat (length (concat (countedPages evs))) /\
      media' = media + countMedia (concat (countedPages evs)).
Proof.
  induction fuel as [ | fuel IH]; intros total media offsetId w total' media' w' Hrun;
    [discriminate | ].
  cbn [countLoop] in Hrun. unfold bind at 1 in Hrun.
  destruct (retryWithBackoff E (getMessages E client channelId 100 offsetId) MAX_RETRIES w)
    as [[[messages | ] | e | ] w1] eqn:Hretry; try discriminate.
  apply retryLoop_page_counted in Hretry as (evs1 & Htr1 & Hpages1).
  destruct messages as [ | m0 ms].
  - injection Hrun as <- <- <-. exists evs1. split; [exact Htr1 | ].
    rewrite Hpages1. unfold countMedia. simpl. lia.
  - unfold bind at 1 in Hrun. simpl in Hrun.
    unfold bind at 1 in Hrun. rewrite wait_run in Hrun. cbv zeta in Hrun.
    apply IH in Hrun as (evs2 & Htr2 & Ht & Hm). simpl in Htr2.
    eexists. split.
    + rewrite Htr2, Htr1, <- !app_assoc. reflexivity.
    + rewrite !countedPages_app, Hpages1.
      change (countedPages [ELog _]) with (@nil (list Message)).
      change (countedPages [ETimeout _ _]) with (@nil (list Message)).
      cbn [app concat].
      change (m0 :: ms ++ concat (countedPages evs2))
        with ((m0 :: ms) ++ concat (countedPages evs2)).
      rewrite List.length_app, countMedia_app.
      rewrite Ht, Hm. cbn [length]. lia.
Qed.

Lemma countTotalMessages_run (E : Env) fuel client channelId w :
  countTotalMessages E fuel client channelId w =
  match countLoop E fuel client channelId 0 0 0
          (with_trace (fun tr => tr ++ [ELog LCounting]) w) with
  | (Ok (total, media), w1) =>
      (Ok tt,
       with_trace (fun tr => tr ++ [ELog (LTotals total media)])
         (with_this (set_totals total media) w1))
  | (Throw e, w1) =>
      (Ok tt,
       with_this (set_totals 0 0)
         (with_trace (fun tr => tr ++ [ELog (LCountFailed (err_message e))]) w1))
  | (OutOfFuel, w1) => (OutOfFuel, w1)
  end.
Proof.
  unfold countTotalMessages, try_catch. unfold bind at 1. simpl. unfold bind at 1.
  destruct (countLoop E fuel client channelId 0 0 0 _) as [[[total media] | e | ] w1];
    reflexivity.
Qed.

(** X7: [countTotalMessages] never throws.  When it returns, either the
    count failed: its last line reports the failure and both totals are
    0; or the count went through: its last line reports the totals, and
    [totalMessages] and [totalMediaMessages] are the number of messages,
    and of messages with media, in the pages of 100 the client delivered
    during the count. *)
Theorem countTotalMessages_totals (E : Env) (fuel : nat) (client : option Client)
    (channelId : JsVal) (w : World) :
  exists evs,
    trace (snd (countTotalMessages E fuel client channelId w)) = trace w ++ evs /\
    match fst (countTotalMessages E fuel client channelId w) with
    | Throw _ => False
    | OutOfFuel => True
    | Ok _ =>
        let o := this (snd (countTotalMessages E fuel client channelId w)) in
        (exists evs0 msg,
            evs = evs0 ++ [ELog (LCountFailed msg)] /\
            totalMessages o = 0 /\ totalMediaMessages o = 0) \/
        (exists evs0,
            evs = evs0 ++ [ELog (LTotals (totalMessages o) (totalMediaMessages o))] /\
            totalMessages o = Z.of_nat (length (concat (countedPages evs))) /\
            totalMediaMessages o = countMedia (concat (countedPages evs)))
    end.
Proof.
  rewrite countTotalMessages_run.
  set (w0 := with_trace (fun tr => tr ++ [ELog LCounting]) w).
  pose proof (sb_countLoop E true calmE (fun _ => eq_refl) fuel client channelId 0 0 0
                (fun _ _ => eq_refl) (fun _ _ => eq_refl) w0) as Hframe.
  destruct (countLoop E fuel client channelId 0 0 0 w0) as [[[total media] | e | ] w1]
    eqn:Hloop; simpl in Hframe; destruct Hframe as [[evs1 [Htr1 _]] _ _ _ _ _ _ _].
  - apply countLoop_pages in Hloop as (evs & Htr & Ht & Hm). simpl in Htr.
    exists (([ELog LCounting] ++ evs) ++ [ELog (LTotals total media)]). split.
    + simpl. rewrite Htr, <- !app_assoc. reflexivity.
    + right. exists ([ELog LCounting] ++ evs). split; [reflexivity | ].
      rewrite !countedPages_app.
      change (countedPages [ELog _]) with (@nil (list Message)).
      rewrite app_nil_r. simpl. split; [exact Ht | exact Hm].
  - exists (([ELog LCounting] ++ evs1) ++ [ELog (LCountFailed (err_message e))]). split.
    + simpl. rewrite Htr1. simpl. rewrite <- !app_assoc. reflexivity.
    + left. exists ([ELog LCounting] ++ evs1), (err_message e). auto.
  - exists ([ELog LCounting] ++ evs1). split; [ | exact I].
    simpl. rewrite Htr1. simpl. rewrite <- app_assoc. reflexivity.
Qed.

(** Counting a channel of three messages, one of them with a photo. *)
Example counting_three_messages :
  let E := channelEnv threeMessages false None steadyClock in
  let run := countTotalMessages E 3 (Some TelegramClient) (JNum 42)
               (initialWorld constructor) in
  fst run = Ok tt /\
  totalMessages (this (snd run)) = 3 /\
  totalMediaMessages (this (snd run)) = 1.
Proof. vm_compute. auto. Qed.

(** ** A run without a client *)

Lemma truthy_toString v : truthy v = true -> exists name, js_toString v = Some name.
Proof. destruct v; simpl; try discriminate; eauto. Qed.

Lemma retryLoop_S {A} (E : Env) (fn : M A) retries i remaining :
  retryLoop E fn retries i (S remaining) =
  try_catch
    (checkRateLimit E ;;;
     let* result := fn in
     ret (Some result))
    (fun error =>
       log (LAttemptFailed (i + 1) (err_message error)) ;;;
       if (i =? retries - 1)%nat then throw error
       else
         log (LBackingOff (backoffDelay i)) ;;;
         wait E (backoffDelay i) ;;;
         retryLoop E fn retries (S i) remaining).
Proof. reflexivity. Qed.

(** An operation that fails at once with [e], whatever the world, is
    tried [remaining] times, and [e] is thrown. *)
Lemma retryLoop_fatal {A} (E : Env) (fn : M A) (e : Error) (retries : nat) :
  (forall w, fn w = (Throw e, w)) ->
  forall remaining i w,
    (i + S remaining = retries)%nat ->
    exists w' evs,
      retryLoop E fn retries i (S remaining) w = (Throw e, w') /\
      trace w' = trace w ++ evs /\
      forallb quietE evs = true /\
      count isAttemptLine evs = S remaining.
Proof.
  intros Hfn. induction remaining as [ | remaining IH]; intros i w Hsum;
    destruct (checkRateLimit_run E w) as (w1 & Hgate & _ & Htr1 & _); cbv zeta in Htr1;
    set (gate := if tooManyRequests (this w) (env_now E (ticks w))
                 then [ELog LRateLimitWait;
                       ELog (LWaiting 60000 (env_random E (S (ticks w))));
                       ETimeout 60000 (env_random E (S (ticks w)))]
                 else []) in Htr1;
    assert (Hgq : forallb quietE gate = true /\ count isAttemptLine gate = O)
      by (unfold gate; destruct (tooManyRequests _ _); split; reflexivity);
    destruct Hgq as [Hgq Hgc];
    rewrite retryLoop_S; unfold try_catch; rewrite (bind_ok _ _ _ _ _ Hgate);
    unfold bind at 1; rewrite Hfn; unfold bind at 1, log, emit, modify.
  - replace (i =? retries - 1)%nat with true by (symmetry; apply Nat.eqb_eq; lia).
    eexists _, (gate ++ [ELog (LAttemptFailed (i + 1) (err_message e))]).
    split; [reflexivity | ]. simpl.
    split; [rewrite Htr1, app_assoc; reflexivity | ].
    rewrite forallb_app, count_app, Hgq, Hgc. split; reflexivity.
  - replace (i =? retries - 1)%nat with false by (symmetry; apply Nat.eqb_neq; lia).
    unfold bind at 1, log, emit, modify. unfold bind at 1. rewrite wait_run. cbv zeta.
    match goal with |- context [retryLoop E fn retries (S i) (S remaining) ?w5] =>
      destruct (IH (S i) w5 ltac:(lia)) as (w' & evs & Hrun & Htr & Hq & Hc)
    end.
    simpl in Htr.
    exists w',
      (gate ++
       [ELog (LAttemptFailed (i + 1) (err_message e));
        ELog (LBackingOff (backoffDelay i));
        ELog (LWaiting (backoffDelay i) (env_random E (ticks w1)));
        ETimeout (backoffDelay i) (env_random E (ticks w1))] ++ evs).
    split; [exact Hrun | ].
    split; [rewrite Htr, Htr1, <- !app_assoc; reflexivity | ].
    rewrite !forallb_app, !count_app, Hgq, Hgc, Hq, Hc. split; reflexivity.
Qed.

Lemma getMessages_no_client (E : Env) channelId limit offsetId w :
  getMessages E None channelId limit offsetId w =
    (Throw (newError "Client and channelId are required"), w).
Proof. reflexivity. Qed.

Lemma countLoop_no_client (E : Env) fuel channelId total media offsetId w :
  exists w' evs,
    countLoop E (S fuel) None channelId total media offsetId w =
      (Throw (newError "Client and channelId are required"), w') /\
    trace w' = trace w ++ evs /\
    forallb quietE evs = true /\
    count isAttemptLine evs = 3%nat.
Proof.
  destruct (retryLoop_fatal E (getMessages E None channelId 100 offsetId)
              (newError "Client and channelId are required") 3
              (getMessages_no_client E channelId 100 offsetId) 2 0 w eq_refl)
    as (w' & evs & Hrun & Htr & Hq & Hc).
  exists w', evs. cbn [countLoop]. unfold retryWithBackoff, MAX_RETRIES.
  rewrite (bind_throw _ _ _ _ _ Hrun). auto.
Qed.

Lemma fetchPage_no_client (H : Helpers) (E : Env) fuel channelId offsetMsgId w :
  truthy channelId = true ->
  exists w' evs,
    fetchPage H E (S fuel) None channelId offsetMsgId w =
      (Throw (newError "Client and channelId are required"), w') /\
    trace w' = trace w ++ evs /\
    forallb quietE evs = true /\
    count isAttemptLine evs = (if offsetMsgId =? 0 then 6%nat else 3%nat).
Proof.
  intros Hch. destruct (truthy_toString channelId Hch) as [name Hname].
  unfold fetchPage. rewrite Hname. unfold bind at 1, modify.
  set (w0 := with_this _ w).
  assert (Hfetch : forall w1,
             exists w' evs,
               retryWithBackoff E (getMessages E None channelId MESSAGE_LIMIT offsetMsgId)
                 MAX_RETRIES w1 =
                 (Throw (newError "Client and channelId are required"), w') /\
               trace w' = trace w1 ++ evs /\
               forallb quietE evs = true /\
               count isAttemptLine evs = 3%nat).
  { intros w1. apply (retryLoop_fatal E _ _ 3
                        (getMessages_no_client E channelId MESSAGE_LIMIT offsetMsgId) 2 0 w1
                        eq_refl). }
  destruct (offsetMsgId =? 0).
  - unfold bind at 1. rewrite countTotalMessages_run.
    destruct (countLoop_no_client E fuel channelId 0 0 0
                (with_trace (fun tr => tr ++ [ELog LCounting]) w0))
      as (w1 & evs1 & Hloop & Htr1 & Hq1 & Hc1).
    rewrite Hloop.
    match goal with |- context [retryWithBackoff E _ MAX_RETRIES ?w2] =>
      destruct (Hfetch w2) as (w' & evs2 & Hrun & Htr2 & Hq2 & Hc2)
    end.
    exists w',
      ([ELog LCounting] ++ evs1 ++
       [ELog (LCountFailed "Client and channelId are required")] ++ evs2).
    split; [exact Hrun | ]. split.
    + rewrite Htr2. simpl. rewrite Htr1. simpl. rewrite <- !app_assoc. reflexivity.
    + rewrite !forallb_app, !count_app, Hq1, Hq2, Hc1, Hc2. split; reflexivity.
  - unfold bind at 1, ret.
    destruct (Hfetch w0) as (w' & evs2 & Hrun & Htr2 & Hq2 & Hc2).
    exists w', evs2. auto.
Qed.

(** X8: [downloadChannel] called without a client throws the error of the
    argument check, "Client and channelId are required", and never asks the
    client or touches a file; but it does not fail at once: the check is
    made inside [retryWithBackoff], so the error is met three times, with
    the backoff delays between, when the page is requested, and three times
    more, before that, when the channel is counted (a run from cursor 0). *)
Theorem downloadChannel_without_client (H : Helpers) (E : Env) (fuel : nat)
    (channelId : JsVal) (offsetMsgId : Z) (w : World) :
  truthy channelId = true ->
  exists w' evs,
    downloadChannel H E (S (S fuel)) None channelId offsetMsgId w =
      (Throw (newError "Client and channelId are required"), w') /\
    trace w' = trace w ++ evs /\
    forallb quietE evs = true /\
    count isAttemptLine evs = (if offsetMsgId =? 0 then 6%nat else 3%nat) /\
    files w' = files w /\
    exportLog w' = exportLog w /\
    messageOffsetId w' = messageOffsetId w.
Proof.
  intros Hch.
  destruct (fetchPage_no_client H E fuel channelId offsetMsgId w Hch)
    as (w1 & evs & Hfetch & Htr & Hq & Hc).
  pose proof (sb_fetchPage H E true calmE (fun _ => eq_refl) (S fuel) None channelId
                offsetMsgId (fun _ _ => eq_refl) (fun _ _ => eq_refl) w) as Hframe.
  rewrite Hfetch in Hframe. simpl in Hframe.
  destruct Hframe as [_ _ Hl Hcur Hf _ _ _].
  cbn [downloadChannel]. unfold try_catch, tryBlock.
  rewrite (bind_throw _ _ _ _ _ Hfetch).
  eexists _, (evs ++ [ELog (LErrorOccurred (newError "Client and channelId are required"))]).
  split; [reflexivity | ]. simpl.
  split; [rewrite Htr, app_assoc; reflexivity | ].
  rewrite forallb_app, count_app, Hq, Hc. simpl. unfold count at 1. simpl.
  split; [reflexivity | ]. split; [lia | ]. auto.
Qed.

Lemma downloadChannel_without_client_witness :
  let E := channelEnv threeMessages false None steadyClock in
  exists w' evs,
    downloadChannel exampleHelpers E 2 None (JNum 42) 0 (initialWorld constructor) =
      (Throw (newError "Client and channelId are required"), w') /\
    trace w' = trace (initialWorld constructor) ++ evs /\
    forallb quietE evs = true /\
    count isAttemptLine evs = (if 0 =? 0 then 6%nat else 3%nat) /\
    files w' = files (initialWorld constructor) /\
    exportLog w' = exportLog (initialWorld constructor) /\
    messageOffsetId w' = messageOffsetId (initialWorld constructor).
Proof.
  cbv zeta.
  apply (downloadChannel_without_client exampleHelpers
           (channelEnv threeMessages false None steadyClock) 0 (JNum 42) 0
           (initialWorld constructor)).
  reflexivity.
Defined.

(** ** A channel that stays flood-limited *)

Lemma wrapped_isFloodWait (m : string) :
  isFloodWait (newError ("Failed to get messages: " +:+ m)) = includes "FLOOD_WAIT" m.
Proof.
  unfold isFloodWait. simpl err_message.
  destruct (wrapped_includes m) as [-> _]. reflexivity.
Qed.

Section Flooded.

Variable H : Helpers.
Variable E : Env.
Variable client : Client.
Variable channelId : JsVal.
Hypothesis channel_given : truthy channelId = true.
Hypothesis always_flooded :
  forall k ch q,
    exists e, env_getMessages E k ch q = Rejected e /\
              includes "FLOOD_WAIT" (err_message e) = true.

Lemma retryLoop_flooded limit offsetId retries :
  forall remaining i w,
    (i + S remaining = retries)%nat ->
    exists e w',
      retryLoop E (getMessages E (Some client) channelId limit offsetId) retries i
        (S remaining) w = (Throw e, w') /\
      isFloodWait e = true.
Proof.
  induction remaining as [ | remaining IH]; intros i w Hsum;
    destruct (checkRateLimit_run E w) as (w1 & Hgate & _);
    rewrite retryLoop_S; unfold try_catch; rewrite (bind_ok _ _ _ _ _ Hgate);
    unfold bind at 1;
    rewrite (getMessages_run E (Some client) channelId limit offsetId w1 eq_refl
               channel_given);
    destruct (always_flooded (ticks w1) channelId (QHistory limit offsetId))
      as (e0 & -> & Hflood);
    unfold bind at 1, log, emit, modify.
  - replace (i =? retries - 1)%nat with true by (symmetry; apply Nat.eqb_eq; lia).
    eexists _, _. split; [reflexivity | ]. rewrite wrapped_isFloodWait. exact Hflood.
  - replace (i =? retries - 1)%nat with false by (symmetry; apply Nat.eqb_neq; lia).
    unfold bind at 1, log, emit, modify. unfold bind at 1. rewrite wait_run. cbv zeta.
    apply IH. lia.
Qed.

Lemma fetchPage_flooded fuel offsetMsgId w :
  match fst (fetchPage H E fuel (Some client) channelId offsetMsgId w) with
  | Ok _ => False
  | Throw e => isFloodWait e = true
  | OutOfFuel => True
  end.
Proof.
  destruct (truthy_toString channelId channel_given) as [name Hname].
  unfold fetchPage. rewrite Hname. unfold bind at 1, modify.
  set (w0 := with_this _ w).
  assert (Hfetch : forall w1,
             exists e w',
               retryWithBackoff E
                 (getMessages E (Some client) channelId MESSAGE_LIMIT offsetMsgId)
                 MAX_RETRIES w1 = (Throw e, w') /\
               isFloodWait e = true).
  { intros w1. apply (retryLoop_flooded MESSAGE_LIMIT offsetMsgId 3 2 0 w1 eq_refl). }
  destruct (offsetMsgId =? 0).
  - unfold bind at 1. rewrite countTotalMessages_run.
    destruct (countLoop E fuel (Some client) channelId 0 0 0 _)
      as [[[total media] | e | ] w1]; [ | | exact I].
    + match goal with |- context [retryWithBackoff E _ MAX_RETRIES ?w2] =>
        destruct (Hfetch w2) as (e & w' & -> & Hflood)
      end.
      exact Hflood.
    + match goal with |- context [retryWithBackoff E _ MAX_RETRIES ?w2] =>
        destruct (Hfetch w2) as (e' & w' & -> & Hflood)
      end.
      exact Hflood.
  - unfold bind at 1, ret. destruct (Hfetch w0) as (e & w' & -> & Hflood). exact Hflood.
Qed.

Lemma downloadChannel_flooded fuel :
  forall offsetMsgId w,
    fst (downloadChannel H E fuel (Some client) channelId offsetMsgId w) = OutOfFuel.
Proof.
  induction fuel as [ | fuel IH]; intros offsetMsgId w; [reflexivity | ].
  cbn [downloadChannel]. unfold try_catch, tryBlock.
  pose proof (fetchPage_flooded fuel offsetMsgId w) as Hfetch.
  unfold bind at 1.
  destruct (fetchPage H E fuel (Some client) channelId offsetMsgId w)
    as [[r | e | ] w1]; simpl in Hfetch; [destruct Hfetch | | reflexivity].
  unfold catchBlock. unfold bind at 1, log, emit, modify. rewrite Hfetch.
  unfold bind at 1, log, emit, modify. unfold bind at 1. rewrite wait_run. cbv zeta.
  apply IH.
Qed.

End Flooded.

(** X9: when the client rejects every request for messages with a flood
    error, [downloadChannel] never returns and never throws: after the three
    attempts of each page request it sleeps and calls itself again, without
    end (no bound on the depth of these calls lets the run come to an
    end). *)
Theorem flood_wait_is_retried_forever (H : Helpers) (E : Env) (client : Client)
    (channelId : JsVal) (fuel : nat) (offsetMsgId : Z) (w : World) :
  truthy channelId = true ->
  (forall k ch q,
     exists e, env_getMessages E k ch q = Rejected e /\
               includes "FLOOD_WAIT" (err_message e) = true) ->
  fst (downloadChannel H E fuel (Some client) channelId offsetMsgId w) = OutOfFuel.
Proof. intros Hch Hflood. apply downloadChannel_flooded; assumption. Qed.

Lemma flood_wait_is_retried_forever_witness :
  let E := channelEnv threeMessages false (Some "FLOOD_WAIT_45") steadyClock in
  fst (downloadChannel exampleHelpers E 7 (Some TelegramClient) (JNum 42) 0
         (initialWorld constructor)) = OutOfFuel.
Proof.
  cbv zeta.
  apply (flood_wait_is_retried_forever exampleHelpers
           (channelEnv threeMessages false (Some "FLOOD_WAIT_45") steadyClock)
           TelegramClient (JNum 42) 7 0 (initialWorld constructor)).
  - reflexivity.
  - intros k ch q. eexists. split; reflexivity.
Defined.

(** ** A page with nothing to download *)

Lemma canDownload_ext (H : Helpers) w w' msg :
  files w' = files w ->
  outputFolder (this w') = outputFolder (this w) ->
  downloadableFiles (this w') = downloadableFiles (this w) ->
  canDownload H w' msg = canDownload H w msg.
Proof.
  intros Hf Ho Hd. unfold canDownload, checkFileExist. rewrite Hf, Ho, Hd. reflexivity.
Qed.

Lemma forBody_not_eligible (H : Helpers) (E : Env) client details msg loc w :
  truthy (canDownload H w msg) = false ->
  downloadQueue loc = [] ->
  forBody H E client details msg loc w =
    if hasMedia msg then
      (Ok {| downloadQueue := downloadQueue loc;
             currentBatchDownloaded := currentBatchDownloaded loc;
             currentBatchSkipped := currentBatchSkipped loc + 1 |},
       with_trace (fun tr => tr ++ [ELog (LSkipped (msg_id msg))])
         (with_this (fun o => set_skippedFiles (skippedFiles o + 1) o) w))
    else (Ok loc, w).
Proof.
  intros Hmsg Hq.
  unfold forBody, queueOrSkip, processFullQueue, bind, gets, modify, log, emit, ret.
  cbv beta iota. rewrite Hmsg.
  destruct (hasMedia msg); cbv beta iota; cbn [downloadQueue]; rewrite Hq; reflexivity.
Qed.

Lemma forDetails_none_eligible (H : Helpers) (E : Env) client details :
  forall rest loc w,
    downloadQueue loc = [] ->
    (forall msg, In msg rest -> truthy (canDownload H w msg) = false) ->
    exists loc' w',
      forDetails H E client details rest loc w = (Ok loc', w') /\
      downloadQueue loc' = [] /\
      currentBatchDownloaded loc' = currentBatchDownloaded loc /\
      currentBatchSkipped loc' = currentBatchSkipped loc + countMedia rest /\
      trace w' =
        trace w ++ map (fun m => ELog (LSkipped (msg_id m))) (List.filter hasMedia rest) /\
      skippedFiles (this w') = skippedFiles (this w) + countMedia rest /\
      totalDownloaded (this w') = totalDownloaded (this w) /\
      outputFolder (this w') = outputFolder (this w) /\
      downloadableFiles (this w') = downloadableFiles (this w) /\
      files w' = files w /\
      promises w' = promises w /\
      exportLog w' = exportLog w /\
      messageOffsetId w' = messageOffsetId w.
Proof.
  induction rest as [ | msg rest IH]; intros loc w Hq Hnone.
  - exists loc, w. split; [reflexivity | ]. unfold countMedia. simpl.
    rewrite app_nil_r, !Z.add_0_r. repeat split; auto.
  - assert (Hmsg : truthy (canDownload H w msg) = false) by (apply Hnone; left; reflexivity).
    cbn [forDetails].
    pose proof (forBody_not_eligible H E client details msg loc w Hmsg Hq) as Hbody.
    rewrite countMedia_cons. unfold mediaUnit. cbn [List.filter].
    destruct (hasMedia msg); rewrite (bind_ok _ _ _ _ _ Hbody).
    + match goal with |- context [forDetails H E client details rest ?l ?w1] =>
        destruct (IH l w1) as (loc' & w' & Hrun & Hq' & Hd' & Hs' & Htr' & Hsf' & Htd' &
                                 Hof' & Hdf' & Hf' & Hp' & Hl' & Hc')
      end.
      { exact Hq. }
      { intros m Hm. rewrite <- (Hnone m (or_intror Hm)).
        f_equal; apply canDownload_ext; reflexivity. }
      exists loc', w'. split; [exact Hrun | ]. simpl in *.
      rewrite Htr', <- app_assoc. simpl.
      repeat split; auto; lia.
    + destruct (IH loc w Hq) as (loc' & w' & Hrun & Hq' & Hd' & Hs' & Htr' & Hsf' & Htd' &
                                   Hof' & Hdf' & Hf' & Hp' & Hl' & Hc').
      { intros m Hm. apply Hnone. right. exact Hm. }
      exists loc', w'. split; [exact Hrun | ].
      repeat split; auto; lia.
Qed.

(** X10: when no message of the page is eligible (every media file is
    already on disk, or is filtered out, or no allow-set is configured),
    the download phase creates no promise and asks the client for nothing:
    it logs one line for each message with media, in order, and counts it
    as skipped, in the batch and in [skippedFiles]; files, promises, export
    log, cursor and [totalDownloaded] are as before. *)
Theorem nothing_eligible_all_skipped (H : Helpers) (E : Env) (client : option Client)
    (details : list Message) (w : World) :
  (forall msg, In msg details -> truthy (canDownload H w msg) = false) ->
  exists loc w',
    runDownloads H E client details w = (Ok loc, w') /\
    downloadQueue loc = [] /\
    currentBatchDownloaded loc = 0 /\
    currentBatchSkipped loc = countMedia details /\
    trace w' =
      trace w ++ map (fun m => ELog (LSkipped (msg_id m))) (List.filter hasMedia details) /\
    skippedFiles (this w') = skippedFiles (this w) + countMedia details /\
    totalDownloaded (this w') = totalDownloaded (this w) /\
    files w' = files w /\
    promises w' = promises w /\
    exportLog w' = exportLog w /\
    messageOffsetId w' = messageOffsetId w.
Proof.
  intros Hnone.
  destruct (forDetails_none_eligible H E client details details
              {| downloadQueue := []; currentBatchDownloaded := 0;
                 currentBatchSkipped := 0 |} w eq_refl Hnone)
    as (loc & w' & Hrun & Hq & Hd & Hs & Htr & Hsf & Htd & _ & _ & Hf & Hp & Hl & Hc).
  exists loc, w'. unfold runDownloads. rewrite (bind_ok _ _ _ _ _ Hrun).
  rewrite Hq. simpl in *. repeat split; auto.
Qed.

(** A new instance has no allow-set: the photo of the page is skipped. *)
Lemma nothing_eligible_all_skipped_witness :
  let E := channelEnv threeMessages false None steadyClock in
  let w := initialWorld constructor in
  exists loc w',
    runDownloads exampleHelpers E (Some TelegramClient) threeMessages w = (Ok loc, w') /\
    downloadQueue loc = [] /\
    currentBatchDownloaded loc = 0 /\
    currentBatchSkipped loc = countMedia threeMessages /\
    trace w' =
      trace w ++
      map (fun m => ELog (LSkipped (msg_id m))) (List.filter hasMedia threeMessages) /\
    skippedFiles (this w') = skippedFiles (this w) + countMedia threeMessages /\
    totalDownloaded (this w') = totalDownloaded (this w) /\
    files w' = files w /\
    promises w' = promises w /\
    exportLog w' = exportLog w /\
    messageOffsetId w' = messageOffsetId w.
Proof.
  cbv zeta.
  apply (nothing_eligible_all_skipped exampleHelpers
           (channelEnv threeMessages false None steadyClock) (Some TelegramClient)
           threeMessages (initialWorld constructor)).
  intros msg Hin. simpl in Hin.
  destruct Hin as [<- | [<- | [<- | []]]]; reflexivity.
Defined.

(** ** The state a run leaves *)

Lemma coherent_refl w : Coherent w w.
Proof.
  exists []. rewrite !app_nil_r. unfold count. simpl. repeat split; auto; lia.
Qed.

Lemma coherent_trans w1 w2 w3 : Coherent w1 w2 -> Coherent w2 w3 -> Coherent w1 w3.
Proof.
  intros (evs1 & Htr1 & Hd1 & Hl1 & Hc1) (evs2 & Htr2 & Hd2 & Hl2 & Hc2).
  exists (evs1 ++ evs2). rewrite Htr2, Htr1, Hd2, Hd1, Hl2, Hl1, Hc2, Hc1.
  rewrite count_app, <- !app_assoc. unfold appendedEntries, savedCursor.
  rewrite flat_map_app, fold_left_app.
  split; [reflexivity | ]. split; [ | split; reflexivity].
  rewrite Nat2Z.inj_add. lia.
Qed.

Lemma nothing_persisted evs :
  count isPersist evs = O ->
  appendedEntries evs = [] /\ forall c, savedCursor c evs = c.
Proof.
  unfold count, appendedEntries, savedCursor.
  induction evs as [ | e evs IH]; simpl; intros Hnone; [auto | ].
  destruct e; simpl in *; try discriminate; auto.
Qed.

Lemma coherent_calm kf w w' : sameBut kf calmE w w' -> Coherent w w'.
Proof.
  intros [[evs [Htr Hcalm]] _ Hl Hc _ Hd _ _]. exists evs.
  assert (Hp : count isPersist evs = O /\ count isSettledEv evs = O).
  { split; apply (count_none _ calmE); auto; intros e He; destruct e;
      try discriminate; reflexivity. }
  destruct Hp as [Hp Hs]. destruct (nothing_persisted evs Hp) as [Ha Hsc].
  rewrite Ha, Hsc, Hs, app_nil_r. repeat split; auto; lia.
Qed.

Lemma coherent_common w0 w loc : Common w0 w loc -> Coherent w0 w.
Proof.
  intros Hcommon.
  destruct (cm_account _ _ _ Hcommon) as (evs & Htr & Hp & _ & _ & Hd & _).
  destruct (nothing_persisted evs Hp) as [Ha Hsc].
  exists evs. rewrite Ha, Hsc, app_nil_r.
  split; [exact Htr | ]. split; [exact Hd | ].
  split; [apply (cm_exportLog _ _ _ Hcommon) | apply (cm_cursor _ _ _ Hcommon)].
Qed.

Lemma coherent_record (H : Helpers) (E : Env) details w :
  Coherent w (snd (recordMessages H E details w)).
Proof.
  unfold recordMessages, appendToJSONArrayFile, bind, gets, tick, modify, emit.
  simpl. destruct (env_appendFile E (ticks w) _); simpl.
  - eexists [_]. simpl. split; [reflexivity | ]. unfold count. simpl.
    split; [lia | ]. split; reflexivity.
  - apply (coherent_refl (with_ticks S w)).
Qed.

Lemma coherent_update (E : Env) c w : Coherent w (snd (updateLastSelection E c w)).
Proof.
  unfold updateLastSelection, bind, gets, tick, modify, emit.
  simpl. destruct (env_saveSelection E (ticks w)); simpl.
  - eexists [_]. simpl. split; [reflexivity | ]. unfold count. simpl.
    rewrite app_nil_r. split; [lia | ]. split; reflexivity.
  - apply (coherent_refl (with_ticks S w)).
Qed.

Lemma tracked_refl w : tracked w w.
Proof. intros Hs. split; [exact Hs | apply coherent_refl]. Qed.

Lemma tracked_trans w1 w2 w3 : tracked w1 w2 -> tracked w2 w3 -> tracked w1 w3.
Proof.
  intros H12 H23 Hs. destruct (H12 Hs) as [Hs2 Hc2]. destruct (H23 Hs2) as [Hs3 Hc3].
  split; [exact Hs3 | eapply coherent_trans; eassumption].
Qed.

Lemma tracked_calm kf w w' : sameBut kf calmE w w' -> tracked w w'.
Proof.
  intros Hsb Hs. split; [apply (safely_calm kf w w' Hsb Hs) | apply (coherent_calm kf), Hsb].
Qed.

Lemma steps_tracked_calm {A} kf (m : M A) :
  steps (sameBut kf calmE) m -> steps tracked m.
Proof. intros Hm w. eapply tracked_calm, Hm. Qed.

Lemma processPage_coherent (H : Helpers) (E : Env) client channelId messages w :
  Safe (trace w) ->
  Coherent w (snd (processPage H E client channelId messages w)).
Proof.
  intros Hs. unfold processPage.
  assert (Hframe : steps (sameBut true keepE)
                     (retryWithBackoff E
                        (getMessageDetail E client channelId (Some (map msg_id messages)))
                        MAX_RETRIES)).
  { apply sb_retryWithBackoff; [reflexivity | reflexivity | ].
    apply sb_getMessageDetail; reflexivity. }
  specialize (Hframe w).
  apply (sameBut_weaken true keepE calmE) in Hframe; [ | auto using keepE_calm].
  destruct (tracked_calm false _ _ Hframe Hs) as [Hs1 Hc1].
  destruct (retryWithBackoff E _ MAX_RETRIES w) as [[d | e | ] w1] eqn:Hd;
    simpl in Hs1, Hc1.
  2, 3: rewrite ?(bind_throw _ _ _ _ _ Hd), ?(bind_outOfFuel _ _ _ _ Hd); exact Hc1.
  rewrite (bind_ok _ _ _ _ _ Hd).
  destruct d as [details | ]; [ | exact Hc1].
  assert (Hq1 : quiescent w1) by (split; apply Hs1).
  destruct (runDownloads_run H E client details w1 Hq1)
    as (loc & w2 & Hrun & Hcommon & Hq2 & _).
  rewrite (bind_ok _ _ _ _ _ Hrun).
  apply (coherent_trans w w1); [exact Hc1 | ].
  apply (coherent_trans w1 w2); [apply (coherent_common w1 w2 loc Hcommon) | ].
  pose proof (coherent_record H E details w2) as Hc3.
  destruct (recordMessages H E details w2) as [[[] | e | ] w3] eqn:Hrec; simpl in Hc3.
  2, 3: rewrite ?(bind_throw _ _ _ _ _ Hrec), ?(bind_outOfFuel _ _ _ _ Hrec); exact Hc3.
  rewrite (bind_ok _ _ _ _ _ Hrec).
  apply (coherent_trans w2 w3); [exact Hc3 | ].
  pose proof (coherent_update E (lastId messages) w3) as Hc4.
  destruct (updateLastSelection E (lastId messages) w3) as [[[] | e | ] w4] eqn:Hupd;
    simpl in Hc4.
  2, 3: rewrite ?(bind_throw _ _ _ _ _ Hupd), ?(bind_outOfFuel _ _ _ _ Hupd); exact Hc4.
  rewrite (bind_ok _ _ _ _ _ Hupd).
  apply (coherent_trans w3 w4); [exact Hc4 | ].
  apply (coherent_calm true).
  apply sb_bind; [apply sb_showProgress | intros _; apply sb_wait]; reflexivity.
Qed.

Lemma downloadChannel_tracked (H : Helpers) (E : Env) client channelId fuel :
  forall offsetMsgId,
    steps tracked (downloadChannel H E fuel client channelId offsetMsgId).
Proof.
  induction fuel as [ | fuel IH]; intros offsetMsgId; simpl.
  - apply (steps_outOfFuel tracked tracked_refl).
  - apply (steps_try_catch tracked tracked_trans).
    + intros w Hs. unfold tryBlock.
      pose proof (sb_fetchPage H E true calmE (fun _ => eq_refl) fuel client channelId
                    offsetMsgId (fun _ _ => eq_refl) (fun _ _ => eq_refl) w) as Hframe.
      destruct (tracked_calm true _ _ Hframe Hs) as [Hs1 Hc1].
      destruct (fetchPage H E fuel client channelId offsetMsgId w)
        as [[r | e | ] w1] eqn:Hfetch; simpl in Hs1, Hc1.
      2, 3: rewrite ?(bind_throw _ _ _ _ _ Hfetch), ?(bind_outOfFuel _ _ _ _ Hfetch);
        split; assumption.
      rewrite (bind_ok _ _ _ _ _ Hfetch).
      destruct r as [[ | m ms] | ]; [ | | split; assumption].
      * apply (tracked_trans w w1); [intros _; split; assumption | | exact Hs].
        apply (steps_tracked_calm true).
        apply sb_bind; [apply sb_log | intros _; apply sb_showProgress]; reflexivity.
      * pose proof (fetchPage_page H E fuel client channelId offsetMsgId w (m :: ms) w1
                      Hfetch) as Hpage.
        pose proof (processPage_safe H E client channelId (m :: ms) w1 Hs1 Hpage) as Hs2.
        pose proof (processPage_coherent H E client channelId (m :: ms) w1 Hs1) as Hc2.
        destruct (processPage H E client channelId (m :: ms) w1)
          as [[[] | e | ] w2] eqn:Hproc; simpl in Hs2, Hc2.
        2, 3: rewrite ?(bind_throw _ _ _ _ _ Hproc), ?(bind_outOfFuel _ _ _ _ Hproc);
          split; [exact Hs2 | eapply coherent_trans; eassumption].
        rewrite (bind_ok _ _ _ _ _ Hproc).
        destruct (IH (lastId (m :: ms)) w2 Hs2) as [Hs3 Hc3].
        split; [exact Hs3 | ].
        eapply coherent_trans; [exact Hc1 | ]. eapply coherent_trans; eassumption.
    + intros err. unfold catchBlock.
      apply (steps_bind tracked tracked_trans).
      * apply (steps_tracked_calm true), sb_log. reflexivity.
      * intros _. destruct (isFloodWait err).
        -- apply (steps_bind tracked tracked_trans);
             [apply (steps_tracked_calm true), sb_log; reflexivity | intros _].
           apply (steps_bind tracked tracked_trans);
             [apply (steps_tracked_calm true), sb_wait; reflexivity | intros _].
           apply IH.
        -- apply (steps_throw tracked tracked_refl).
Qed.

(** X11: however a run of [downloadChannel] ends, the state it leaves is
    the one its events account for: [totalDownloaded] has grown by the
    number of download promises that settled, whether their download
    succeeded or not, and by nothing else; the export log has grown by the
    entries appended, in order; and the saved cursor is the one saved
    last, or the one before the run when none was saved. *)
Theorem run_state_matches_events (H : Helpers) (E : Env) (fuel : nat)
    (client : option Client) (channelId : JsVal) (offsetMsgId : Z) (w : World) :
  trace w = [] ->
  let w' := snd (downloadChannel H E fuel client channelId offsetMsgId w) in
  totalDownloaded (this w') =
    totalDownloaded (this w) + Z.of_nat (count isSettledEv (trace w')) /\
  exportLog w' = exportLog w ++ appendedEntries (trace w') /\
  messageOffsetId w' = savedCursor (messageOffsetId w) (trace w').
Proof.
  intros Hfresh. cbv zeta.
  destruct (downloadChannel_tracked H E client channelId fuel offsetMsgId w)
    as [_ (evs & Htr & Hd & Hl & Hc)].
  { rewrite Hfresh. apply safe_nil. }
  rewrite Hfresh in Htr. simpl in Htr. rewrite Htr. auto.
Qed.

Lemma run_state_matches_events_witness :
  let E := channelEnv (photos 13) true None steadyClock in
  let w := initialWorld (allowing "photo" (JBool true)) in
  let w' := snd (downloadChannel exampleHelpers E 3 (Some TelegramClient) (JNum 42) 0 w) in
  (totalDownloaded (this w') = 13 /\ messageOffsetId w' = Some 13) /\
  totalDownloaded (this w') =
    totalDownloaded (this w) + Z.of_nat (count isSettledEv (trace w')) /\
  exportLog w' = exportLog w ++ appendedEntries (trace w') /\
  messageOffsetId w' = savedCursor (messageOffsetId w) (trace w').
Proof.
  cbv zeta. split; [vm_compute; auto | ].
  apply (run_state_matches_events exampleHelpers
           (channelEnv (photos 13) true None steadyClock) 3 (Some TelegramClient)
           (JNum 42) 0 (initialWorld (allowing "photo" (JBool true)))).
  reflexivity.
Defined.

(** ** The figures of the progress report *)







Example one_skipped_twelve_downloaded :
  let E := channelEnv (photos 13) false None steadyClock in
  let w0 := with_files (fun _ => {[ "/3_file.JPG" ]})
              (initialWorld (allowing "photo" (JBool true))) in
  let run := runDownloads exampleHelpers E (Some TelegramClient) (photos 13) w0 in
  skippedFiles (this (snd run)) = 1 /\ totalDownloaded (this (snd run)) = 12.
Proof. vm_compute. auto. Qed.

(** ** Errors that leave [downloadChannel] *)

Lemma downloadChannel_throws_no_flood (H : Helpers) (E : Env) client channelId fuel :
  forall offsetMsgId w err,
    fst (downloadChannel H E fuel client channelId offsetMsgId w) = Throw err ->
    isFloodWait err = false.
Proof.
  induction fuel as [ | fuel IH]; intros offsetMsgId w err; [discriminate | ].
  cbn [downloadChannel]. unfold try_catch.
  destruct (tryBlock H E (downloadChannel H E fuel client channelId) fuel client channelId
              offsetMsgId w) as [[[] | e | ] w1]; try discriminate.
  unfold catchBlock. unfold bind at 1, log, emit, modify.
  destruct (isFloodWait e) eqn:Hflood.
  - unfold bind at 1, log, emit, modify. unfold bind at 1. rewrite wait_run. cbv zeta.
    apply IH.
  - unfold throw. simpl. intros Heq. injection Heq as <-. exact Hflood.
Qed.

(** X13: an error that carries the flood marker never leaves
    [downloadChannel]: whatever fails inside it, at any depth, with such an
    error is answered by waiting and calling [downloadChannel] again, so
    an error thrown to the caller is not a flood error. *)
Theorem flood_error_never_escapes (H : Helpers) (E : Env) (fuel : nat)
    (client : option Client) (channelId : JsVal) (offsetMsgId : Z) (w : World)
    (err : Error) :
  fst (downloadChannel H E fuel client channelId offsetMsgId w) = Throw err ->
  isFloodWait err = false.
Proof. apply downloadChannel_throws_no_flood. Qed.

Lemma flood_error_never_escapes_witness :
  let E := channelEnv threeMessages false (Some "ETIMEDOUT") steadyClock in
  fst (downloadChannel exampleHelpers E 3 (Some TelegramClient) (JNum 42) 5
         (initialWorld constructor)) =
    Throw (newError "Failed to get messages: ETIMEDOUT") /\
  isFloodWait (newError "Failed to get messages: ETIMEDOUT") = false.
Proof.
  cbv zeta. split; [vm_compute; reflexivity | ].
  apply (flood_error_never_escapes exampleHelpers
           (channelEnv threeMessages false (Some "ETIMEDOUT") steadyClock) 3
           (Some TelegramClient) (JNum 42) 5 (initialWorld constructor)).
  vm_compute. reflexivity.
Defined.

(** ** What a computation emits *)

Section Emits.

Variable N : Event -> bool.

Lemma eo_refl w : extends N (trace w) (trace w).
Proof. apply extends_refl. Qed.

Lemma eo_trans (w1 w2 w3 : World) :
  extends N (trace w1) (trace w2) -> extends N (trace w2) (trace w3) ->
  extends N (trace w1) (trace w3).
Proof. apply extends_trans. Qed.

Lemma eo_ret {A} (a : A) : emitsOnly N (ret a).
Proof. intros w. apply eo_refl. Qed.

Lemma eo_throw {A} e : emitsOnly N (@throw A e).
Proof. intros w. apply eo_refl. Qed.

Lemma eo_outOfFuel {A} : emitsOnly N (@outOfFuel A).
Proof. intros w. apply eo_refl. Qed.

Lemma eo_gets {A} (f : World -> A) : emitsOnly N (gets f).
Proof. intros w. apply eo_refl. Qed.

Lemma eo_bind {A B} (m : M A) (f : A -> M B) :
  emitsOnly N m -> (forall a, emitsOnly N (f a)) -> emitsOnly N (bind m f).
Proof. apply steps_bind. exact eo_trans. Qed.

Lemma eo_try_catch {A} (m : M A) h :
  emitsOnly N m -> (forall e, emitsOnly N (h e)) -> emitsOnly N (try_catch m h).
Proof. apply steps_try_catch. exact eo_trans. Qed.

Lemma eo_modify f : (forall w, trace (f w) = trace w) -> emitsOnly N (modify f).
Proof. intros Hf w. simpl. rewrite Hf. apply extends_refl. Qed.

Lemma eo_tick : emitsOnly N tick.
Proof. intros w. apply extends_refl. Qed.

Lemma eo_emit e : N e = true -> emitsOnly N (emit e).
Proof. intros He w. exists [e]. simpl. rewrite He. auto. Qed.

Lemma eo_frame {A} kf (m : M A) : steps (sameBut kf N) m -> emitsOnly N m.
Proof. intros Hm w. apply (kept_trace _ _ _ _ (Hm w)). Qed.

End Emits.

Ltac eo_tac :=
  repeat first
    [ apply eo_ret | apply eo_throw | apply eo_outOfFuel | apply eo_gets | apply eo_tick
    | apply eo_emit; reflexivity
    | apply eo_modify; reflexivity
    | apply eo_bind; [ | intros ? ]
    | apply eo_try_catch; [ | intros ? ]
    | match goal with |- emitsOnly _ (if ?b then _ else _) => destruct b end
    | match goal with |- emitsOnly _ (match ?x with _ => _ end) => destruct x end
    | match goal with |- emitsOnly _ (let '(_, _) := ?x in _) => destruct x end
    | progress auto ].

Section Local.

Variable H : Helpers.
Variable E : Env.

Lemma eo_wait N ms :
  (forall l, N (ELog l) = true) -> (forall r, N (ETimeout ms r) = true) ->
  emitsOnly N (wait E ms).
Proof.
  intros Hl Ht. unfold wait, mathRandom, setTimeout, log.
  apply eo_bind; [eo_tac | intros r].
  apply eo_bind; [apply eo_emit, Hl | intros _; apply eo_emit, Ht].
Qed.

Lemma eo_startDownload msg : emitsOnly localE (startDownload E msg).
Proof.
  unfold startDownload, dateNow, recordRequest, log. eo_tac.
Qed.

Lemma eo_writeSidecars msg media path : emitsOnly localE (writeSidecars H E msg media path).
Proof. unfold writeSidecars, writeFileSync. eo_tac. Qed.

Lemma eo_resumeDownload client id loc : emitsOnly localE (resumeDownload H E client id loc).
Proof.
  unfold resumeDownload, recordRequest, setPc, downloadMessageMedia_begin,
    downloadMessageMedia_end, awaitDownloadMedia, log.
  eo_tac; auto using eo_writeSidecars.
Qed.

Lemma eo_eventLoop client queue :
  forall fuel loc, emitsOnly localE (eventLoop H E fuel client queue loc).
Proof.
  induction fuel as [ | fuel IH]; intros loc; cbn [eventLoop]; [apply eo_outOfFuel | ].
  apply eo_bind; [apply eo_gets | intros pending].
  destruct pending as [ | id0 pending]; [apply eo_ret | ].
  apply eo_bind; [apply eo_tick | intros k].
  apply eo_bind; [apply eo_resumeDownload | intros loc'; apply IH].
Qed.

Lemma eo_queueOrSkip client details msg loc :
  emitsOnly localE (queueOrSkip H E client details msg loc).
Proof. unfold queueOrSkip, log. eo_tac. Qed.

Lemma eo_processFullQueue client loc : emitsOnly localE (processFullQueue H E client loc).
Proof.
  unfold processFullQueue, promiseAll, log.
  destruct (MAX_PARALLEL_DOWNLOAD <=? length (downloadQueue loc))%nat; [ | apply eo_ret].
  apply eo_bind; [apply eo_emit; reflexivity | intros _].
  apply eo_bind; [apply eo_eventLoop | intros loc'].
  apply eo_bind; [apply eo_wait; reflexivity | intros _; apply eo_ret].
Qed.

Lemma eo_forDetails client details rest :
  forall loc, emitsOnly localE (forDetails H E client details rest loc).
Proof.
  induction rest as [ | msg rest IH]; intros loc; cbn [forDetails]; [apply eo_ret | ].
  apply eo_bind; [ | intros loc'; apply IH].
  unfold forBody. apply eo_bind; [apply eo_queueOrSkip | intros loc'].
  apply eo_processFullQueue.
Qed.

Lemma eo_runDownloads client details : emitsOnly localE (runDownloads H E client details).
Proof.
  unfold runDownloads, promiseAll, log.
  apply eo_bind; [apply eo_forDetails | intros loc].
  destruct (0 <? length (downloadQueue loc))%nat; [ | apply eo_ret].
  apply eo_bind; [apply eo_emit; reflexivity | intros _; apply eo_eventLoop].
Qed.

End Local.








(** ** Pages are requested at the saved cursor *)

Lemma cursorAt_snoc start p e :
  cursorAt start (p ++ [e]) =
  match e with
  | EUpdateLastSelection c => c
  | _ => cursorAt start p
  end.
Proof.
  unfold cursorAt, savedCursor. rewrite fold_left_app. simpl.
  destruct e; reflexivity.
Qed.

Lemma page_steady start offsetId tr evs :
  forallb (pageE offsetId) evs = true ->
  cursorAt start tr = offsetId ->
  Always (pageRule start) tr ->
  Always (pageRule start) (tr ++ evs) /\ cursorAt start (tr ++ evs) = offsetId.
Proof.
  induction evs as [ | e evs IH] using rev_ind; intros Hall Hcur Hrule.
  - rewrite app_nil_r. auto.
  - rewrite forallb_app in Hall. apply andb_true_iff in Hall as [Hall He].
    simpl in He. rewrite andb_true_r in He.
    destruct (IH Hall Hcur Hrule) as [Hrule' Hcur'].
    rewrite app_assoc. split.
    + apply Always_snoc; [exact Hrule' | ].
      destruct e; simpl; auto. destruct q; auto. intros ->.
      unfold pageE in He. rewrite Z.eqb_refl in He. simpl in He.
      apply Z.eqb_eq in He. congruence.
    + rewrite cursorAt_snoc. destruct e; try exact Hcur'. discriminate.
Qed.

Lemma steady_step start offsetId w w' :
  extends (pageE offsetId) (trace w) (trace w') ->
  cursorAt start (trace w) = offsetId ->
  Always (pageRule start) (trace w) ->
  Always (pageRule start) (trace w') /\ cursorAt start (trace w') = offsetId.
Proof. intros (evs & -> & Hall). apply page_steady. exact Hall. Qed.

Lemma local_pageE offsetId e : localE e = true -> pageE offsetId e = true.
Proof. destruct e; simpl; auto; discriminate. Qed.

Lemma calm_pageE_log offsetId l : pageE offsetId (ELog l) = true.
Proof. reflexivity. Qed.

Section Drift.

Variable H : Helpers.
Variable E : Env.
Variable client : option Client.
Variable channelId : JsVal.
Variable start : Z.

Lemma eo_fetchPage fuel offsetMsgId :
  emitsOnly (pageE offsetMsgId) (fetchPage H E fuel client channelId offsetMsgId).
Proof.
  unfold fetchPage. destruct (js_toString channelId); [ | apply eo_throw].
  apply eo_bind; [apply eo_modify; reflexivity | intros _].
  apply eo_bind; [ | intros _].
  - destruct (offsetMsgId =? 0); [ | apply eo_ret].
    apply (eo_frame _ true). apply sb_countTotalMessages; reflexivity.
  - apply (eo_frame _ true). apply sb_retryWithBackoff; [reflexivity | reflexivity | ].
    apply sb_getMessages.
    intros res. unfold pageE. rewrite !Z.eqb_refl. reflexivity.
Qed.

Lemma eo_details offsetMsgId ids :
  emitsOnly (pageE offsetMsgId)
    (retryWithBackoff E (getMessageDetail E client channelId ids) MAX_RETRIES).
Proof.
  apply (eo_frame _ true). apply sb_retryWithBackoff; [reflexivity | reflexivity | ].
  apply sb_getMessageDetail; reflexivity.
Qed.

Lemma eo_recordMessages offsetMsgId details :
  emitsOnly (pageE offsetMsgId) (recordMessages H E details).
Proof. unfold recordMessages, appendToJSONArrayFile. eo_tac. Qed.

Lemma eo_report offsetMsgId a b :
  emitsOnly (pageE offsetMsgId) (showProgress a b ;;; wait E RATE_LIMIT_DELAY).
Proof.
  apply (eo_frame _ true).
  apply sb_bind; [apply sb_showProgress | intros _; apply sb_wait]; reflexivity.
Qed.

Lemma report_returns a b w :
  exists w', (showProgress a b ;;; wait E RATE_LIMIT_DELAY) w = (Ok tt, w').
Proof.
  unfold showProgress, bind, gets, log, emit, modify. simpl. rewrite wait_run.
  eexists. reflexivity.
Qed.

(** Processing a page keeps the rule; when it returns the run is at the
    last id of the page, and when it throws the run is where it was. *)
Lemma processPage_drift offsetMsgId messages w :
  cursorAt start (trace w) = offsetMsgId ->
  Always (pageRule start) (trace w) ->
  Always (pageRule start) (trace (snd (processPage H E client channelId messages w))) /\
  match fst (processPage H E client channelId messages w) with
  | Ok _ =>
      cursorAt start (trace (snd (processPage H E client channelId messages w))) =
        lastId messages
  | Throw _ =>
      cursorAt start (trace (snd (processPage H E client channelId messages w))) =
        offsetMsgId
  | OutOfFuel => True
  end.
Proof.
  intros Hcur Hrule. unfold processPage.
  destruct (steady_step start offsetMsgId w _
              (eo_details offsetMsgId (Some (map msg_id messages)) w) Hcur Hrule)
    as [Hrule1 Hcur1].
  destruct (retryWithBackoff E _ MAX_RETRIES w) as [[d | e | ] w1] eqn:Hd;
    simpl in Hrule1, Hcur1.
  2, 3: rewrite ?(bind_throw _ _ _ _ _ Hd), ?(bind_outOfFuel _ _ _ _ Hd); simpl; auto.
  rewrite (bind_ok _ _ _ _ _ Hd).
  destruct d as [details | ]; [ | simpl; auto].
  assert (Hlocal : extends (pageE offsetMsgId) (trace w1)
                     (trace (snd (runDownloads H E client details w1)))).
  { eapply extends_weaken; [apply local_pageE | apply eo_runDownloads]. }
  destruct (steady_step start offsetMsgId w1 _ Hlocal Hcur1 Hrule1) as [Hrule2 Hcur2].
  destruct (runDownloads H E client details w1) as [[loc | e | ] w2] eqn:Hrun;
    simpl in Hrule2, Hcur2.
  2, 3: rewrite ?(bind_throw _ _ _ _ _ Hrun), ?(bind_outOfFuel _ _ _ _ Hrun); simpl; auto.
  rewrite (bind_ok _ _ _ _ _ Hrun).
  destruct (steady_step start offsetMsgId w2 _
              (eo_recordMessages offsetMsgId details w2) Hcur2 Hrule2)
    as [Hrule3 Hcur3].
  destruct (recordMessages H E details w2) as [[[] | e | ] w3] eqn:Hrec;
    simpl in Hrule3, Hcur3.
  2, 3: rewrite ?(bind_throw _ _ _ _ _ Hrec), ?(bind_outOfFuel _ _ _ _ Hrec); simpl; auto.
  rewrite (bind_ok _ _ _ _ _ Hrec).
  destruct (updateLastSelection E (lastId messages) w3) as [[[] | e | ] w4] eqn:Hupd.
  - destruct (updateLastSelection_run E (lastId messages) w3 w4 Hupd) as (Htr4 & _).
    rewrite (bind_ok _ _ _ _ _ Hupd).
    assert (Hrule4 : Always (pageRule start) (trace w4)).
    { rewrite Htr4. apply Always_snoc; [exact Hrule3 | exact I]. }
    assert (Hcur4 : cursorAt start (trace w4) = lastId messages).
    { rewrite Htr4, cursorAt_snoc. reflexivity. }
    destruct (steady_step start (lastId messages) w4 _
                (eo_report (lastId messages) (currentBatchDownloaded loc)
                   (currentBatchSkipped loc) w4) Hcur4 Hrule4) as [Hrule5 Hcur5].
    destruct (report_returns (currentBatchDownloaded loc) (currentBatchSkipped loc) w4)
      as [w5 Hreport].
    rewrite Hreport in *. simpl in *. auto.
  - rewrite (bind_throw _ _ _ _ _ Hupd). simpl.
    assert (Htr4 : trace w4 = trace w3).
    { unfold updateLastSelection, bind, tick, modify, emit in Hupd. simpl in Hupd.
      destruct (env_saveSelection E (ticks w3)); [discriminate | ].
      injection Hupd as _ <-. reflexivity. }
    rewrite Htr4. auto.
  - rewrite (bind_outOfFuel _ _ _ _ Hupd). simpl.
    unfold updateLastSelection, bind, tick, modify, emit in Hupd. simpl in Hupd.
    destruct (env_saveSelection E (ticks w3)); discriminate.
Qed.

End Drift.

Lemma eo_done offsetMsgId :
  emitsOnly (pageE offsetMsgId) (log LCompleted ;;; showProgress 0 0).
Proof.
  apply (eo_frame _ true).
  apply sb_bind; [apply sb_log | intros _; apply sb_showProgress]; reflexivity.
Qed.

Lemma downloadChannel_drift (H : Helpers) (E : Env) client channelId start fuel :
  forall offsetMsgId w,
    cursorAt start (trace w) = offsetMsgId ->
    Always (pageRule start) (trace w) ->
    Always (pageRule start)
      (trace (snd (downloadChannel H E fuel client channelId offsetMsgId w))).
Proof.
  induction fuel as [ | fuel IH]; intros offsetMsgId w Hcur Hrule; [exact Hrule | ].
  cbn [downloadChannel]. unfold try_catch.
  assert (Htry :
            Always (pageRule start)
              (trace (snd (tryBlock H E (downloadChannel H E fuel client channelId) fuel
                             client channelId offsetMsgId w))) /\
            forall e,
              fst (tryBlock H E (downloadChannel H E fuel client channelId) fuel
                     client channelId offsetMsgId w) = Throw e ->
              isFloodWait e = true ->
              cursorAt start
                (trace (snd (tryBlock H E (downloadChannel H E fuel client channelId) fuel
                               client channelId offsetMsgId w))) = offsetMsgId).
  { unfold tryBlock.
    destruct (steady_step start offsetMsgId w _
                (eo_fetchPage H E client channelId fuel offsetMsgId w) Hcur Hrule)
      as [Hrule1 Hcur1].
    destruct (fetchPage H E fuel client channelId offsetMsgId w)
      as [[r | e | ] w1] eqn:Hfetch; simpl in Hrule1, Hcur1.
    2, 3: rewrite ?(bind_throw _ _ _ _ _ Hfetch), ?(bind_outOfFuel _ _ _ _ Hfetch);
      simpl; auto.
    rewrite (bind_ok _ _ _ _ _ Hfetch).
    destruct r as [[ | m ms] | ]; [ | | simpl; auto].
    - destruct (steady_step start offsetMsgId w1 _ (eo_done offsetMsgId w1) Hcur1 Hrule1)
        as [Hrule2 Hcur2].
      auto.
    - destruct (processPage_drift H E client channelId start offsetMsgId (m :: ms) w1
                  Hcur1 Hrule1) as [Hrule2 Ho].
      destruct (processPage H E client channelId (m :: ms) w1)
        as [[[] | e | ] w2] eqn:Hproc; simpl in Hrule2, Ho.
      + rewrite (bind_ok _ _ _ _ _ Hproc). split; [apply IH; assumption | ].
        intros e He Hflood.
        rewrite (downloadChannel_throws_no_flood H E client channelId fuel _ _ _ He)
          in Hflood.
        discriminate.
      + rewrite (bind_throw _ _ _ _ _ Hproc). simpl. auto.
      + rewrite (bind_outOfFuel _ _ _ _ Hproc). simpl. split; [exact Hrule2 | discriminate]. }
  destruct (tryBlock H E (downloadChannel H E fuel client channelId) fuel client channelId
              offsetMsgId w) as [[[] | e | ] w1]; simpl in Htry;
    destruct Htry as [Hrule1 Hflood]; try exact Hrule1.
  unfold catchBlock. unfold bind at 1, log, emit, modify.
  destruct (isFloodWait e) eqn:He.
  - unfold bind at 1, log, emit, modify. unfold bind at 1. rewrite wait_run. cbv zeta.
    apply IH; simpl.
    + rewrite !cursorAt_snoc. apply (Hflood e eq_refl He).
    + repeat (apply Always_snoc; [ | exact I]). exact Hrule1.
  - simpl. apply Always_snoc; [exact Hrule1 | exact I].
Qed.

(** X15: over a whole run of [downloadChannel], every page (every request
    for [MESSAGE_LIMIT] messages of the history) is asked for at the cursor
    the run is at: the one saved last, or the offset the run was called with
    as long as none was saved.  Retries, flood waits and failures never move
    the next page away from what a restart would resume from. *)
Theorem pages_requested_at_saved_cursor (H : Helpers) (E : Env) (fuel : nat)
    (client : option Client) (channelId : JsVal) (offsetMsgId : Z) (w : World)
    (p q : list Event) (ch : JsVal) (offsetId : Z) (res : Response (list Message)) :
  trace w = [] ->
  trace (snd (downloadChannel H E fuel client channelId offsetMsgId w)) =
    p ++ EGetMessages ch (QHistory MESSAGE_LIMIT offsetId) res :: q ->
  offsetId = match savedCursor None p with
             | Some c => c
             | None => offsetMsgId
             end.
Proof.
  intros Hfresh Htr.
  assert (Hrule : Always (pageRule offsetMsgId)
                    (trace (snd (downloadChannel H E fuel client channelId offsetMsgId w)))).
  { apply downloadChannel_drift; rewrite Hfresh; [reflexivity | apply Always_nil]. }
  specialize (Hrule p _ q Htr). simpl in Hrule. apply Hrule. reflexivity.
Qed.

Lemma pages_requested_at_saved_cursor_witness :
  let E := channelEnv (photos 13) true None steadyClock in
  let w := initialWorld (allowing "photo" (JBool true)) in
  let tr := trace (snd (downloadChannel exampleHelpers E 3 (Some TelegramClient)
                          (JNum 42) 0 w)) in
  trace w = [] /\
  tr = firstn 150 tr ++
       EGetMessages (JNum 42) (QHistory MESSAGE_LIMIT 13) (Resolved []) :: skipn 151 tr /\
  savedCursor None (firstn 150 tr) = Some 13 /\
  13 = match savedCursor None (firstn 150 tr) with
       | Some c => c
       | None => 0
       end.
Proof.
  cbv zeta. split; [reflexivity | ]. split; [vm_compute; reflexivity | ].
  split; [vm_compute; reflexivity | ].
  apply (pages_requested_at_saved_cursor exampleHelpers
           (channelEnv (photos 13) true None steadyClock) 3 (Some TelegramClient)
           (JNum 42) 0 (initialWorld (allowing "photo" (JBool true)))
           (firstn 150
              (trace (snd (downloadChannel exampleHelpers
                             (channelEnv (photos 13) true None steadyClock) 3
                             (Some TelegramClient) (JNum 42) 0
                             (initialWorld (allowing "photo" (JBool true)))))))
           (skipn 151
              (trace (snd (downloadChannel exampleHelpers
                             (channelEnv (photos 13) true None steadyClock) 3
                             (Some TelegramClient) (JNum 42) 0
                             (initialWorld (allowing "photo" (JBool true)))))))
           (JNum 42) 13 (Resolved [])).
  - reflexivity.
  - vm_compute. reflexivity.
Defined.
